(** * Heritage Hunter: the data-sync pipeline

    A shallow embedding of the ingestion pipeline of the repository
    (fetcher, per-city parsers, normalizer, cron sync orchestrator) and the
    properties its specification states about it.

    Conventions of the embedding.
    - A JavaScript [string] is a Rocq [string] holding its UTF-8 bytes.
    - A JavaScript [number] is [number] below: NaN, the two infinities, or
      a finite binary64 value carried as the rational it denotes.  Every
      operation that computes a number rounds its exact result to the
      nearest binary64 value, ties to even ([round64]), as IEEE 754 division
      and the reading of a decimal text do.  The two zeros are one value: no
      code of the pipeline tells them apart (both are falsy).
    - [x || y], [x ? a : b] and [!x] follow JavaScript truthiness: the empty
      string, [undefined], [0] and [NaN] are falsy.
    - An object literal used as a lookup table ([Record<string, T>]) is a
      [gmap] holding its own keys; reading [table[key]] goes through [get],
      which also finds what every object inherits from [Object.prototype]
      ([constructor], [toString], ...).
    - A row produced by [Papa.parse (csv, {header: true})] is a finite map
      from column names to cell texts; the parsers read it only at column
      names they spell out, none of which names an inherited member.
    - Library and network calls ([parseFloat], [Papa.parse], [Papa.unparse],
      [fetch], the Supabase client) are parameters of the definitions that
      use them. *)

From Stdlib Require Import Ascii QArith Qround Qabs Lqa Qpower Floats.
From stdpp Require Import gmap strings list fin_maps pretty.

Local Open Scope string_scope.
Local Open Scope list_scope.

(** ** JavaScript values *)

Module Js.

Inductive number :=
| NaN
| Infinity (negative : bool)
| Finite (q : Q).

Definition truthyS (o : option string) : bool :=
  match o with
  | Some s => negb (String.eqb s "")
  | None => false
  end.

Definition truthyN (o : option number) : bool :=
  match o with
  | Some (Finite q) => negb (Qeq_bool q 0)
  | Some (Infinity _) => true
  | Some NaN => false
  | None => false
  end.

(** [a || b] on two optional strings. *)
Definition orS (a b : option string) : option string :=
  if truthyS a then a else b.

(** [a || d] where [d] is a string that is always there. *)
Definition orDefault (a : option string) (d : string) : string :=
  match a with
  | Some s => if String.eqb s "" then d else s
  | None => d
  end.

(** [a || null]: a falsy value becomes [null]. *)
Definition orNullS (a : option string) : option string :=
  if truthyS a then a else None.

Definition orNullN (a : option number) : option number :=
  if truthyN a then a else None.

Definition isNaN (x : number) : bool :=
  match x with NaN => true | _ => false end.

(** The decimal that [x.toFixed(2)] prints for a finite [x].  [toFixed]
    works on the absolute value, picks the integer [n] with [n / 100]
    closest to it (the larger one on a tie) and restores the sign; from
    [10^21] on it prints the number itself. *)
Definition toFixed2 (x : Q) : Q :=
  (if Qle_bool (inject_Z (10 ^ 21)) (Qabs x) then x
   else
     let n := Qfloor (Qabs x * 100 + (1 # 2)) in
     if Qle_bool 0 x then inject_Z n / 100 else - (inject_Z n / 100))%Q.

(** *** binary64

    [round64 q] is the binary64 value nearest to the rational [q]: 53
    significant bits, ties to the even significand, gradual underflow
    below [2^-1022], an infinity from [2^1024] on. *)

Definition pow2 (e : Z) : Q := (2 ^ e)%Q.

(** The [e] with [2^e <= a < 2^(e+1)], for [a > 0]. *)
Definition floorLog2 (a : Q) : Z :=
  let e0 := (Z.log2 (Qnum a) - Z.log2 (Zpos (Qden a)))%Z in
  if Qle_bool (pow2 e0) a then e0 else (e0 - 1)%Z.

Definition roundNearestEven (x : Q) : Z :=
  let f := Qfloor x in
  match Qcompare (x - inject_Z f) (1 # 2) with
  | Lt => f
  | Gt => (f + 1)%Z
  | Eq => if Z.even f then f else (f + 1)%Z
  end.

Definition round64 (q : Q) : number :=
  if Qeq_bool q 0 then Finite 0
  else
    let a := Qabs q in
    let e := Z.max (floorLog2 a) (-1022) in
    let quantum := pow2 (e - 52) in
    let r := Qred (inject_Z (roundNearestEven (a / quantum)) * quantum) in
    if Qle_bool (pow2 1024) r then Infinity (negb (Qle_bool 0 q))
    else Finite (if Qle_bool 0 q then r else - r)%Q.

(** The value of a decimal literal of the source, such as [3.30579]. *)
Definition literal (q : Q) : Q :=
  match round64 q with
  | Finite r => r
  | _ => 0%Q
  end.

(** [Number (x.toFixed(2))]: the two-place decimal that [toFixed] prints,
    read back as a number. *)
Definition numToFixed2 (x : number) : number :=
  match x with
  | Finite q =>
      if Qle_bool (inject_Z (10 ^ 21)) (Qabs q) then Finite q
      else round64 (toFixed2 q)
  | other => other
  end.

(** [x / k] for a finite [k > 0]. *)
Definition divBy (x : number) (k : Q) : number :=
  match x with
  | Finite q => round64 (q / k)
  | other => other
  end.

(** *** Lookup tables

    Names that every object inherits from [Object.prototype]. *)
Definition objectPrototype : list string :=
  [ "constructor"; "hasOwnProperty"; "isPrototypeOf"; "propertyIsEnumerable";
    "toLocaleString"; "toString"; "valueOf"; "__proto__";
    "__defineGetter__"; "__defineSetter__"; "__lookupGetter__";
    "__lookupSetter__" ].

(** What sits where the source expects an [A] that came out of a lookup
    table: an [A], or a member inherited from [Object.prototype] (a
    function, or the prototype itself under [__proto__]); such a member is
    truthy. *)
Inductive value (A : Type) :=
| Plain (a : A)
| Inherited (member : string).
Arguments Plain {A} a.
Arguments Inherited {A} member.

(** [table[key]] for a table written as an object literal; [None] is
    [undefined]. *)
Definition get {A} (table : gmap string A) (key : string) : option (value A) :=
  match table !! key with
  | Some a => Some (Plain a)
  | None =>
      if bool_decide (key ∈ objectPrototype) then Some (Inherited key) else None
  end.

Fixpoint stripPrefix (p s : string) : option string :=
  match p, s with
  | EmptyString, _ => Some s
  | String a p', String b s' => if Ascii.eqb a b then stripPrefix p' s' else None
  | String _ _, EmptyString => None
  end.

Fixpoint firstStrip (ps : list string) (s : string) : option string :=
  match ps with
  | [] => None
  | p :: ps' =>
      match stripPrefix p s with
      | Some rest => Some rest
      | None => firstStrip ps' s
      end
  end.

(** [`${n}`] for an array index. *)
Definition ofIndex (n : nat) : string := pretty n.

End Js.

Import Js.

Abbreviation Row := (gmap string string).

(** ** parsers/base.ts *)

Module RawLandData.
Record t := mk {
  sourceCity : string;
  district : string;
  section : option string;
  landNumber : string;
  ownerName : option string;
  areaM2 : option number;
  areaPing : option number;
  status : option string;
  rawData : option Row
}.
End RawLandData.

(** 1 ping in m², as the decimal 3.30579; the source computes with
    [literal PING], the binary64 value its literal denotes. *)
Definition PING : Q := 330579 # 100000.

Module AbstractParser.

(** [m2ToPing]: [Number ((m2 / 3.30579).toFixed(2))]. *)
Definition m2ToPing (m2 : number) : number :=
  numToFixed2 (divBy m2 (literal PING)).

(** The characters matched by [\s] (and removed by [trim]), as UTF-8. *)
Definition ofBytes (bs : list nat) : string :=
  String.string_of_list_ascii (map Ascii.ascii_of_nat bs).

Definition whitespace : list string :=
  map ofBytes
    [ [9]; [10]; [11]; [12]; [13]; [32];
      [194; 160];
      [225; 154; 128];
      [226; 128; 128]; [226; 128; 129]; [226; 128; 130]; [226; 128; 131];
      [226; 128; 132]; [226; 128; 133]; [226; 128; 134]; [226; 128; 135];
      [226; 128; 136]; [226; 128; 137]; [226; 128; 138];
      [226; 128; 168]; [226; 128; 169]; [226; 128; 175];
      [226; 129; 159];
      [227; 128; 128];
      [239; 187; 191] ]%nat.

(** [replace (/\s+/g, '')]: every whitespace character is dropped. *)
Fixpoint removeWhitespace (fuel : nat) (s : string) : string :=
  match fuel with
  | O => s
  | S fuel' =>
      match s with
      | EmptyString => EmptyString
      | String c rest =>
          match firstStrip whitespace s with
          | Some s' => removeWhitespace fuel' s'
          | None => String c (removeWhitespace fuel' rest)
          end
      end
  end.

(** [cleanOwnerName]: [undefined] for a falsy name, else the name trimmed
    and with every run of whitespace removed. *)
Definition cleanOwnerName (name : option string) : option string :=
  match name with
  | Some s =>
      if String.eqb s "" then None
      else Some (removeWhitespace (String.length s) s)
  | None => None
  end.

Fixpoint removeCommas (s : string) : string :=
  match s with
  | EmptyString => EmptyString
  | String c rest =>
      if Ascii.eqb c ","%char then removeCommas rest else String c (removeCommas rest)
  end.

Section ParseArea.
Variable parseFloat : string -> number.

(** [parseArea]: [undefined] for a falsy text or one that does not parse. *)
Definition parseArea (areaStr : option string) : option number :=
  match areaStr with
  | Some s =>
      if String.eqb s "" then None
      else
        let num := parseFloat (removeCommas s) in
        if isNaN num then None else Some num
  | None => None
  end.

End ParseArea.

End AbstractParser.

(** ** parsers/taipei.ts, parsers/changhua.ts, parsers/chiayi.ts

    Each [parse] reads the rows with [Papa.parse], keeps the rows that carry
    an owner name or a land number and maps the kept rows, with their index
    in the kept list, to [RawLandData]. *)

Module TaipeiParser.

Definition cityName : string := "台北市".
Definition datasetId : string := "134972".

Definition keep (row : Row) : bool :=
  truthyS (orS (row !! "被繼承人姓名") (row !! "地號")).

Section Parse.
Variable parseFloat : string -> number.
Let parseArea := AbstractParser.parseArea parseFloat.

Definition toRecord (index : nat) (row : Row) : RawLandData.t :=
  {| RawLandData.sourceCity := cityName;
     RawLandData.district := orDefault (row !! "土地區段") "未知區";
     RawLandData.section := row !! "地段";
     RawLandData.landNumber :=
       orDefault (row !! "地號") ("unknown-" +:+ ofIndex index);
     RawLandData.ownerName := AbstractParser.cleanOwnerName (row !! "被繼承人姓名");
     RawLandData.areaM2 := parseArea (row !! "面積");
     RawLandData.areaPing :=
       match parseArea (row !! "面積") with
       | Some a =>
           if truthyN (Some a) then Some (AbstractParser.m2ToPing a) else None
       | None => None
       end;
     RawLandData.status := Some (orDefault (row !! "列管情形") "列管中");
     RawLandData.rawData := Some row |}.

Definition parseRows (rows : list Row) : list RawLandData.t :=
  imap toRecord (List.filter keep rows).

End Parse.

End TaipeiParser.

Module ChanghuaParser.

Definition cityName : string := "彰化縣".
Definition datasetId : string := "28529".

Definition keep (row : Row) : bool :=
  truthyS (orS (row !! "被繼承人姓名") (row !! "地號")).

Section Parse.
Variable parseFloat : string -> number.
Let parseArea := AbstractParser.parseArea parseFloat.

Definition toRecord (index : nat) (row : Row) : RawLandData.t :=
  let areaM2 := parseArea (row !! "面積") in
  {| RawLandData.sourceCity := cityName;
     RawLandData.district := orDefault (row !! "鄉鎮市區") "未知區";
     RawLandData.section := row !! "地段";
     RawLandData.landNumber :=
       orDefault (row !! "地號") ("unknown-" +:+ ofIndex index);
     RawLandData.ownerName := AbstractParser.cleanOwnerName (row !! "被繼承人姓名");
     RawLandData.areaM2 := areaM2;
     RawLandData.areaPing :=
       match areaM2 with
       | Some a =>
           if truthyN (Some a) then Some (AbstractParser.m2ToPing a) else None
       | None => None
       end;
     RawLandData.status := Some (orDefault (row !! "列管情形") "列管中");
     RawLandData.rawData := Some row |}.

Definition parseRows (rows : list Row) : list RawLandData.t :=
  imap toRecord (List.filter keep rows).

End Parse.

End ChanghuaParser.

Module ChiayiParser.

(** The constructor: [isCounty] selects the county's name and dataset. *)
Definition cityName (isCounty : bool) : string :=
  if isCounty then "嘉義縣" else "嘉義市".
Definition datasetId (isCounty : bool) : string :=
  if isCounty then "133739" else "52344".

Definition keep (row : Row) : bool :=
  truthyS (orS (orS (row !! "被繼承人") (row !! "姓名")) (row !! "地號")).

Section Parse.
Variable parseFloat : string -> number.
Variable isCounty : bool.
Let parseArea := AbstractParser.parseArea parseFloat.

Definition toRecord (index : nat) (row : Row) : RawLandData.t :=
  let ownerName := orS (row !! "被繼承人") (row !! "姓名") in
  let district := orDefault (orS (row !! "區域") (row !! "鄉鎮市區")) "未知區" in
  let section := orS (row !! "地段") (row !! "段") in
  let landNumber :=
    orDefault (row !! "地號")
      (orDefault (row !! "小段") ("unknown-" +:+ ofIndex index)) in
  let areaStr := orS (row !! "面積") (row !! "土地面積") in
  let areaM2 := parseArea areaStr in
  {| RawLandData.sourceCity := cityName isCounty;
     RawLandData.district := district;
     RawLandData.section := section;
     RawLandData.landNumber := landNumber;
     RawLandData.ownerName := AbstractParser.cleanOwnerName ownerName;
     RawLandData.areaM2 := areaM2;
     RawLandData.areaPing :=
       match areaM2 with
       | Some a =>
           if truthyN (Some a) then Some (AbstractParser.m2ToPing a) else None
       | None => None
       end;
     RawLandData.status := Some (orDefault (row !! "管理情形") "列管中");
     RawLandData.rawData := Some row |}.

Definition parseRows (rows : list Row) : list RawLandData.t :=
  imap toRecord (List.filter keep rows).

End Parse.

End ChiayiParser.

(** The parser objects that the sync dispatches on. *)
Inductive Parser :=
| Taipei
| Chiayi (isCounty : bool)
| Changhua.

Definition parserKeep (p : Parser) : Row -> bool :=
  match p with
  | Taipei => TaipeiParser.keep
  | Chiayi _ => ChiayiParser.keep
  | Changhua => ChanghuaParser.keep
  end.

Definition parserRecord (parseFloat : string -> number) (p : Parser)
  : nat -> Row -> RawLandData.t :=
  match p with
  | Taipei => TaipeiParser.toRecord parseFloat
  | Chiayi isCounty => ChiayiParser.toRecord parseFloat isCounty
  | Changhua => ChanghuaParser.toRecord parseFloat
  end.

Definition parseRows (parseFloat : string -> number) (p : Parser)
  : list Row -> list RawLandData.t :=
  match p with
  | Taipei => TaipeiParser.parseRows parseFloat
  | Chiayi isCounty => ChiayiParser.parseRows parseFloat isCounty
  | Changhua => ChanghuaParser.parseRows parseFloat
  end.

(** [parser.parse (csvData)]. *)
Definition parse (papaParse : string -> list Row) (parseFloat : string -> number)
  (p : Parser) (csvData : string) : list RawLandData.t :=
  parseRows parseFloat p (papaParse csvData).

(** ** normalizer.ts *)

Record Coord := { lat : Q; lng : Q }.

(** [sourceCity] and [coordinates] are declared [string] and
    [{lat, lng} | null]; both are read out of lookup tables, so either may
    in fact hold an inherited member. *)
Module NormalizedLand.
Record t := mk {
  sourceCity : value string;
  district : string;
  section : option string;
  landNumber : string;
  ownerName : option string;
  areaM2 : option number;
  areaPing : option number;
  status : string;
  coordinates : option (value Coord);
  rawData : option Row;
  sourceUrl : option string
}.
End NormalizedLand.

Definition CITY_NAME_MAP : gmap string string :=
  list_to_map
    [ ("台北市", "台北市");
      ("臺北市", "台北市");
      ("Taipei", "台北市");
      ("新北市", "新北市");
      ("NewTaipei", "新北市");
      ("嘉義市", "嘉義市");
      ("嘉義縣", "嘉義縣");
      ("彰化縣", "彰化縣") ].

Definition coord (la lo : Q) : Coord := {| lat := la; lng := lo |}.

Definition DISTRICT_COORDS : gmap string Coord :=
  list_to_map
    [ ("中正區", coord (250324 # 10000) (1215198 # 10000));
      ("大同區", coord (250656 # 10000) (1215130 # 10000));
      ("中山區", coord (250648 # 10000) (1215332 # 10000));
      ("松山區", coord (250607 # 10000) (1215579 # 10000));
      ("大安區", coord (250268 # 10000) (1215435 # 10000));
      ("萬華區", coord (250319 # 10000) (1214970 # 10000));
      ("信義區", coord (250306 # 10000) (1215675 # 10000));
      ("士林區", coord (250929 # 10000) (1215198 # 10000));
      ("北投區", coord (251320 # 10000) (1215010 # 10000));
      ("內湖區", coord (250697 # 10000) (1215883 # 10000));
      ("南港區", coord (250547 # 10000) (1216069 # 10000));
      ("文山區", coord (249984 # 10000) (1215706 # 10000));
      ("東區", coord (234870 # 10000) (1204580 # 10000));
      ("西區", coord (234750 # 10000) (1204310 # 10000));
      ("彰化市", coord (240815 # 10000) (1205382 # 10000));
      ("員林市", coord (239588 # 10000) (1205742 # 10000));
      ("鹿港鎮", coord (240568 # 10000) (1204356 # 10000)) ].

Definition cityCenters : gmap string Coord :=
  list_to_map
    [ ("台北市", coord (250330 # 10000) (1215654 # 10000));
      ("嘉義市", coord (234801 # 10000) (1204491 # 10000));
      ("嘉義縣", coord (234518 # 10000) (1202555 # 10000));
      ("彰化縣", coord (240518 # 10000) (1205161 # 10000)) ].

(** The alternatives of [/^(台北市|臺北市|新北市|嘉義市|嘉義縣|彰化縣)/],
    in the order the pattern tries them. *)
Definition cityPrefixes : list string :=
  [ "台北市"; "臺北市"; "新北市"; "嘉義市"; "嘉義縣"; "彰化縣" ].

(** [district.replace (/^(...)/, '')]. *)
Definition removeCityPrefix (district : string) : string :=
  match firstStrip cityPrefixes district with
  | Some rest => rest
  | None => district
  end.

(** [cityCenters[city]]: a city that is an inherited member is turned into
    a key by printing it, which gives the text of a function (or
    ["[object Object]"]); no table has such a key and nothing inherited is
    named so. *)
Definition cityCenter (city : value string) : option (value Coord) :=
  match city with
  | Plain c => get cityCenters c
  | Inherited _ => None
  end.

(** Every value a table can hold is truthy (an object, or a function), so
    [if (DISTRICT_COORDS[district])] asks whether the read found anything. *)
Definition getCoordinatesForDistrict (city : value string) (district : string)
  : option (value Coord) :=
  match get DISTRICT_COORDS district with
  | Some c => Some c
  | None =>
      let cleanDistrict := removeCityPrefix district in
      match get DISTRICT_COORDS cleanDistrict with
      | Some c => Some c
      | None => cityCenter city
      end
  end.

(** [CITY_NAME_MAP[sourceCity] || sourceCity] *)
Definition normalizeCity (sourceCity : string) : value string :=
  match get CITY_NAME_MAP sourceCity with
  | Some (Plain c) => if String.eqb c "" then Plain sourceCity else Plain c
  | Some (Inherited member) => Inherited member
  | None => Plain sourceCity
  end.

Definition normalizeRecord (sourceUrl : option string) (data : RawLandData.t)
  : NormalizedLand.t :=
  let normalizedCity := normalizeCity (RawLandData.sourceCity data) in
  let coords := getCoordinatesForDistrict normalizedCity (RawLandData.district data) in
  {| NormalizedLand.sourceCity := normalizedCity;
     NormalizedLand.district := RawLandData.district data;
     NormalizedLand.section := orNullS (RawLandData.section data);
     NormalizedLand.landNumber := RawLandData.landNumber data;
     NormalizedLand.ownerName := orNullS (RawLandData.ownerName data);
     NormalizedLand.areaM2 := orNullN (RawLandData.areaM2 data);
     NormalizedLand.areaPing :=
       if truthyN (RawLandData.areaPing data) then RawLandData.areaPing data
       else
         match RawLandData.areaM2 data with
         | Some a =>
             if truthyN (Some a) then Some (numToFixed2 (divBy a (literal PING)))
             else None
         | None => None
         end;
     NormalizedLand.status := orDefault (RawLandData.status data) "列管中";
     NormalizedLand.coordinates := coords;
     NormalizedLand.rawData := RawLandData.rawData data;
     NormalizedLand.sourceUrl := orNullS sourceUrl |}.

Definition normalizeData (rawData : list RawLandData.t) (sourceUrl : option string)
  : list NormalizedLand.t :=
  map (normalizeRecord sourceUrl) rawData.

(** ** The world outside the pipeline

    What the pipeline calls and does not define: the JavaScript built-ins
    and the PapaParse library, the two upstream portals, the environment of
    the server and the behaviour of the store at each batch upsert. *)

(** What [await fetch (url)] followed by reading the body can do: throw,
    answer with a status that is not ok, or deliver a body. *)
Inductive Response (Body : Type) :=
| Threw (error : string)
| NotOk (status : nat)
| Ok (body : Body).
Arguments Threw {Body} error.
Arguments NotOk {Body} status.
Arguments Ok {Body} body.

(** An entry of [meta.resources]. *)
Record Resource := {
  format : option string;
  resourceFormat : option string;
  resourceDownloadUrl : option string
}.

Record World := {
  (** [parseFloat] *)
  parseFloat : string -> number;
  (** [Papa.parse(text, {header: true, skipEmptyLines})].data *)
  papaParse : bool -> string -> list Row;
  (** [Papa.unparse] *)
  papaUnparse : list Row -> string;
  (** data.taipei: the page [json.result?.results || []] at a dataset and offset *)
  taipeiPage : string -> Z -> Response (list Row);
  (** data.gov.tw: [meta.resources] of a dataset *)
  dataGovMeta : string -> Response (option (list Resource));
  (** data.gov.tw: the text behind a download URL *)
  dataGovCsv : string -> Response string;
  (** whether the Supabase server configuration is present in the
      environment: [None] when [GET] asks, [Some city] when the sync of
      that city asks *)
  serverConfigured : option string -> bool;
  (** whether the upsert of the batch of a city starting at index [i]
      comes back with an error *)
  upsertError : string -> nat -> bool;
  (** [crypto.randomUUID()] in the n-th round of the loop over cities *)
  randomUUID : nat -> string;
  (** [new Date().toISOString()], by round and by call in the round *)
  toISOString : nat -> nat -> string
}.

(** ** fetcher.ts *)

Record FetchResult := {
  success : bool;
  data : option string;
  error : option string;
  recordCount : option nat
}.

Definition failure (msg : string) : FetchResult :=
  {| success := false; data := None; error := Some msg; recordCount := None |}.

Module DataFetcher.

Definition toLowerChar (c : ascii) : ascii :=
  let n := nat_of_ascii c in
  if (65 <=? n)%nat && (n <=? 90)%nat then ascii_of_nat (n + 32) else c.

Fixpoint toLowerCase (s : string) : string :=
  match s with
  | EmptyString => EmptyString
  | String c rest => String (toLowerChar c) (toLowerCase rest)
  end.

(** [x?.toLowerCase() === 'csv'] *)
Definition isCsv (x : option string) : bool :=
  match x with
  | Some s => String.eqb (toLowerCase s) "csv"
  | None => false
  end.

Definition fetchFromDataGov (w : World) (datasetId : string) : FetchResult :=
  match dataGovMeta w datasetId with
  | Threw e => failure e
  | NotOk status => failure ("Failed to fetch metadata: " +:+ pretty status)
  | Ok resources =>
      let csvResource :=
        match resources with
        | Some rs => List.find (fun r => isCsv (format r) || isCsv (resourceFormat r)) rs
        | None => None
        end in
      match csvResource with
      | None => failure "No CSV resource found in dataset"
      | Some r =>
          if truthyS (resourceDownloadUrl r) then
            match dataGovCsv w (default "" (resourceDownloadUrl r)) with
            | Threw e => failure e
            | NotOk status => failure ("Failed to fetch CSV: " +:+ pretty status)
            | Ok csvData =>
                {| success := true;
                   data := Some csvData;
                   error := None;
                   recordCount := Some (length (papaParse w false csvData)) |}
            end
          else failure "No CSV resource found in dataset"
      end
  end.

Definition limit : Z := 1000.
Definition safetyLimit : Z := 100000.

(** How the [while (true)] loop of [fetchFromTaipei] is left. *)
Inductive LoopExit :=
| Break (allRecords : list Row)
| Return (result : FetchResult)
| Raise (error : string).

(** The pagination loop.  [requests] collects the offsets asked for, in
    order.  One unit of fuel pays for one turn of the loop. *)
Fixpoint paginate (w : World) (datasetId : string) (fuel : nat)
  (offset : Z) (allRecords : list Row) (requests : list Z)
  : option (list Z * LoopExit) :=
  match fuel with
  | O => None
  | S fuel' =>
      let requests' := requests ++ [offset] in
      match taipeiPage w datasetId offset with
      | Threw e => Some (requests', Raise e)
      | NotOk status =>
          Some (requests', Return (failure ("Failed to fetch: " +:+ pretty status)))
      | Ok records =>
          if (length records =? 0)%nat then Some (requests', Break allRecords)
          else
            let allRecords' := allRecords ++ records in
            let offset' := (offset + limit)%Z in
            if (Z.of_nat (length allRecords') >? safetyLimit)%Z
            then Some (requests', Break allRecords')
            else paginate w datasetId fuel' offset' allRecords' requests'
      end
  end.

(** What follows the loop, and the [catch] around the whole body. *)
Definition finish (w : World) (exit : LoopExit) : FetchResult :=
  match exit with
  | Raise e => failure e
  | Return result => result
  | Break allRecords =>
      if (length allRecords =? 0)%nat then failure "No records found"
      else
        {| success := true;
           data := Some (papaUnparse w allRecords);
           error := None;
           recordCount := Some (length allRecords) |}
  end.

(** Turns of the loop that always suffice (see [paginate_terminates]). *)
Definition enoughFuel : nat := Z.to_nat (safetyLimit + 1).

Definition fetchFromTaipeiWith (w : World) (fuel : nat) (datasetId : string)
  : option (list Z * FetchResult) :=
  match paginate w datasetId fuel 0 [] [] with
  | Some (requests, exit) => Some (requests, finish w exit)
  | None => None
  end.

Definition fetchFromTaipei (w : World) (datasetId : string) : FetchResult :=
  match fetchFromTaipeiWith w enoughFuel datasetId with
  | Some (_, result) => result
  | None => failure "out of fuel"
  end.

End DataFetcher.

(** ** The store

    The three tables the sync writes.  [unclaimed_lands] carries the
    constraint [UNIQUE (source_city, district, land_number)] of the schema,
    so it is a finite map over that triple.  A row is kept as the sync
    hands it to the client. *)

Record DbRecord := {
  source_city : value string;
  db_district : string;
  db_section : option string;
  land_number : string;
  owner_name : option string;
  area_m2 : option number;
  area_ping : option number;
  db_status : string;
  db_coordinates : option (value Coord);
  raw_data : option Row;
  source_url : option string
}.

#[global] Instance value_eq_dec {A} `{EqDecision A} : EqDecision (value A).
Proof. solve_decision. Defined.

#[global] Instance value_countable {A} `{Countable A} : Countable (value A).
Proof.
  refine (inj_countable'
    (fun v => match v with Plain a => inl a | Inherited member => inr member end)
    (fun s => match s with inl a => Plain a | inr member => Inherited member end) _).
  by intros [].
Defined.

Abbreviation LandKey := (value string * string * string)%type.

Definition conflictKey (r : DbRecord) : LandKey :=
  (source_city r, db_district r, land_number r).

Record SyncLog := {
  log_source_city : string;
  log_status : string;
  completed_at : option string;
  records_added : nat;
  error_message : option string
}.

Record DataSource := {
  last_synced_at : option string;
  record_count : nat
}.

Record Db := {
  unclaimed_lands : gmap LandKey DbRecord;
  sync_logs : gmap string SyncLog;
  data_sources : gmap string DataSource;
  (** every batch handed to [upsert], in order, with whether it was written *)
  upsert_calls : list (list DbRecord * bool)
}.

(** [upsert (dbRecords, {onConflict: 'source_city,district,land_number'})]
    when the store accepts the batch: a row whose key is new is inserted, a
    row whose key is there replaces the stored one. *)
Definition upsertRows (dbRecords : list DbRecord) (lands : gmap LandKey DbRecord)
  : gmap LandKey DbRecord :=
  foldl (fun m r => <[conflictKey r := r]> m) lands dbRecords.

(** [from('sync_logs').insert (...)]: the id is the primary key. *)
Definition insertLog (id city : string) (db : Db) : Db :=
  match sync_logs db !! id with
  | Some _ => db
  | None =>
      {| unclaimed_lands := unclaimed_lands db;
         sync_logs :=
           <[id := {| log_source_city := city; log_status := "running";
                      completed_at := None; records_added := 0;
                      error_message := None |}]> (sync_logs db);
         data_sources := data_sources db;
         upsert_calls := upsert_calls db |}
  end.

(** [from('sync_logs').update (...).eq ('id', id)] *)
Definition updateLog (id : string) (f : SyncLog -> SyncLog) (db : Db) : Db :=
  {| unclaimed_lands := unclaimed_lands db;
     sync_logs := alter f id (sync_logs db);
     data_sources := data_sources db;
     upsert_calls := upsert_calls db |}.

(** [from('data_sources').update (...).eq ('city', city)] *)
Definition updateSource (city : string) (f : DataSource -> DataSource) (db : Db) : Db :=
  {| unclaimed_lands := unclaimed_lands db;
     sync_logs := sync_logs db;
     data_sources := alter f city (data_sources db);
     upsert_calls := upsert_calls db |}.

(** ** api/cron/sync/route.ts *)

Module SyncResult.
Record t := mk {
  city : string;
  success : bool;
  recordCount : nat;
  error : option string
}.
End SyncResult.

(** What [await syncCityData (city)] does: return a result or throw. *)
Inductive Outcome :=
| Returned (result : SyncResult.t)
| Thrown (message : string).

Inductive Fetch :=
| FromTaipei (datasetId : string)
| FromDataGov (datasetId : string).

(** The [switch (city)] of [syncCityData]. *)
Definition dispatch (city : string) : option (Fetch * Parser) :=
  if String.eqb city "台北市" then Some (FromTaipei "134972", Taipei)
  else if String.eqb city "嘉義市" then Some (FromDataGov "52344", Chiayi false)
  else if String.eqb city "嘉義縣" then Some (FromDataGov "133739", Chiayi false)
  else if String.eqb city "彰化縣" then Some (FromDataGov "28529", Changhua)
  else None.

Definition runFetch (w : World) (f : Fetch) : FetchResult :=
  match f with
  | FromTaipei datasetId => DataFetcher.fetchFromTaipei w datasetId
  | FromDataGov datasetId => DataFetcher.fetchFromDataGov w datasetId
  end.

(** [batch.map ((land) => ({source_city: land.sourceCity, ...}))] *)
Definition toDbRecord (land : NormalizedLand.t) : DbRecord :=
  {| source_city := NormalizedLand.sourceCity land;
     db_district := NormalizedLand.district land;
     db_section := NormalizedLand.section land;
     land_number := NormalizedLand.landNumber land;
     owner_name := NormalizedLand.ownerName land;
     area_m2 := NormalizedLand.areaM2 land;
     area_ping := NormalizedLand.areaPing land;
     db_status := NormalizedLand.status land;
     db_coordinates := NormalizedLand.coordinates land;
     raw_data := NormalizedLand.rawData land;
     source_url := NormalizedLand.sourceUrl land |}.

Definition batchSize : nat := 100.

(** [array.slice (i, j)] for [0 <= i <= j]. *)
Definition slice {A} (i j : nat) (l : list A) : list A :=
  take (j - i) (drop i l).

(** The state of the batch loop: the table, the calls made, the count. *)
Record BatchState := {
  lands : gmap LandKey DbRecord;
  calls : list (list DbRecord * bool);
  totalRecords : nat
}.

(** One turn of [for (let i = 0; i < normalizedData.length; i += batchSize)]:
    on an error the batch is logged and skipped, else [data.length] rows
    came back and are counted. *)
Definition upsertBatch (w : World) (city : string)
  (normalizedData : list NormalizedLand.t) (i : nat) (st : BatchState) : BatchState :=
  let batch := slice i (i + batchSize) normalizedData in
  let dbRecords := map toDbRecord batch in
  if upsertError w city i then
    {| lands := lands st;
       calls := calls st ++ [(dbRecords, false)];
       totalRecords := totalRecords st |}
  else
    {| lands := upsertRows dbRecords (lands st);
       calls := calls st ++ [(dbRecords, true)];
       totalRecords := totalRecords st + length dbRecords |}.

Fixpoint upsertLoop (w : World) (city : string)
  (normalizedData : list NormalizedLand.t) (fuel : nat) (i : nat) (st : BatchState)
  : option BatchState :=
  match fuel with
  | O => None
  | S fuel' =>
      if (i <? length normalizedData)%nat then
        upsertLoop w city normalizedData fuel' (i + batchSize)
          (upsertBatch w city normalizedData i st)
      else Some st
  end.

Definition serverConfigMissing : string :=
  "Supabase server configuration is missing. Please set NEXT_PUBLIC_SUPABASE_URL and SUPABASE_SERVICE_ROLE_KEY environment variables.".

(** The first half of [syncCityData]: either the result it returns early
    (unknown city, failed fetch) or the records it goes on to upsert. *)
Definition cityRecords (w : World) (city : string)
  : SyncResult.t + list NormalizedLand.t :=
  match dispatch city with
  | None =>
      inl {| SyncResult.city := city; SyncResult.success := false;
             SyncResult.recordCount := 0;
             SyncResult.error := Some ("Unknown city: " +:+ city) |}
  | Some (fetcher, parser) =>
      let fetchResult := runFetch w fetcher in
      if negb (success fetchResult) || negb (truthyS (data fetchResult)) then
        inl {| SyncResult.city := city; SyncResult.success := false;
               SyncResult.recordCount := 0;
               SyncResult.error :=
                 Some (orDefault (error fetchResult) "Failed to fetch data") |}
      else
        let rawData :=
          parse (papaParse w true) (parseFloat w) parser (default "" (data fetchResult)) in
        inr (normalizeData rawData (Some city))
  end.

Definition syncCityDataWith (w : World) (fuel : nat) (city : string) (db : Db)
  : option (Db * Outcome) :=
  match cityRecords w city with
  | inl result => Some (db, Returned result)
  | inr normalizedData =>
      if serverConfigured w (Some city) then
        match
          upsertLoop w city normalizedData fuel 0
            {| lands := unclaimed_lands db; calls := upsert_calls db;
               totalRecords := 0 |}
        with
        | Some st =>
            Some
              ({| unclaimed_lands := lands st;
                  sync_logs := sync_logs db;
                  data_sources := data_sources db;
                  upsert_calls := calls st |},
               Returned
                 {| SyncResult.city := city; SyncResult.success := true;
                    SyncResult.recordCount := totalRecords st;
                    SyncResult.error := None |})
        | None => None
        end
      else Some (db, Thrown serverConfigMissing)
  end.

(** [syncCityData]: a batch loop over [n] records takes at most [n] turns
    and one more test. *)
Definition syncCityData (w : World) (city : string) (db : Db) : Db * Outcome :=
  let fuel :=
    match cityRecords w city with
    | inr normalizedData => S (length normalizedData)
    | inl _ => 0
    end in
  match syncCityDataWith w fuel city db with
  | Some r => r
  | None => (db, Thrown "out of fuel")
  end.

(** One round of [for (const city of cities)], the [round]-th. *)
Definition syncRound (w : World) (round : nat) (city : string)
  (acc : Db * list SyncResult.t) : Db * list SyncResult.t :=
  let '(db, results) := acc in
  let logId := randomUUID w round in
  let db1 := insertLog logId city db in
  match syncCityData w city db1 with
  | (db2, Returned result) =>
      let db3 :=
        updateLog logId
          (fun l =>
             {| log_source_city := log_source_city l;
                log_status :=
                  if SyncResult.success result then "completed" else "failed";
                completed_at := Some (toISOString w round 0);
                records_added := SyncResult.recordCount result;
                error_message := orNullS (SyncResult.error result) |}) db2 in
      let db4 :=
        if SyncResult.success result then
          updateSource city
            (fun _ =>
               {| last_synced_at := Some (toISOString w round 1);
                  record_count := SyncResult.recordCount result |}) db3
        else db3 in
      (db4, results ++ [result])
  | (db2, Thrown errorMessage) =>
      let db3 :=
        updateLog logId
          (fun l =>
             {| log_source_city := log_source_city l;
                log_status := "failed";
                completed_at := Some (toISOString w round 0);
                records_added := records_added l;
                error_message := Some errorMessage |}) db2 in
      (db3,
       results ++
         [ {| SyncResult.city := city; SyncResult.success := false;
              SyncResult.recordCount := 0;
              SyncResult.error := Some errorMessage |} ])
  end.

Fixpoint syncCities (w : World) (round : nat) (cities : list string)
  (acc : Db * list SyncResult.t) : Db * list SyncResult.t :=
  match cities with
  | [] => acc
  | city :: rest => syncCities w (S round) rest (syncRound w round city acc)
  end.

(** The request as [GET] looks at it. *)
Record Request := {
  authorization : option string;
  CRON_SECRET : option string;
  NODE_ENV : option string
}.

Inductive Body :=
| ErrorBody (error : string) (details : option string)
| SyncBody (success : bool) (syncedAt : string) (results : list SyncResult.t).

Record HttpResponse := { status : nat; body : Body }.

Definition CITIES : list string := [ "台北市"; "嘉義市"; "嘉義縣"; "彰化縣" ].

(** What [GET] does once the request has passed the checks and the client
    is there, for any list of cities. *)
Definition syncAll (w : World) (cities : list string) (db : Db) : Db * HttpResponse :=
  let '(db', results) := syncCities w 0 cities (db, []) in
  let allSuccess := forallb SyncResult.success results in
  (db',
   {| status := 200;
      body := SyncBody allSuccess (toISOString w (length cities) 0) results |}).

Definition GET (w : World) (request : Request) (db : Db) : Db * HttpResponse :=
  let refused :=
    if truthyS (CRON_SECRET request) then
      match authorization request with
      | Some h =>
          if String.eqb h ("Bearer " +:+ default "" (CRON_SECRET request)) then None
          else Some {| status := 401; body := ErrorBody "Unauthorized" None |}
      | None => Some {| status := 401; body := ErrorBody "Unauthorized" None |}
      end
    else if decide (NODE_ENV request = Some "production") then
      Some {| status := 500;
              body := ErrorBody "Server misconfiguration: CRON_SECRET not set" None |}
    else None in
  match refused with
  | Some response => (db, response)
  | None =>
      if serverConfigured w None then syncAll w CITIES db
      else
        (db,
         {| status := 500;
            body := ErrorBody "Sync failed" (Some ("Error: " +:+ serverConfigMissing)) |})
  end.

(** ** Vocabulary of the statements *)

(** The row has a land number ([地號]). *)
Definition hasLandNumber (row : Row) : bool := truthyS (row !! "地號").

(** The row has an owner name, under the column names the parser reads. *)
Definition hasOwnerName (p : Parser) (row : Row) : bool :=
  match p with
  | Chiayi _ => truthyS (row !! "被繼承人") || truthyS (row !! "姓名")
  | _ => truthyS (row !! "被繼承人姓名")
  end.

(** The row gets a placeholder: it has no land number and, for the Chiayi
    parser, no sub-section ([小段]) to stand in for it. *)
Definition getsPlaceholder (p : Parser) (row : Row) : bool :=
  negb (hasLandNumber row) &&
  match p with
  | Chiayi _ => negb (truthyS (row !! "小段"))
  | _ => true
  end.

Definition placeholder (index : nat) : string := "unknown-" +:+ ofIndex index.

(** The offsets of the first [n] pages. *)
Definition pageOffsets (n : nat) : list Z :=
  map (fun k => (Z.of_nat k * DataFetcher.limit)%Z) (seq 0 n).

(** The records held when the pagination loop is left. *)
Definition accumulated (exit : DataFetcher.LoopExit) : list Row :=
  match exit with
  | DataFetcher.Break allRecords => allRecords
  | _ => []
  end.

Definition emptyDb : Db :=
  {| unclaimed_lands := ∅; sync_logs := ∅; data_sources := ∅; upsert_calls := [] |}.

(** The entry [GET] pushes on [results] for an outcome of [syncCityData]. *)
Definition resultOf (city : string) (o : Outcome) : SyncResult.t :=
  match o with
  | Returned result => result
  | Thrown errorMessage =>
      {| SyncResult.city := city; SyncResult.success := false;
         SyncResult.recordCount := 0; SyncResult.error := Some errorMessage |}
  end.

(** What the sync of one city reports when it runs on its own. *)
Definition cityResult (w : World) (city : string) : SyncResult.t :=
  resultOf city (syncCityData w city emptyDb).2.

(** The rows of the batches that were written. *)
Definition rowsWritten (new : list (list DbRecord * bool)) : nat :=
  sum_list (map (fun c : list DbRecord * bool => if c.2 then length c.1 else 0%nat) new).

(** The table after a sequence of upsert calls. *)
Definition applyCalls (new : list (list DbRecord * bool))
  (table : gmap LandKey DbRecord) : gmap LandKey DbRecord :=
  foldl (fun m (c : list DbRecord * bool) => if c.2 then upsertRows c.1 m else m)
    table new.

(** ** Sample inputs *)

Definition noFloat (s : string) : number := NaN.

Definition sampleFloat (s : string) : number :=
  if String.eqb s "150.5" then Finite (1505 # 10)
  else if String.eqb s "0" then Finite 0
  else NaN.

Definition owner (name : string) : Row := {[ "被繼承人姓名" := name ]}.

(** Two Chiayi rows with an owner and the same sub-section, no land number. *)
Definition chiayiTwins : list Row :=
  [ {[ "姓名" := "甲"; "小段" := "一小段" ]};
    {[ "姓名" := "乙"; "小段" := "一小段" ]} ].

(** A row with a land number only, and an empty footer row. *)
Definition landOnly : Row := {[ "地號" := "123-4" ]}.
Definition footer : Row := ∅.

(** The row of the end-to-end scenario. *)
Definition wangRow : Row :=
  {[ "被繼承人姓名" := "王O"; "地號" := "123-4"; "面積" := "150.5" ]}.

Definition zeroAreaRow : Row := {[ "地號" := "77"; "面積" := "0" ]}.

Definition zeroArea (ping : option number) : RawLandData.t :=
  {| RawLandData.sourceCity := "台北市";
     RawLandData.district := "大安區";
     RawLandData.section := None;
     RawLandData.landNumber := "123-4";
     RawLandData.ownerName := None;
     RawLandData.areaM2 := Some (Finite 0);
     RawLandData.areaPing := ping;
     RawLandData.status := None;
     RawLandData.rawData := None |}.

(** A world in which every portal is empty and the store accepts all. *)
Definition quietWorld : World :=
  {| parseFloat := sampleFloat;
     papaParse := fun _ _ => [];
     papaUnparse := fun _ => "csv";
     taipeiPage := fun _ _ => Ok [];
     dataGovMeta := fun _ => Ok None;
     dataGovCsv := fun _ => NotOk 404;
     serverConfigured := fun _ => true;
     upsertError := fun _ _ => false;
     randomUUID := fun n => "log-" +:+ pretty n;
     toISOString := fun _ _ => "2026-01-01T03:00:00.000Z" |}.

Definition withTaipei (page : Z -> Response (list Row)) (w : World) : World :=
  {| parseFloat := parseFloat w;
     papaParse := papaParse w;
     papaUnparse := papaUnparse w;
     taipeiPage := fun _ => page;
     dataGovMeta := dataGovMeta w;
     dataGovCsv := dataGovCsv w;
     serverConfigured := serverConfigured w;
     upsertError := upsertError w;
     randomUUID := randomUUID w;
     toISOString := toISOString w |}.

(** An upstream that answers every offset with a full page of 1000 rows. *)
Definition fullPagesWorld : World :=
  withTaipei (fun _ => Ok (replicate 1000 (∅ : Row))) quietWorld.

(** An upstream with two pages, of two rows and of one row. *)
Definition twoPages : list (list Row) := [ [owner "甲"; owner "乙"]; [owner "丙"] ].

Definition twoPagesWorld : World :=
  withTaipei
    (fun offset =>
       if (offset =? 0)%Z then Ok [owner "甲"; owner "乙"]
       else if (offset =? 1000)%Z then Ok [owner "丙"]
       else Ok [])
    quietWorld.

(** data.gov.tw serves every dataset as one CSV resource whose text names
    the dataset; [Papa.parse] reads [rows] out of the text of [dataset]. *)
Definition withDataGov (dataset : string) (rows : list Row) (w : World) : World :=
  {| parseFloat := parseFloat w;
     papaParse := fun skip csv => if String.eqb csv dataset then rows else papaParse w skip csv;
     papaUnparse := papaUnparse w;
     taipeiPage := taipeiPage w;
     dataGovMeta :=
       fun datasetId =>
         Ok (Some [ {| format := Some "CSV"; resourceFormat := None;
                       resourceDownloadUrl := Some datasetId |} ]);
     dataGovCsv := fun url => Ok url;
     serverConfigured := serverConfigured w;
     upsertError := upsertError w;
     randomUUID := randomUUID w;
     toISOString := toISOString w |}.

(** Three cities; the portal of the second one, Taipei, answers 503. *)
Definition threeCities : list string := [ "嘉義市"; "台北市"; "彰化縣" ].

Definition taipeiDownWorld : World :=
  withTaipei (fun _ => NotOk 503)
    (withDataGov "52344" [ {[ "姓名" := "甲"; "地號" := "1" ]}; {[ "姓名" := "乙"; "地號" := "2" ]} ]
       (withDataGov "28529" [ wangRow ] quietWorld)).

(** Changhua delivers 250 rows; the store refuses the second batch. *)
Definition manyRows : list Row :=
  map (fun i : nat => {[ "地號" := pretty i; "鄉鎮市區" := "鹿港鎮" ]}) (seq 0 250).

Definition flakyStoreWorld : World :=
  let w := withDataGov "28529" manyRows quietWorld in
  {| parseFloat := parseFloat w;
     papaParse := papaParse w;
     papaUnparse := papaUnparse w;
     taipeiPage := taipeiPage w;
     dataGovMeta := dataGovMeta w;
     dataGovCsv := dataGovCsv w;
     serverConfigured := serverConfigured w;
     upsertError := fun _ i => (i =? 100)%nat;
     randomUUID := randomUUID w;
     toISOString := toISOString w |}.

(** A raw record that carries an area in m² and no area in ping. *)
Definition bareArea (a : Q) : RawLandData.t :=
  {| RawLandData.sourceCity := "彰化縣";
     RawLandData.district := "彰化市";
     RawLandData.section := None;
     RawLandData.landNumber := "1";
     RawLandData.ownerName := None;
     RawLandData.areaM2 := Some (Finite a);
     RawLandData.areaPing := None;
     RawLandData.status := None;
     RawLandData.rawData := None |}.

(** ** Further vocabulary *)

(** [parser.cityName] *)
Definition parserCityName (p : Parser) : string :=
  match p with
  | Taipei => TaipeiParser.cityName
  | Chiayi isCounty => ChiayiParser.cityName isCounty
  | Changhua => ChanghuaParser.cityName
  end.

(** The cell a parser reads the district from, and the one it reads the
    status from. *)
Definition districtCell (p : Parser) (row : Row) : option string :=
  match p with
  | Taipei => row !! "土地區段"
  | Chiayi _ => orS (row !! "區域") (row !! "鄉鎮市區")
  | Changhua => row !! "鄉鎮市區"
  end.

Definition statusCell (p : Parser) (row : Row) : option string :=
  match p with
  | Chiayi _ => row !! "管理情形"
  | _ => row !! "列管情形"
  end.

(** The one-byte whitespace characters: tab, the line breaks, space. *)
Definition asciiSpace (c : ascii) : bool :=
  let n := nat_of_ascii c in
  ((9 <=? n)%nat && (n <=? 13)%nat) || (n =? 32)%nat.

Fixpoint chars (s : string) : list ascii :=
  match s with
  | EmptyString => []
  | String c rest => c :: chars rest
  end.

(** No whitespace character starts anywhere in the text. *)
Fixpoint spaceFree (s : string) : bool :=
  match s with
  | EmptyString => true
  | String _ rest =>
      match firstStrip AbstractParser.whitespace s with
      | Some _ => false
      | None => spaceFree rest
      end
  end.

(** A [FetchResult] is either a success with data and a record count and
    no error, or a failure with an error message and nothing else. *)
Definition wellFormed (r : FetchResult) : Prop :=
  if success r
  then is_Some (data r) /\ error r = None /\ is_Some (recordCount r)
  else data r = None /\ is_Some (error r) /\ recordCount r = None.

(** The resource [fetchFromDataGov] picks: the first one tagged CSV. *)
Definition csvResource (resources : option (list Resource)) : option Resource :=
  match resources with
  | Some rs =>
      List.find (fun r => DataFetcher.isCsv (format r) || DataFetcher.isCsv (resourceFormat r)) rs
  | None => None
  end.

(** Every row of the table is stored under its own conflict key. *)
Definition keyed (table : gmap LandKey DbRecord) : Prop :=
  forall k r, table !! k = Some r -> conflictKey r = k.

(** The conflict keys of the records a sync hands to the store. *)
Definition recordKeys (normalizedData : list NormalizedLand.t) : list LandKey :=
  map (fun land => conflictKey (toDbRecord land)) normalizedData.

(** The [source_city] the cron sync writes for a city: the parser of
    [嘉義縣] is created without the county flag. *)
Definition storedCity (city : string) : string :=
  if String.eqb city "嘉義縣" then "嘉義市" else city.


(** ** api/admin/sync/route.ts

    The manual trigger.  It runs the same pipeline as the cron route over
    the cities named in the request body.  Of the [sync_logs] columns it
    writes, [records_updated] (always written as 0) is not a column of the
    modelled table. *)

Module AdminSync.

Record SyncResult := {
  city : string;
  success : bool;
  recordsAdded : nat;
  recordsUpdated : nat;
  error : option string
}.

(** [process.env.ADMIN_API_KEY || 'dev-key-change-me'] *)
Definition ADMIN_API_KEY (env : option string) : string :=
  orDefault env "dev-key-change-me".

(** [s.replace (pattern, '')] for a text pattern: the first occurrence of
    the pattern is removed. *)
Fixpoint removeFirst (pattern s : string) : string :=
  match stripPrefix pattern s with
  | Some rest => rest
  | None =>
      match s with
      | EmptyString => EmptyString
      | String c rest => String c (removeFirst pattern rest)
      end
  end.

Record Request := {
  authorization : option string;
  (** the environment variable [ADMIN_API_KEY] *)
  adminKey : option string;
  (** [body.cities], [None] when the body has none *)
  cities : option (list string)
}.

(** [authHeader?.replace('Bearer ', '') !== ADMIN_API_KEY] is false *)
Definition authorized (request : Request) : bool :=
  match authorization request with
  | Some h => String.eqb (removeFirst "Bearer " h) (ADMIN_API_KEY (adminKey request))
  | None => false
  end.

(** [syncCity (supabase, city)] *)
Definition syncCity (w : World) (city : string) (db : Db) : Db * SyncResult :=
  match cityRecords w city with
  | inl result =>
      (db, {| city := city; success := false; recordsAdded := 0; recordsUpdated := 0;
              error := SyncResult.error result |})
  | inr normalizedData =>
      match
        upsertLoop w city normalizedData (S (length normalizedData)) 0
          {| lands := unclaimed_lands db; calls := upsert_calls db; totalRecords := 0 |}
      with
      | Some st =>
          ({| unclaimed_lands := lands st;
              sync_logs := sync_logs db;
              data_sources := data_sources db;
              upsert_calls := calls st |},
           {| city := city; success := true; recordsAdded := totalRecords st;
              recordsUpdated := 0; error := None |})
      | None =>
          (db, {| city := city; success := false; recordsAdded := 0;
                  recordsUpdated := 0; error := Some "out of fuel" |})
      end
  end.

(** One round of [for (const city of citiesToSync)]. *)
Definition syncRound (w : World) (round : nat) (city : string)
  (acc : Db * list SyncResult) : Db * list SyncResult :=
  let '(db, results) := acc in
  let logId := randomUUID w round in
  let db1 := insertLog logId city db in
  let '(db2, result) := syncCity w city db1 in
  let db3 :=
    updateLog logId
      (fun l =>
         {| log_source_city := log_source_city l;
            log_status := if success result then "completed" else "failed";
            completed_at := Some (toISOString w round 0);
            records_added := recordsAdded result;
            error_message := orNullS (error result) |}) db2 in
  let db4 :=
    if success result then
      updateSource city
        (fun _ =>
           {| last_synced_at := Some (toISOString w round 1);
              record_count := recordsAdded result + recordsUpdated result |}) db3
    else db3 in
  (db4, results ++ [result]).

Fixpoint syncCities (w : World) (round : nat) (toSync : list string)
  (acc : Db * list SyncResult) : Db * list SyncResult :=
  match toSync with
  | [] => acc
  | city :: rest => syncCities w (S round) rest (syncRound w round city acc)
  end.

Inductive Body :=
| ErrorBody (error : string)
| SummaryBody (success : bool) (message : string)
    (totalRecordsAdded totalRecordsUpdated : nat) (results : list SyncResult).

Record HttpResponse := { status : nat; body : Body }.

Definition POST (w : World) (request : Request) (db : Db) : Db * HttpResponse :=
  if authorized request then
    let citiesToSync :=
      match cities request with
      | Some cs => cs
      | None => [ "台北市"; "嘉義市"; "嘉義縣"; "彰化縣" ]
      end in
    if serverConfigured w None then
      let '(db', results) := syncCities w 0 citiesToSync (db, []) in
      let allSuccess := forallb success results in
      let totalAdded := foldl (fun sum r => sum + recordsAdded r)%nat 0%nat results in
      let totalUpdated := foldl (fun sum r => sum + recordsUpdated r)%nat 0%nat results in
      (db',
       {| status := 200;
          body :=
            SummaryBody allSuccess
              (if allSuccess then "Sync completed successfully"
               else "Sync completed with errors")
              totalAdded totalUpdated results |})
    else (db, {| status := 500; body := ErrorBody "Internal server error" |})
  else (db, {| status := 401; body := ErrorBody "Unauthorized" |}).

End AdminSync.


(** The cron result that corresponds to an admin result. *)
Definition asCronResult (r : AdminSync.SyncResult) : SyncResult.t :=
  {| SyncResult.city := AdminSync.city r;
     SyncResult.success := AdminSync.success r;
     SyncResult.recordCount := AdminSync.recordsAdded r;
     SyncResult.error := AdminSync.error r |}.

(** ** geocoder.ts *)

Module Geocoder.

Inductive Confidence := high | medium | low.

Record GeocodingResult := {
  lat : number;
  lng : number;
  displayName : string;
  confidence : Confidence
}.

(** An entry of the answer of Nominatim. *)
Record Hit := {
  hit_lat : string;
  hit_lon : string;
  display_name : string;
  importance : number
}.

(** [x > k] for a finite [k]. *)
Definition gt (x : number) (k : Q) : bool :=
  match x with
  | Finite q => negb (Qle_bool q k)
  | Infinity negative => negb negative
  | NaN => false
  end.

(** [city ? `${city}${address}` : address] *)
Definition fullAddress (address : string) (city : option string) : string :=
  match city with
  | Some c => if String.eqb c "" then address else c +:+ address
  | None => address
  end.

(** The text that is URL-encoded into the request. *)
Definition query (address : string) (city : option string) : string :=
  fullAddress address city +:+ ", Taiwan".

(** [geocodeAddress]; [nominatim] is what the request for a query text
    brings back. *)
Definition geocodeAddress (parseFloat : string -> number)
  (nominatim : string -> Response (list Hit))
  (address : string) (city : option string) : option GeocodingResult :=
  match nominatim (query address city) with
  | Ok (result :: _) =>
      Some {| lat := parseFloat (hit_lat result);
              lng := parseFloat (hit_lon result);
              displayName := display_name result;
              confidence :=
                if gt (importance result) (1 # 2) then high
                else if gt (importance result) (3 # 10) then medium
                else low |}
  | Ok [] => None
  | NotOk _ => None
  | Threw _ => None
  end.

Record Address := { address : string; city : option string }.

(** What [batchGeocode] does to the outside, in order. *)
Inductive Event :=
| Request (text : string)
| Progress (completed total : nat)
| Sleep (ms : nat).

Record BatchState := {
  results : gmap string (option GeocodingResult);
  trace : list Event
}.

(** The loop of [batchGeocode] from index [i] on; [nominatim i] answers the
    request of round [i]. *)
Fixpoint batchLoop (parseFloat : string -> number)
  (nominatim : nat -> string -> Response (list Hit)) (onProgress : bool)
  (total : nat) (rest : list Address) (i : nat) (st : BatchState) : BatchState :=
  match rest with
  | [] => st
  | a :: rest' =>
      let key := fullAddress (address a) (city a) in
      let result := geocodeAddress parseFloat (nominatim i) (address a) (city a) in
      let events :=
        [Request (query (address a) (city a))]
        ++ (if onProgress then [Progress (i + 1) total] else [])
        ++ (if (i <? total - 1)%nat then [Sleep 1000] else []) in
      batchLoop parseFloat nominatim onProgress total rest' (S i)
        {| results := <[key := result]> (results st);
           trace := trace st ++ events |}
  end.

Definition batchGeocode (parseFloat : string -> number)
  (nominatim : nat -> string -> Response (list Hit)) (onProgress : bool)
  (addresses : list Address) : BatchState :=
  batchLoop parseFloat nominatim onProgress (length addresses) addresses 0
    {| results := ∅; trace := [] |}.

End Geocoder.

(** ** Case conversion (camelCase and snake_case) *)

Module CaseConversion.

Definition isUpper (c : ascii) : bool :=
  let n := nat_of_ascii c in (65 <=? n)%nat && (n <=? 90)%nat.

Definition isLower (c : ascii) : bool :=
  let n := nat_of_ascii c in (97 <=? n)%nat && (n <=? 122)%nat.

Definition toLowerCase (c : ascii) : ascii :=
  if isUpper c then ascii_of_nat (nat_of_ascii c + 32) else c.

Definition toUpperCase (c : ascii) : ascii :=
  if isLower c then ascii_of_nat (nat_of_ascii c - 32) else c.

(** [str.replace(/[A-Z]/g, (letter) => `_${letter.toLowerCase()}`)] *)
Fixpoint camelToSnake (str : string) : string :=
  match str with
  | EmptyString => EmptyString
  | String c rest =>
      if isUpper c then String "_" (String (toLowerCase c) (camelToSnake rest))
      else String c (camelToSnake rest)
  end.

(** [str.replace(/_([a-z])/g, (_, letter) => letter.toUpperCase())] *)
Fixpoint snakeToCamel (str : string) : string :=
  match str with
  | EmptyString => EmptyString
  | String c rest =>
      match rest with
      | String d rest' =>
          if Ascii.eqb c "_" && isLower d
          then String (toUpperCase d) (snakeToCamel rest')
          else String c (snakeToCamel rest)
      | EmptyString => String c EmptyString
      end
  end.

End CaseConversion.

(** No underscore of the text is followed by a lower-case letter. *)
Fixpoint noSnakePair (s : string) : bool :=
  match s with
  | EmptyString => true
  | String c rest =>
      match rest with
      | String d _ => negb (Ascii.eqb c "_" && CaseConversion.isLower d) && noSnakePair rest
      | EmptyString => true
      end
  end.

(** The text has no upper-case letter. *)
Fixpoint noUpper (s : string) : bool :=
  match s with
  | EmptyString => true
  | String c rest => negb (CaseConversion.isUpper c) && noUpper rest
  end.

(** The requests of a batch with the waits between them. *)
Fixpoint requestsWithSleeps (texts : list string) : list Geocoder.Event :=
  match texts with
  | [] => []
  | [text] => [Geocoder.Request text]
  | text :: rest => Geocoder.Request text :: Geocoder.Sleep 1000 :: requestsWithSleeps rest
  end.

Definition isProgress (e : Geocoder.Event) : bool :=
  match e with Geocoder.Progress _ _ => true | _ => false end.

Definition addressKey (a : Geocoder.Address) : string :=
  Geocoder.fullAddress (Geocoder.address a) (Geocoder.city a).

Definition addressQuery (a : Geocoder.Address) : string :=
  Geocoder.query (Geocoder.address a) (Geocoder.city a).

(** The time a trace spends waiting, in milliseconds. *)
Definition sleepTotal (events : list Geocoder.Event) : nat :=
  sum_list (map (fun e => match e with Geocoder.Sleep ms => ms | _ => 0%nat end) events).

Definition geocodeOf (parseFloat : string -> number)
  (nominatim : nat -> string -> Response (list Geocoder.Hit)) (round : nat)
  (a : Geocoder.Address) : option Geocoder.GeocodingResult :=
  Geocoder.geocodeAddress parseFloat (nominatim round) (Geocoder.address a) (Geocoder.city a).

(** The index at which the batch of the record at index [j] starts. *)
Definition batchStart (j : nat) : nat := (batchSize * (j / batchSize))%nat.

(** The store accepted the batch in which the record at index [j] of the
    city's records travels. *)
Definition accepted (w : World) (city : string) (j : nat) : bool :=
  negb (upsertError w city (batchStart j)).

(** Of the records from index [i] on, those whose batch the store accepted,
    in order. *)
Definition writtenFrom (w : World) (city : string) (i : nat)
  (records : list NormalizedLand.t) : list NormalizedLand.t :=
  concat (imap (fun j land => if accepted w city (i + j) then [land] else []) records).

Definition writtenRecords (w : World) (city : string)
  (normalizedData : list NormalizedLand.t) : list NormalizedLand.t :=
  writtenFrom w city 0 normalizedData.

(** The last of the rows that carry the key. *)
Definition lastWrite (key : LandKey) (rows : list DbRecord) : option DbRecord :=
  last (List.filter (fun r => bool_decide (conflictKey r = key)) rows).

(** Changhua delivers the 250 rows and the store accepts every batch. *)
Definition manyRowsWorld : World := withDataGov "28529" manyRows quietWorld.

(** The records the sync of Changhua makes of them. *)
Definition manyRecords : list NormalizedLand.t :=
  normalizeData (parseRows sampleFloat Changhua manyRows) (Some "彰化縣").

(** ** binary64 of the kernel

    Rocq's primitive floats are IEEE 754 binary64, as JavaScript's numbers
    are; they serve to check [round64] and the operations built on it on
    sample values. *)

Definition ofFloat (x : PrimFloat.float) : number :=
  match FloatOps.Prim2SF x with
  | SpecFloat.S754_zero _ => Finite 0
  | SpecFloat.S754_infinity negative => Infinity negative
  | SpecFloat.S754_nan => NaN
  | SpecFloat.S754_finite negative m e =>
      Finite (Qred ((if negative then - inject_Z (Zpos m) else inject_Z (Zpos m))
                    * pow2 e))%Q
  end.

Definition sameNumber (a b : number) : bool :=
  match a, b with
  | Finite x, Finite y => Qeq_bool x y
  | NaN, NaN => true
  | Infinity s, Infinity t => Bool.eqb s t
  | _, _ => false
  end.

(** [x / y] in the kernel against [round64] of the exact quotient. *)
Definition divisionAgrees (x y : PrimFloat.float) : bool :=
  match ofFloat x, ofFloat y with
  | Finite p, Finite q => sameNumber (round64 (p / q)) (ofFloat (PrimFloat.div x y))
  | _, _ => false
  end.

(** A decimal literal in the kernel against [round64] of the decimal. *)
Definition literalAgrees (decimal : Q) (x : PrimFloat.float) : bool :=
  sameNumber (round64 decimal) (ofFloat x).

(** * Properties *)

(** ** JavaScript values *)

Lemma truthyS_orS a b : truthyS (orS a b) = truthyS a || truthyS b.
Proof. unfold orS. destruct (truthyS a) eqn:E; simpl; [exact E | reflexivity]. Qed.

Lemma orDefault_falsy a d : truthyS a = false -> orDefault a d = d.
Proof.
  destruct a as [s|]; simpl; [|reflexivity].
  destruct (String.eqb s ""); [reflexivity | discriminate].
Qed.

Lemma orDefault_truthy a d : truthyS a = true -> a = Some (orDefault a d).
Proof.
  destruct a as [s|]; simpl; [|discriminate].
  destruct (String.eqb s ""); [discriminate | reflexivity].
Qed.

Lemma truthyN_zero q : (q == 0)%Q -> truthyN (Some (Finite q)) = false.
Proof. intros H. simpl. apply Qeq_bool_iff in H. by rewrite H. Qed.

Lemma stripPrefix_Some p s rest : stripPrefix p s = Some rest -> s = p +:+ rest.
Proof.
  revert s. induction p as [|a p IH]; intros s; simpl.
  - by intros [= ->].
  - destruct s as [|b s]; [done|].
    destruct (Ascii.eqb a b) eqn:E; [|done].
    apply Ascii.eqb_eq in E as ->. intros H. by rewrite (IH _ H).
Qed.

Lemma firstStrip_Some ps s rest :
  firstStrip ps s = Some rest -> exists p, p ∈ ps /\ s = p +:+ rest.
Proof.
  induction ps as [|p ps IH]; simpl; [done|].
  destruct (stripPrefix p s) as [r|] eqn:E.
  - intros [= ->]. exists p. split; [left | by apply stripPrefix_Some].
  - intros H. destruct (IH H) as (q & ? & ?). exists q. split; [by right | done].
Qed.

(** ** Unit conversion *)

Section Rounding.
Local Open Scope Q_scope.

Lemma round_half_up_close (y : Q) :
  0 <= y -> Qabs (inject_Z (Qfloor (y * 100 + (1 # 2))) / 100 - y) <= 1 # 200.
Proof.
  intros Hy.
  pose proof (Qfloor_le (y * 100 + (1 # 2))) as Hlo.
  pose proof (Qlt_floor (y * 100 + (1 # 2))) as Hhi.
  rewrite inject_Z_plus in Hhi. change (inject_Z 1) with 1 in Hhi.
  set (n := inject_Z (Qfloor (y * 100 + (1 # 2)))) in *.
  apply Qabs_Qle_condition.
  unfold Qdiv. change (/ 100) with (1 # 100).
  split; lra.
Qed.

(** Rounding to two places moves a number by at most half a hundredth. *)
Lemma toFixed2_close (y : Q) : Qabs (toFixed2 y - y) <= 1 # 200.
Proof.
  unfold toFixed2.
  destruct (Qle_bool (inject_Z (10 ^ 21)) (Qabs y)).
  - apply Qabs_Qle_condition. split; lra.
  - destruct (Qle_bool 0 y) eqn:Hs.
    + apply Qle_bool_iff in Hs. rewrite (Qabs_pos y Hs).
      by apply round_half_up_close.
    + assert (Hneg : y < 0).
      { apply Qnot_le_lt. intros H. apply Qle_bool_iff in H. congruence. }
      rewrite (Qabs_neg y) by lra.
      pose proof (round_half_up_close (- y)) as H.
      assert (H0 : 0 <= - y) by lra. specialize (H H0).
      apply Qabs_Qle_condition in H. apply Qabs_Qle_condition.
      set (n := inject_Z (Qfloor (- y * 100 + (1 # 2)))) in *.
      unfold Qdiv in *. change (/ 100) with (1 # 100) in *.
      split; lra.
Qed.

(** *** binary64 rounding *)

Lemma pow2_pos e : 0 < pow2 e.
Proof. apply Qpower_0_lt. reflexivity. Qed.

Lemma pow2_add a b : pow2 (a + b) == pow2 a * pow2 b.
Proof. apply Qpower_plus. discriminate. Qed.

Lemma pow2_nonneg_Z e : (0 <= e)%Z -> pow2 e == inject_Z (2 ^ e).
Proof. intros H. unfold pow2. symmetry. apply (Zpower_Qpower 2 e H). Qed.

(** [floorLog2] does not overshoot. *)
Lemma floorLog2_le a : 0 < a -> pow2 (floorLog2 a) <= a.
Proof.
  intros Ha. unfold floorLog2.
  destruct (Qle_bool _ a) eqn:E; [by apply Qle_bool_iff|]. clear E.
  destruct a as [n d]. cbn [Qnum Qden].
  assert (Hn : (0 < n)%Z).
  { unfold Qlt in Ha. simpl in Ha. lia. }
  set (ln := Z.log2 n). set (ld := Z.log2 (Z.pos d)).
  assert (Hln : (2 ^ ln <= n)%Z) by (apply Z.log2_spec; lia).
  assert (Hld : (Z.pos d < 2 ^ (ld + 1))%Z).
  { replace (ld + 1)%Z with (Z.succ ld) by lia. apply Z.log2_spec. lia. }
  assert (H0ln : (0 <= ln)%Z) by apply Z.log2_nonneg.
  assert (H0ld : (0 <= ld)%Z) by apply Z.log2_nonneg.
  replace (ln - ld - 1)%Z with (ln + - (ld + 1))%Z by lia.
  rewrite pow2_add. unfold pow2 at 2. rewrite Qpower_opp. fold (pow2 (ld + 1)).
  rewrite !pow2_nonneg_Z by lia.
  assert (Hp : (0 < 2 ^ (ld + 1))%Z) by (apply Z.pow_pos_nonneg; lia).
  destruct (2 ^ (ld + 1))%Z as [|p|p] eqn:Ep; try lia.
  unfold Qle, Qmult, Qinv, inject_Z. cbn [Qnum Qden]. nia.
Qed.

Lemma roundNearestEven_close x : Qabs (inject_Z (roundNearestEven x) - x) <= 1 # 2.
Proof.
  unfold roundNearestEven.
  pose proof (Qfloor_le x) as Hlo. pose proof (Qlt_floor x) as Hhi.
  rewrite inject_Z_plus in Hhi. change (inject_Z 1) with 1 in Hhi.
  set (f := Qfloor x) in *.
  apply Qabs_Qle_condition.
  destruct (Qcompare_spec (x - inject_Z f) (1 # 2)) as [E|E|E].
  - destruct (Z.even f); rewrite ?inject_Z_plus; change (inject_Z 1) with 1;
      split; lra.
  - split; lra.
  - rewrite inject_Z_plus. change (inject_Z 1) with 1. split; lra.
Qed.

Lemma round64_no_overflow :
  pow2 1000 * (1 + pow2 (-53)) + pow2 (-1075) < pow2 1024.
Proof. vm_compute. reflexivity. Qed.

(** Rounding to binary64 moves a number of size at most [B] by at most
    [B * 2^-53], and by [2^-1075] more where it underflows. *)
Lemma round64_close q B :
  Qabs q <= B -> B <= pow2 1000 ->
  exists r, round64 q = Finite r /\
            Qabs (r - q) <= B * pow2 (-53) + pow2 (-1075).
Proof.
  intros HB Hmax.
  pose proof (pow2_pos (-53)) as Hu. pose proof (pow2_pos (-1075)) as Ht.
  pose proof (Qabs_nonneg q) as Hq0.
  unfold round64. destruct (Qeq_bool q 0) eqn:E0.
  - apply Qeq_bool_iff in E0. exists 0. split; [reflexivity|].
    assert (H : Qabs (0 - q) == 0) by (rewrite E0; reflexivity).
    rewrite H. nra.
  - apply Qeq_bool_neq in E0.
    assert (Ha : 0 < Qabs q).
    { destruct (Qlt_le_dec q 0) as [Hn|Hp].
      - rewrite Qabs_neg by lra. lra.
      - rewrite Qabs_pos by lra.
        destruct (Qle_lt_or_eq 0 q Hp) as [H|H]; [exact H|].
        exfalso. apply E0. symmetry. exact H. }
    set (a := Qabs q) in *.
    set (e := Z.max (floorLog2 a) (-1022)).
    set (quantum := pow2 (e - 52)).
    set (m := roundNearestEven (a / quantum)).
    set (R := Qred (inject_Z m * quantum)).
    assert (HR : R == inject_Z m * quantum) by apply Qred_correct.
    pose proof (pow2_pos (e - 52)) as Hquant. fold quantum in Hquant.
    pose proof (roundNearestEven_close (a / quantum)) as Hm. fold m in Hm.
    apply Qabs_Qle_condition in Hm.
    assert (Hy : a == (a / quantum) * quantum) by (field; lra).
    assert (Hhalf : quantum == 2 * pow2 (e - 53)).
    { unfold quantum. replace (e - 52)%Z with (1 + (e - 53))%Z by lia.
      rewrite pow2_add. reflexivity. }
    assert (Hstep : pow2 (e - 53) <= a * pow2 (-53) + pow2 (-1075)).
    { destruct (Z.max_spec (floorLog2 a) (-1022)) as [[_ He] | [_ He]];
        fold e in He; rewrite He.
      - change (-1022 - 53)%Z with (-1075)%Z. nra.
      - replace (floorLog2 a - 53)%Z with (floorLog2 a + -53)%Z by lia.
        rewrite pow2_add. pose proof (floorLog2_le a Ha). nra. }
    assert (Herr : - pow2 (e - 53) <= R - a <= pow2 (e - 53)).
    { rewrite HR. set (y := a / quantum) in *. set (h := pow2 (e - 53)) in *.
      split; nra. }
    assert (HaB : a * pow2 (-53) <= B * pow2 (-53)) by nra.
    assert (Hfin : Qle_bool (pow2 1024) R = false).
    { destruct (Qle_bool (pow2 1024) R) eqn:E; [|reflexivity].
      apply Qle_bool_iff in E. pose proof round64_no_overflow as Hno.
      set (T := pow2 1024) in *. set (M := pow2 1000) in *.
      set (u := pow2 (-53)) in *. set (t := pow2 (-1075)) in *.
      set (h := pow2 (e - 53)) in *. clearbody T M u t h. nra. }
    rewrite Hfin.
    set (u := pow2 (-53)) in *. set (t := pow2 (-1075)) in *.
    set (h := pow2 (e - 53)) in *.
    destruct (Qle_bool 0 q) eqn:Es.
    + apply Qle_bool_iff in Es. exists R. split; [reflexivity|].
      assert (Hqa : a == q) by (subst a; apply Qabs_pos; exact Es).
      apply Qabs_Qle_condition. clearbody u t h. split; lra.
    + exists (- R). split; [reflexivity|].
      assert (Hqa : a == - q).
      { subst a. apply Qabs_neg. destruct (Qlt_le_dec q 0) as [H|H]; [lra|].
        apply Qle_bool_iff in H. congruence. }
      apply Qabs_Qle_condition. clearbody u t h. split; lra.
Qed.

(** The literal [3.30579] denotes 1860994326520639 / 2^49. *)
Lemma literal_PING : literal PING == 1860994326520639 # 562949953421312.
Proof. vm_compute. reflexivity. Qed.

Lemma pow2_small :
  pow2 (-53) <= 1111 # 10000000000000000000 /\
  pow2 (-1075) <= 1 # 1000000000000000000000000000000.
Proof. split; vm_compute; discriminate. Qed.

Lemma pow2_1000_big : 10000000000000 <= pow2 1000.
Proof. vm_compute. discriminate. Qed.

(** Up to 10^12 m², [m2ToPing] gives a finite value within 0.00507 of the
    exact quotient: 0.005 from the two decimal places, the rest from the
    two binary64 roundings and from the literal. *)
Lemma m2ToPing_close (a : Q) :
  Qabs a <= 1000000000000 ->
  exists p, AbstractParser.m2ToPing (Finite a) = Finite p /\
            Qabs (p - a / PING) <= 507 # 100000.
Proof.
  intros Ha. unfold AbstractParser.m2ToPing, divBy.
  pose proof literal_PING as Hk. set (k := literal PING) in *.
  destruct pow2_small as [Hu Ht]. pose proof (pow2_pos (-53)) as Hu0.
  pose proof (pow2_pos (-1075)) as Ht0. pose proof pow2_1000_big as Hbig.
  apply Qabs_Qle_condition in Ha.
  assert (Hy : a == (a / k) * k) by (field; rewrite Hk; discriminate).
  assert (Hz : a == (a / PING) * PING) by (field; discriminate).
  set (y := a / k) in *. set (z := a / PING) in *.
  rewrite Hk in Hy. unfold PING in Hz.
  destruct (round64_close y 310000000000) as (d & Hd & Hdy).
  { apply Qabs_Qle_condition. split; lra. }
  { lra. }
  rewrite Hd. cbn [numToFixed2].
  apply Qabs_Qle_condition in Hdy.
  set (u := pow2 (-53)) in *. set (t := pow2 (-1075)) in *.
  destruct (Qle_bool (inject_Z (10 ^ 21)) (Qabs d)) eqn:Ebig.
  { exfalso. apply Qle_bool_iff in Ebig.
    change (inject_Z (10 ^ 21)) with 1000000000000000000000 in Ebig.
    revert Ebig. apply Qabs_case; intros; clearbody u t; lra. }
  pose proof (toFixed2_close d) as Hn. apply Qabs_Qle_condition in Hn.
  set (n := toFixed2 d) in *.
  destruct (round64_close n 310000000000) as (p & Hp & Hpn).
  { apply Qabs_Qle_condition. clearbody u t. split; lra. }
  { lra. }
  exists p. split; [exact Hp|].
  apply Qabs_Qle_condition in Hpn. apply Qabs_Qle_condition.
  fold u t in Hpn. clearbody u t. split; lra.
Qed.

(** C4, as amended.  For every finite area [a] in m² of size at most
    10^12, converting to ping with [m2ToPing] (binary64 division by
    3.30579, rounded to two places) and multiplying the result by 3.30579,
    exactly or in binary64, gives back [a] within 0.017: rounding to two
    places alone moves the result by up to 0.005 * 3.30579 = 0.01652895,
    which is more than 0.01. *)
Theorem m2ToPing_roundtrip_bound (a : Q) :
  Qabs a <= 1000000000000 ->
  exists p,
    AbstractParser.m2ToPing (Finite a) = Finite p /\
    Qabs (p * PING - a) <= 17 # 1000 /\
    exists back,
      round64 (p * literal PING) = Finite back /\
      Qabs (back - a) <= 17 # 1000.
Proof.
  intros Ha. destruct (m2ToPing_close a Ha) as (p & Hp & Hclose).
  exists p. split; [exact Hp|].
  assert (Hz : a == (a / PING) * PING) by (field; discriminate).
  set (z := a / PING) in *. apply Qabs_Qle_condition in Hclose.
  apply Qabs_Qle_condition in Ha.
  pose proof literal_PING as Hk.
  destruct pow2_small as [Hu Ht]. pose proof (pow2_pos (-53)) as Hu0.
  pose proof (pow2_pos (-1075)) as Ht0. pose proof pow2_1000_big as Hbig.
  destruct (round64_close (p * literal PING) 1100000000000) as (back & Hback & Hb).
  { rewrite Hk. apply Qabs_Qle_condition. unfold PING in *. split; lra. }
  { lra. }
  rewrite Hk in Hb. apply Qabs_Qle_condition in Hb.
  set (u := pow2 (-53)) in *. set (t := pow2 (-1075)) in *. clearbody u t.
  unfold PING in *. split.
  - apply Qabs_Qle_condition. split; lra.
  - exists back. split; [exact Hback|]. apply Qabs_Qle_condition. split; lra.
Qed.

Lemma m2ToPing_roundtrip_witness :
  Qabs (1505 # 10) <= 1000000000000 /\
  exists p,
    AbstractParser.m2ToPing (Finite (1505 # 10)) = Finite p /\
    Qabs (p * PING - (1505 # 10)) <= 17 # 1000 /\
    exists back,
      round64 (p * literal PING) = Finite back /\
      Qabs (back - (1505 # 10)) <= 17 # 1000.
Proof.
  assert (H : Qabs (1505 # 10) <= 1000000000000) by (vm_compute; discriminate).
  split; [exact H|]. exact (m2ToPing_roundtrip_bound (1505 # 10) H).
Defined.

(** C4, as stated, fails at 150.5 m²: it converts to the binary64 value
    nearest to 45.53 ping, and that times 3.30579 is 150.5126..., more than
    0.01 away from 150.5. *)
Lemma m2ToPing_roundtrip_off :
  AbstractParser.m2ToPing (Finite (1505 # 10))
    = Finite (1601944461204521 # 35184372088832) /\
  Qabs ((1601944461204521 # 35184372088832) - (4553 # 100)) <= 1 # 100000000000000 /\
  1 # 100 < Qabs ((1601944461204521 # 35184372088832) * PING - (1505 # 10)).
Proof. repeat split; vm_compute; (reflexivity || discriminate). Qed.

(** Beyond the range of C4 the spacing of binary64 values takes over: at
    954215616786974.8 m² the round trip is off by more than 0.09. *)
Example m2ToPing_roundtrip_large :
  let a := literal (9542156167869748 # 10) in
  exists p,
    AbstractParser.m2ToPing (Finite a) = Finite p /\
    9 # 100 < Qabs (p * PING - a).
Proof. eexists. split; [vm_compute; reflexivity | vm_compute; reflexivity]. Qed.

(** [m2ToPing] on the values 1.20661335 and 0.365 * 3.30579 of the
    specification's rounding examples: the binary64 quotient of the first
    lies just below 0.365 and prints as 0.36. *)
Example m2ToPing_tie :
  AbstractParser.m2ToPing (Finite (literal (120661335 # 100000000)))
    = round64 (36 # 100).
Proof. vm_compute. reflexivity. Qed.

End Rounding.

(** ** Parsers *)

Lemma parseRows_unfold pf p rows :
  parseRows pf p rows = imap (parserRecord pf p) (List.filter (parserKeep p) rows).
Proof. destruct p; reflexivity. Qed.

Lemma parserRecord_rawData pf p i row :
  RawLandData.rawData (parserRecord pf p i row) = Some row.
Proof. destruct p; reflexivity. Qed.

(** Every parser keeps exactly the rows with an owner name or a land number. *)
Lemma parserKeep_spec p row :
  parserKeep p row = hasOwnerName p row || hasLandNumber row.
Proof.
  destruct p; simpl; unfold TaipeiParser.keep, ChiayiParser.keep,
    ChanghuaParser.keep, hasLandNumber; rewrite !truthyS_orS; reflexivity.
Qed.

Lemma parseRows_lookup pf p rows i x :
  parseRows pf p rows !! i = Some x ->
  exists row, List.filter (parserKeep p) rows !! i = Some row /\
              x = parserRecord pf p i row.
Proof.
  rewrite parseRows_unfold, list_lookup_imap.
  destruct (List.filter (parserKeep p) rows !! i) as [row|]; simpl; [|discriminate].
  intros [= <-]. eauto.
Qed.

Lemma parseRows_elem pf p rows x :
  x ∈ parseRows pf p rows ->
  exists i row, List.filter (parserKeep p) rows !! i = Some row /\
                x = parserRecord pf p i row.
Proof.
  intros [i Hi]%list_elem_of_lookup.
  apply parseRows_lookup in Hi as (row & ? & ?). eauto.
Qed.

Lemma filter_lookup_of_elem {A} (f : A -> bool) (l : list A) (a : A) :
  a ∈ l -> f a = true -> exists i, List.filter f l !! i = Some a.
Proof.
  intros Hin Hf. apply list_elem_of_lookup.
  apply list_elem_of_In, filter_In. split; [by apply list_elem_of_In | done].
Qed.

Lemma filter_lookup_keeps {A} (f : A -> bool) (l : list A) i (a : A) :
  List.filter f l !! i = Some a -> f a = true /\ a ∈ l.
Proof.
  intros H. apply list_elem_of_lookup_2, list_elem_of_In, filter_In in H.
  destruct H as [H1 H2]. split; [done | by apply list_elem_of_In].
Qed.

Lemma parserRecord_placeholder pf p i row :
  getsPlaceholder p row = true ->
  RawLandData.landNumber (parserRecord pf p i row) = placeholder i.
Proof.
  unfold getsPlaceholder, hasLandNumber. intros H.
  apply andb_true_iff in H as [H1 H2]. apply negb_true_iff in H1.
  destruct p; simpl; rewrite (orDefault_falsy _ _ H1); try reflexivity.
  apply negb_true_iff in H2. by rewrite (orDefault_falsy _ _ H2).
Qed.

Lemma placeholder_inj i j : placeholder i = placeholder j -> i = j.
Proof.
  unfold placeholder, ofIndex. intros H.
  apply (inj (String.app "unknown-")) in H. by apply (inj pretty) in H.
Qed.

(** C5, as amended.  For every parser, two distinct kept rows that have no
    land number (and, for the Chiayi parser, no sub-section either) get the
    placeholders [unknown-i] and [unknown-j] of their positions [i] and [j]
    among the kept rows, and these differ. *)
Theorem placeholders_distinct pf p rows i j x y rx ry :
  parseRows pf p rows !! i = Some x ->
  parseRows pf p rows !! j = Some y ->
  i <> j ->
  RawLandData.rawData x = Some rx ->
  RawLandData.rawData y = Some ry ->
  getsPlaceholder p rx = true ->
  getsPlaceholder p ry = true ->
  RawLandData.landNumber x = placeholder i /\
  RawLandData.landNumber y = placeholder j /\
  RawLandData.landNumber x <> RawLandData.landNumber y.
Proof.
  intros Hx Hy Hij Hrx Hry Hpx Hpy.
  apply parseRows_lookup in Hx as (row1 & _ & ->).
  apply parseRows_lookup in Hy as (row2 & _ & ->).
  rewrite parserRecord_rawData in Hrx, Hry.
  injection Hrx as ->. injection Hry as ->.
  rewrite !parserRecord_placeholder by assumption.
  repeat split. intros H. by apply placeholder_inj in H.
Qed.

Lemma placeholders_distinct_witness :
  RawLandData.landNumber (TaipeiParser.toRecord noFloat 0 (owner "甲")) = "unknown-0" /\
  RawLandData.landNumber (TaipeiParser.toRecord noFloat 1 (owner "乙")) = "unknown-1" /\
  RawLandData.landNumber (TaipeiParser.toRecord noFloat 0 (owner "甲")) <>
  RawLandData.landNumber (TaipeiParser.toRecord noFloat 1 (owner "乙")).
Proof.
  apply (placeholders_distinct noFloat Taipei [owner "甲"; owner "乙"] 0 1
           _ _ (owner "甲") (owner "乙")).
  - reflexivity.
  - reflexivity.
  - lia.
  - reflexivity.
  - reflexivity.
  - vm_compute. reflexivity.
  - vm_compute. reflexivity.
Defined.

(** C5, as stated, fails for the Chiayi parser: two different rows without
    a land number that carry the same sub-section both get that sub-section
    as their land number. *)
Lemma chiayi_subsection_collision :
  exists x y rx ry,
    parseRows noFloat (Chiayi false) chiayiTwins !! 0%nat = Some x /\
    parseRows noFloat (Chiayi false) chiayiTwins !! 1%nat = Some y /\
    RawLandData.rawData x = Some rx /\
    RawLandData.rawData y = Some ry /\
    rx <> ry /\
    hasLandNumber rx = false /\
    hasLandNumber ry = false /\
    RawLandData.landNumber x = "一小段" /\
    RawLandData.landNumber y = "一小段".
Proof.
  do 4 eexists.
  split; [reflexivity|]. split; [reflexivity|].
  split; [reflexivity|]. split; [reflexivity|].
  split; [|repeat split; vm_compute; reflexivity].
  intros H. apply (f_equal (fun m : Row => m !! "姓名")) in H.
  vm_compute in H. discriminate.
Qed.

Lemma cleanOwnerName_falsy a :
  truthyS a = false -> AbstractParser.cleanOwnerName a = None.
Proof.
  destruct a as [s|]; simpl; [|reflexivity].
  destruct (String.eqb s ""); [reflexivity | discriminate].
Qed.

Lemma parserRecord_no_owner pf p i row :
  hasOwnerName p row = false ->
  RawLandData.ownerName (parserRecord pf p i row) = None.
Proof.
  intros H. destruct p; simpl in *; apply cleanOwnerName_falsy; try done.
  apply orb_false_iff in H as [H1 H2]. unfold orS. by rewrite H1.
Qed.

Lemma parserRecord_landNumber pf p i row :
  hasLandNumber row = true ->
  row !! "地號" = Some (RawLandData.landNumber (parserRecord pf p i row)).
Proof.
  unfold hasLandNumber. intros H. destruct p; simpl; by apply orDefault_truthy.
Qed.

(** C6.  For every parser and every input row without an owner name: if
    the row has no land number either, no record of the output comes from
    it; if it has a land number, the output holds a record made from it,
    with that land number, and the normalizer gives this record a null
    [ownerName]. *)
Theorem row_filtering pf p rows row :
  row ∈ rows ->
  hasOwnerName p row = false ->
  (hasLandNumber row = false ->
     forall x, x ∈ parseRows pf p rows -> RawLandData.rawData x <> Some row) /\
  (hasLandNumber row = true ->
     exists x,
       x ∈ parseRows pf p rows /\
       RawLandData.rawData x = Some row /\
       row !! "地號" = Some (RawLandData.landNumber x) /\
       forall sourceUrl,
         normalizeRecord sourceUrl x ∈ normalizeData (parseRows pf p rows) sourceUrl /\
         NormalizedLand.rawData (normalizeRecord sourceUrl x) = Some row /\
         NormalizedLand.ownerName (normalizeRecord sourceUrl x) = None).
Proof.
  intros Hin Hown. split; intros Hland.
  - intros x Hx Hraw.
    apply parseRows_elem in Hx as (i & row' & Hi & ->).
    rewrite parserRecord_rawData in Hraw. injection Hraw as ->.
    apply filter_lookup_keeps in Hi as [Hk _].
    rewrite parserKeep_spec, Hown, Hland in Hk. discriminate.
  - destruct (filter_lookup_of_elem (parserKeep p) rows row Hin) as [i Hi].
    { by rewrite parserKeep_spec, Hown, Hland. }
    exists (parserRecord pf p i row).
    assert (Hx : parserRecord pf p i row ∈ parseRows pf p rows).
    { apply list_elem_of_lookup. exists i.
      by rewrite parseRows_unfold, list_lookup_imap, Hi. }
    split; [done|]. split; [apply parserRecord_rawData|].
    split; [by apply parserRecord_landNumber|].
    intros url. split; [by apply list_elem_of_fmap_2|].
    split; [simpl; apply parserRecord_rawData|].
    simpl. by rewrite parserRecord_no_owner.
Qed.

Lemma row_filtering_witness :
  (forall x, x ∈ parseRows noFloat Changhua [landOnly; footer] ->
     RawLandData.rawData x <> Some footer) /\
  (exists x,
     x ∈ parseRows noFloat Changhua [landOnly; footer] /\
     RawLandData.rawData x = Some landOnly /\
     landOnly !! "地號" = Some (RawLandData.landNumber x) /\
     forall sourceUrl,
       normalizeRecord sourceUrl x
         ∈ normalizeData (parseRows noFloat Changhua [landOnly; footer]) sourceUrl /\
       NormalizedLand.rawData (normalizeRecord sourceUrl x) = Some landOnly /\
       NormalizedLand.ownerName (normalizeRecord sourceUrl x) = None).
Proof.
  split.
  - apply (row_filtering noFloat Changhua [landOnly; footer] footer).
    + right. left.
    + vm_compute. reflexivity.
    + vm_compute. reflexivity.
  - apply (row_filtering noFloat Changhua [landOnly; footer] landOnly).
    + left.
    + vm_compute. reflexivity.
    + vm_compute. reflexivity.
Defined.

Lemma parserRecord_area pf p i row :
  RawLandData.areaPing (parserRecord pf p i row) =
  match RawLandData.areaM2 (parserRecord pf p i row) with
  | Some a => if truthyN (Some a) then Some (AbstractParser.m2ToPing a) else None
  | None => None
  end.
Proof. destruct p; reflexivity. Qed.

Lemma normalizeRecord_zero_area sourceUrl data q :
  RawLandData.areaM2 data = Some (Finite q) -> (q == 0)%Q ->
  truthyN (RawLandData.areaPing data) = false ->
  NormalizedLand.areaM2 (normalizeRecord sourceUrl data) = None /\
  NormalizedLand.areaPing (normalizeRecord sourceUrl data) = None.
Proof.
  intros Hm Hq Hp.
  unfold normalizeRecord, orNullN.
  cbn [NormalizedLand.areaM2 NormalizedLand.areaPing].
  by rewrite Hp, Hm, (truthyN_zero q Hq).
Qed.

(** C10, as amended.  For every RawLandRecord whose [areaM2] is 0 and whose
    [areaPing] is absent, 0 or NaN, the normalizer emits [areaM2] null and
    [areaPing] null; every record a parser emits with [areaM2] 0 has no
    [areaPing], so the normalizer maps it to null and null: a zero area read
    from a source row does not reach the normalized record. *)
Theorem zero_area_dropped :
  (forall sourceUrl data q,
     RawLandData.areaM2 data = Some (Finite q) -> (q == 0)%Q ->
     truthyN (RawLandData.areaPing data) = false ->
     NormalizedLand.areaM2 (normalizeRecord sourceUrl data) = None /\
     NormalizedLand.areaPing (normalizeRecord sourceUrl data) = None) /\
  (forall pf p rows x q,
     x ∈ parseRows pf p rows ->
     RawLandData.areaM2 x = Some (Finite q) -> (q == 0)%Q ->
     RawLandData.areaPing x = None /\
     forall sourceUrl,
       NormalizedLand.areaM2 (normalizeRecord sourceUrl x) = None /\
       NormalizedLand.areaPing (normalizeRecord sourceUrl x) = None).
Proof.
  split; [exact normalizeRecord_zero_area|].
  intros pf p rows x q Hx Hm Hq.
  apply parseRows_elem in Hx as (i & row & _ & ->).
  assert (Hp : RawLandData.areaPing (parserRecord pf p i row) = None).
  { rewrite parserRecord_area, Hm. by rewrite (truthyN_zero q Hq). }
  split; [exact Hp|]. intros url.
  apply (normalizeRecord_zero_area url _ q Hm Hq). by rewrite Hp.
Qed.

Lemma zero_area_dropped_witness :
  (NormalizedLand.areaM2 (normalizeRecord None (zeroArea None)) = None /\
   NormalizedLand.areaPing (normalizeRecord None (zeroArea None)) = None) /\
  (RawLandData.areaM2 (TaipeiParser.toRecord sampleFloat 0 zeroAreaRow) = Some (Finite 0) /\
   RawLandData.areaPing (TaipeiParser.toRecord sampleFloat 0 zeroAreaRow) = None /\
   forall sourceUrl,
     NormalizedLand.areaM2
       (normalizeRecord sourceUrl (TaipeiParser.toRecord sampleFloat 0 zeroAreaRow)) = None /\
     NormalizedLand.areaPing
       (normalizeRecord sourceUrl (TaipeiParser.toRecord sampleFloat 0 zeroAreaRow)) = None).
Proof.
  split.
  - apply (proj1 zero_area_dropped None (zeroArea None) 0%Q); reflexivity.
  - split; [vm_compute; reflexivity|].
    apply (proj2 zero_area_dropped sampleFloat Taipei [zeroAreaRow]
             (TaipeiParser.toRecord sampleFloat 0 zeroAreaRow) 0%Q).
    + left.
    + vm_compute. reflexivity.
    + reflexivity.
Defined.

(** C10, as stated, fails for a RawLandRecord with [areaM2] 0 that carries
    an [areaPing] of its own: the normalizer keeps that [areaPing]. *)
Lemma zero_area_ping_kept :
  RawLandData.areaM2 (zeroArea (Some (Finite 5))) = Some (Finite 0) /\
  NormalizedLand.areaM2 (normalizeRecord None (zeroArea (Some (Finite 5)))) = None /\
  NormalizedLand.areaPing (normalizeRecord None (zeroArea (Some (Finite 5))))
    = Some (Finite 5).
Proof. repeat split; reflexivity. Qed.

(** The end-to-end scenario of the specification. *)
Example wang_scenario :
  let land :=
    normalizeRecord (Some "彰化縣") (ChanghuaParser.toRecord sampleFloat 0 wangRow) in
  NormalizedLand.ownerName land = Some "王O" /\
  NormalizedLand.landNumber land = "123-4" /\
  NormalizedLand.areaM2 land = Some (Finite (1505 # 10)) /\
  NormalizedLand.areaPing land = Some (round64 (4553 # 100)) /\
  NormalizedLand.status land = "列管中" /\
  NormalizedLand.coordinates land = get cityCenters "彰化縣".
Proof. repeat split; vm_compute; reflexivity. Qed.

(** ** Normalizer *)

(** A district that starts with a known city name loses exactly that name. *)
Lemma removeCityPrefix_strips p rest :
  p ∈ cityPrefixes -> removeCityPrefix (p +:+ rest) = rest.
Proof.
  unfold cityPrefixes. intros H.
  repeat (apply elem_of_cons in H as [-> | H]; [reflexivity|]).
  by apply elem_of_nil in H.
Qed.

Lemma removeCityPrefix_cases district :
  removeCityPrefix district = district \/
  exists p, p ∈ cityPrefixes /\ district = p +:+ removeCityPrefix district.
Proof.
  unfold removeCityPrefix.
  destruct (firstStrip cityPrefixes district) as [rest|] eqn:E; [|by left].
  right. by apply firstStrip_Some.
Qed.

(** Reading a lookup table: an own key, an inherited name, neither. *)
Lemma get_own {A} (table : gmap string A) key a :
  table !! key = Some a -> get table key = Some (Plain a).
Proof. unfold get. by intros ->. Qed.

Lemma get_inherited {A} (table : gmap string A) key :
  table !! key = None -> key ∈ objectPrototype ->
  get table key = Some (Inherited key).
Proof. unfold get. intros -> H. by rewrite bool_decide_eq_true_2. Qed.

Lemma get_absent {A} (table : gmap string A) key :
  table !! key = None -> key ∉ objectPrototype -> get table key = None.
Proof. unfold get. intros -> H. by rewrite bool_decide_eq_false_2. Qed.

(** No table of the normalizer has a key that is also an inherited name. *)
Lemma tables_own_no_inherited name :
  name ∈ objectPrototype ->
  DISTRICT_COORDS !! name = None /\ cityCenters !! name = None /\
  CITY_NAME_MAP !! name = None.
Proof.
  unfold objectPrototype. intros H.
  repeat (apply elem_of_cons in H as [-> | H];
          [repeat split; vm_compute; reflexivity|]).
  by apply elem_of_nil in H.
Qed.

(** C7.  For every city and district whose names, the district also with
    a leading known city name removed, are not names inherited from
    [Object.prototype], the coordinates are found in this order: (1) the
    entry of the district in [DISTRICT_COORDS]; (2) failing that, the entry
    of the district with a leading known city name removed; (3) failing
    both, the centre of the city in [cityCenters]; (4) null when the city
    has no centre there.  Where the chain meets an inherited name, it ends
    there: what comes back is the inherited member, which is no pair of
    coordinates. *)
Theorem coordinate_fallback_chain (city district : string) :
  let result := getCoordinatesForDistrict (Plain city) district in
  (forall c, DISTRICT_COORDS !! district = Some c -> result = Some (Plain c)) /\
  (forall p rest c,
     DISTRICT_COORDS !! district = None -> district ∉ objectPrototype ->
     p ∈ cityPrefixes -> district = p +:+ rest ->
     DISTRICT_COORDS !! rest = Some c ->
     result = Some (Plain c)) /\
  (DISTRICT_COORDS !! district = None -> district ∉ objectPrototype ->
   (forall p rest, p ∈ cityPrefixes -> district = p +:+ rest ->
      DISTRICT_COORDS !! rest = None /\ rest ∉ objectPrototype) ->
   (forall c, cityCenters !! city = Some c -> result = Some (Plain c)) /\
   (cityCenters !! city = None -> city ∉ objectPrototype -> result = None) /\
   (city ∈ objectPrototype -> result = Some (Inherited city))) /\
  (district ∈ objectPrototype -> result = Some (Inherited district)) /\
  (forall p rest,
     DISTRICT_COORDS !! district = None -> district ∉ objectPrototype ->
     p ∈ cityPrefixes -> district = p +:+ rest ->
     rest ∈ objectPrototype ->
     result = Some (Inherited rest)).
Proof.
  intros result. subst result. unfold getCoordinatesForDistrict.
  split; [|split; [|split; [|split]]].
  - intros c Hc. by rewrite (get_own _ _ _ Hc).
  - intros p rest c Hd Hnot Hp -> Hrest.
    rewrite (get_absent _ _ Hd Hnot), (removeCityPrefix_strips p rest Hp).
    by rewrite (get_own _ _ _ Hrest).
  - intros Hd Hnot Hstrip.
    assert (Hclean : get DISTRICT_COORDS (removeCityPrefix district) = None).
    { destruct (removeCityPrefix_cases district) as [-> | (p & Hp & Heq)];
        [by apply get_absent|].
      destruct (Hstrip p _ Hp Heq). by apply get_absent. }
    rewrite (get_absent _ _ Hd Hnot), Hclean. cbn [cityCenter].
    split; [|split].
    + intros c Hc. by apply get_own.
    + intros Hc Hcity. by apply get_absent.
    + intros Hcity. apply get_inherited; [|done].
      by destruct (tables_own_no_inherited city Hcity) as (_ & ? & _).
  - intros Hin. destruct (tables_own_no_inherited district Hin) as (Hd & _).
    by rewrite (get_inherited _ _ Hd Hin).
  - intros p rest Hd Hnot Hp -> Hin.
    rewrite (get_absent _ _ Hd Hnot), (removeCityPrefix_strips p rest Hp).
    destruct (tables_own_no_inherited rest Hin) as (Hr & _).
    by rewrite (get_inherited _ _ Hr Hin).
Qed.

Lemma coordinate_fallback_chain_witness :
  getCoordinatesForDistrict (Plain "台北市") "大安區" = get DISTRICT_COORDS "大安區" /\
  getCoordinatesForDistrict (Plain "台北市") "臺北市大安區" = get DISTRICT_COORDS "大安區" /\
  getCoordinatesForDistrict (Plain "嘉義縣") "民雄鄉" = get cityCenters "嘉義縣" /\
  getCoordinatesForDistrict (Plain "新北市") "板橋區" = None /\
  getCoordinatesForDistrict (Plain "台北市") "constructor" = Some (Inherited "constructor").
Proof.
  assert (Hnone : forall district : string,
            (district = "民雄鄉" \/ district = "板橋區") ->
            forall p rest, p ∈ cityPrefixes -> district = p +:+ rest ->
            DISTRICT_COORDS !! rest = None /\ rest ∉ objectPrototype).
  { intros district Hd p rest Hp Heq. exfalso. unfold cityPrefixes in Hp.
    repeat (apply elem_of_cons in Hp as [-> | Hp];
            [destruct Hd as [-> | ->]; simpl in Heq; discriminate Heq|]).
    by apply elem_of_nil in Hp. }
  assert (Hplain : forall name : string,
            (name = "民雄鄉" \/ name = "板橋區" \/ name = "新北市"
             \/ name = "臺北市大安區") ->
            name ∉ objectPrototype).
  { intros name Hname. apply (bool_decide_unpack _).
    destruct Hname as [-> | [-> | [-> | ->]]]; vm_compute; reflexivity. }
  split; [|split; [|split; [|split]]].
  - apply (proj1 (coordinate_fallback_chain "台北市" "大安區")).
    vm_compute. reflexivity.
  - apply (proj1 (proj2 (coordinate_fallback_chain "台北市" "臺北市大安區"))
             "臺北市" "大安區").
    + vm_compute. reflexivity.
    + apply Hplain. tauto.
    + right. left.
    + reflexivity.
    + vm_compute. reflexivity.
  - apply (proj1 (proj1 (proj2 (proj2 (coordinate_fallback_chain "嘉義縣" "民雄鄉")))
                    eq_refl (Hplain "民雄鄉" ltac:(tauto))
                    (Hnone "民雄鄉" (or_introl eq_refl)))).
    vm_compute. reflexivity.
  - apply (proj1 (proj2 (proj1 (proj2 (proj2 (coordinate_fallback_chain "新北市" "板橋區")))
                    eq_refl (Hplain "板橋區" ltac:(tauto))
                    (Hnone "板橋區" (or_intror eq_refl))))).
    + vm_compute. reflexivity.
    + apply Hplain. tauto.
  - apply (proj1 (proj2 (proj2 (proj2 (coordinate_fallback_chain "台北市" "constructor"))))).
    apply (bool_decide_unpack _). vm_compute. reflexivity.
Defined.

(** C7, as stated, fails where a name is inherited: a district called
    [constructor] in [台北市] gets the constructor of objects for
    coordinates, not the centre of the city, and a city called [toString]
    does not get null. *)
Lemma inherited_member_as_coordinates :
  cityCenters !! "台北市" = Some (coord (250330 # 10000) (1215654 # 10000)) /\
  getCoordinatesForDistrict (Plain "台北市") "constructor"
    = Some (Inherited "constructor") /\
  cityCenters !! "toString" = None /\
  getCoordinatesForDistrict (Plain "toString") "民雄鄉" = Some (Inherited "toString").
Proof. repeat split; vm_compute; reflexivity. Qed.

(** ** Fetcher *)

Import DataFetcher.

Section Paginate.
Variable w : World.
Variable datasetId : string.

Lemma paginate_terminates fuel offset allRecords requests :
  (0 < fuel)%nat ->
  (safetyLimit < Z.of_nat (length allRecords) + Z.of_nat fuel)%Z ->
  is_Some (paginate w datasetId fuel offset allRecords requests).
Proof.
  revert offset allRecords requests.
  induction fuel as [|fuel IH]; intros offset acc reqs Hpos Hfuel; [lia|].
  simpl. destruct (taipeiPage w datasetId offset) as [e|st|records]; [by eexists..|].
  destruct (length records =? 0)%nat eqn:Hempty; [by eexists|].
  apply Nat.eqb_neq in Hempty.
  destruct (Z.gtb_spec (Z.of_nat (length (acc ++ records))) safetyLimit) as [Hcap|Hcap];
    [by eexists|].
  rewrite length_app in Hcap.
  apply IH; rewrite ?length_app; lia.
Qed.

Lemma paginate_more_fuel fuel fuel' offset allRecords requests r :
  paginate w datasetId fuel offset allRecords requests = Some r ->
  (fuel <= fuel')%nat ->
  paginate w datasetId fuel' offset allRecords requests = Some r.
Proof.
  revert fuel' offset allRecords requests.
  induction fuel as [|fuel IH]; intros fuel' offset acc reqs H Hle; [done|].
  destruct fuel' as [|fuel']; [lia|].
  simpl in *. destruct (taipeiPage w datasetId offset) as [e|st|records]; [done..|].
  destruct (length records =? 0)%nat; [done|].
  destruct (Z.of_nat (length (acc ++ records)) >? safetyLimit)%Z; [done|].
  apply IH; [done | lia].
Qed.

(** The offsets asked for are consecutive multiples of the page size. *)
Lemma paginate_requests fuel k allRecords requests requests' exit :
  paginate w datasetId fuel (Z.of_nat k * limit) allRecords requests
    = Some (requests', exit) ->
  exists n, (0 < n)%nat /\
    requests' = requests ++ map (fun j => (Z.of_nat j * limit)%Z) (seq k n).
Proof.
  revert k allRecords requests.
  induction fuel as [|fuel IH]; intros k acc reqs H; [done|].
  simpl in H.
  assert (Hone : reqs ++ [(Z.of_nat k * limit)%Z] =
                 reqs ++ map (fun j => (Z.of_nat j * limit)%Z) (seq k 1)) by done.
  destruct (taipeiPage w datasetId (Z.of_nat k * limit)) as [e|st|records];
    [injection H as <- <-; exists 1%nat; split; [lia | done]..|].
  destruct (length records =? 0)%nat;
    [injection H as <- <-; exists 1%nat; split; [lia | done]|].
  destruct (Z.of_nat (length (acc ++ records)) >? safetyLimit)%Z;
    [injection H as <- <-; exists 1%nat; split; [lia | done]|].
  replace (Z.of_nat k * limit + limit)%Z with (Z.of_nat (S k) * limit)%Z in H by lia.
  apply IH in H as (n & Hn & ->).
  exists (S n). split; [lia|]. by rewrite <- app_assoc.
Qed.

(** Nothing is asked for beyond the first empty page. *)
Lemma paginate_stops_at_empty fuel k m allRecords requests requests' exit :
  taipeiPage w datasetId (Z.of_nat (k + m) * limit) = Ok [] ->
  paginate w datasetId fuel (Z.of_nat k * limit) allRecords requests
    = Some (requests', exit) ->
  exists n, (0 < n <= S m)%nat /\
    requests' = requests ++ map (fun j => (Z.of_nat j * limit)%Z) (seq k n).
Proof.
  revert k fuel allRecords requests.
  induction m as [|m IH]; intros k fuel acc reqs Hempty H.
  - destruct fuel as [|fuel]; [done|]. simpl in H.
    rewrite Nat.add_0_r in Hempty. rewrite Hempty in H. simpl in H.
    injection H as <- <-. exists 1%nat. split; [lia | done].
  - destruct fuel as [|fuel]; [done|]. simpl in H.
    assert (Hone : reqs ++ [(Z.of_nat k * limit)%Z] =
                   reqs ++ map (fun j => (Z.of_nat j * limit)%Z) (seq k 1)) by done.
    destruct (taipeiPage w datasetId (Z.of_nat k * limit)) as [e|st|records];
      [injection H as <- <-; exists 1%nat; split; [lia | done]..|].
    destruct (length records =? 0)%nat;
      [injection H as <- <-; exists 1%nat; split; [lia | done]|].
    destruct (Z.of_nat (length (acc ++ records)) >? safetyLimit)%Z;
      [injection H as <- <-; exists 1%nat; split; [lia | done]|].
    replace (Z.of_nat k * limit + limit)%Z with (Z.of_nat (S k) * limit)%Z in H by lia.
    apply IH in H as (n & Hn & ->).
    + exists (S n). split; [lia|]. by rewrite <- app_assoc.
    + by replace (S k + m)%nat with (k + S m)%nat by lia.
Qed.

(** The accumulated records stay within the cap plus one page. *)
Lemma paginate_bound (pageMax : Z) fuel offset allRecords requests requests' exit :
  (forall o records, taipeiPage w datasetId o = Ok records ->
     (Z.of_nat (length records) <= pageMax)%Z) ->
  (0 <= pageMax)%Z ->
  (Z.of_nat (length allRecords) <= safetyLimit)%Z ->
  paginate w datasetId fuel offset allRecords requests = Some (requests', exit) ->
  (Z.of_nat (length (accumulated exit)) <= safetyLimit + pageMax)%Z.
Proof.
  intros Hpage Hmax. revert offset allRecords requests.
  induction fuel as [|fuel IH]; intros offset acc reqs Hacc H; [done|].
  simpl in H.
  destruct (taipeiPage w datasetId offset) as [e|st|records] eqn:Hp;
    [injection H as <- <-; simpl; unfold safetyLimit; lia..|].
  pose proof (Hpage _ _ Hp) as Hlen.
  destruct (length records =? 0)%nat;
    [injection H as <- <-; simpl; lia|].
  destruct (Z.gtb_spec (Z.of_nat (length (acc ++ records))) safetyLimit) as [Hcap|Hcap].
  - injection H as <- <-. simpl. rewrite length_app. lia.
  - by apply IH in H.
Qed.

(** Below the cap the loop runs to the first empty page and keeps every
    record of the pages before it. *)
Lemma paginate_collects fuel k m allRecords requests (pages : list (list Row)) :
  length pages = m ->
  (forall j records, pages !! j = Some records ->
     taipeiPage w datasetId (Z.of_nat (k + j) * limit) = Ok records /\ records <> []) ->
  taipeiPage w datasetId (Z.of_nat (k + m) * limit) = Ok [] ->
  (Z.of_nat (length (allRecords ++ concat pages)) <= safetyLimit)%Z ->
  (m < fuel)%nat ->
  paginate w datasetId fuel (Z.of_nat k * limit) allRecords requests
    = Some (requests ++ map (fun j => (Z.of_nat j * limit)%Z) (seq k (S m)),
            Break (allRecords ++ concat pages)).
Proof.
  revert k m fuel allRecords requests.
  induction pages as [|page pages IH]; intros k m fuel acc reqs <- Hpages Hempty Hcap Hfuel.
  - destruct fuel as [|fuel]; [lia|]. simpl in *.
    rewrite Nat.add_0_r in Hempty. rewrite Hempty. simpl. by rewrite app_nil_r.
  - destruct fuel as [|fuel]; [simpl in Hfuel; lia|].
    destruct (Hpages 0%nat page eq_refl) as [Hp Hne].
    rewrite Nat.add_0_r in Hp. simpl. rewrite Hp.
    destruct (length page =? 0)%nat eqn:Hlen.
    { apply Nat.eqb_eq in Hlen. by destruct page. }
    simpl in Hcap. rewrite app_assoc in Hcap.
    destruct (Z.gtb_spec (Z.of_nat (length (acc ++ page))) safetyLimit) as [Hc|Hc].
    { rewrite length_app in Hcap. lia. }
    replace (Z.of_nat k * limit + limit)%Z with (Z.of_nat (S k) * limit)%Z by lia.
    rewrite (IH (S k) (length pages) fuel (acc ++ page)); [| done | | | done | simpl in Hfuel; lia].
    + by rewrite <- !app_assoc.
    + intros j records Hj. replace (S k + j)%nat with (k + S j)%nat by lia.
      by apply (Hpages (S j)).
    + by replace (S k + length pages)%nat with (k + S (length pages))%nat by (simpl; lia).
Qed.

End Paginate.

Lemma length_concat_nonempty {A} (pages : list (list A)) :
  (forall p, p ∈ pages -> p <> []) -> (length pages <= length (concat pages))%nat.
Proof.
  induction pages as [|p pages IH]; intros H; simpl; [lia|].
  rewrite length_app.
  assert (p <> []) by (apply H; left).
  assert (length pages <= length (concat pages))%nat.
  { apply IH. intros q Hq. apply H. by right. }
  destruct p; [done | simpl; lia].
Qed.

Lemma paginate_return w datasetId fuel offset allRecords requests requests' result :
  paginate w datasetId fuel offset allRecords requests = Some (requests', Return result) ->
  recordCount result = None.
Proof.
  revert offset allRecords requests.
  induction fuel as [|fuel IH]; intros offset acc reqs H; [done|].
  simpl in H. destruct (taipeiPage w datasetId offset) as [e|st|records]; [done| |].
  - by injection H as _ <-.
  - destruct (length records =? 0)%nat; [done|].
    destruct (Z.of_nat (length (acc ++ records)) >? safetyLimit)%Z; [done|].
    by apply IH in H.
Qed.

Lemma finish_recordCount w exit n :
  (forall result, exit = Return result -> recordCount result = None) ->
  recordCount (finish w exit) = Some n -> n = length (accumulated exit).
Proof.
  intros Hret. destruct exit as [all|r|e]; simpl; [| |done].
  - destruct (length all =? 0)%nat; [done|]. by intros [= <-].
  - by rewrite (Hret r eq_refl).
Qed.

Lemma fetchFromTaipei_finish w datasetId requests exit :
  paginate w datasetId enoughFuel 0 [] [] = Some (requests, exit) ->
  fetchFromTaipei w datasetId = finish w exit.
Proof.
  intros H. unfold fetchFromTaipei, fetchFromTaipeiWith. by rewrite H.
Qed.

(** C3, as amended.  For every upstream behaviour the pagination loop
    ends within [safetyLimit + 1] turns, and more fuel changes nothing; the
    offsets asked for are the first pages in order; nothing is asked for
    beyond the first empty page [N]; when the pages before it are non-empty
    and hold at most 100,000 rows together, exactly the pages 0..N are asked
    for and every row is kept; and the accumulated records never exceed
    100,000 by more than the size of one page, so they stay within 101,000
    rows when no page holds more than the 1000 rows asked for. *)
Theorem pagination_terminates_and_is_bounded w datasetId :
  exists requests exit,
    paginate w datasetId enoughFuel 0 [] [] = Some (requests, exit) /\
    (forall fuel, (enoughFuel <= fuel)%nat ->
       paginate w datasetId fuel 0 [] [] = Some (requests, exit)) /\
    fetchFromTaipei w datasetId = finish w exit /\
    (exists n, (0 < n)%nat /\ requests = pageOffsets n) /\
    (forall N,
       taipeiPage w datasetId (Z.of_nat N * limit) = Ok [] ->
       exists n, (0 < n <= S N)%nat /\ requests = pageOffsets n) /\
    (forall pages,
       (forall j records, pages !! j = Some records ->
          taipeiPage w datasetId (Z.of_nat j * limit) = Ok records /\ records <> []) ->
       taipeiPage w datasetId (Z.of_nat (length pages) * limit) = Ok [] ->
       (Z.of_nat (length (concat pages)) <= safetyLimit)%Z ->
       requests = pageOffsets (S (length pages)) /\ exit = Break (concat pages)) /\
    (forall pageMax,
       (0 <= pageMax)%Z ->
       (forall o records, taipeiPage w datasetId o = Ok records ->
          (Z.of_nat (length records) <= pageMax)%Z) ->
       (Z.of_nat (length (accumulated exit)) <= safetyLimit + pageMax)%Z /\
       forall n, recordCount (fetchFromTaipei w datasetId) = Some n ->
         (Z.of_nat n <= safetyLimit + pageMax)%Z).
Proof.
  destruct (paginate_terminates w datasetId enoughFuel 0 [] []) as [[requests exit] Hrun].
  { unfold enoughFuel, safetyLimit. lia. }
  { unfold enoughFuel, safetyLimit. cbn [length]. lia. }
  exists requests, exit. split; [done|].
  split; [intros fuel Hfuel; by apply (paginate_more_fuel _ _ enoughFuel)|].
  split; [by apply (fetchFromTaipei_finish _ _ requests)|].
  split; [|split; [|split]].
  - apply (paginate_requests w datasetId enoughFuel 0 [] [] requests exit Hrun).
  - intros N Hempty.
    apply (paginate_stops_at_empty w datasetId enoughFuel 0 N [] [] requests exit);
      [done | exact Hrun].
  - intros pages Hpages Hempty Hcap.
    assert (Hfuel : (length pages < enoughFuel)%nat).
    { assert (length pages <= length (concat pages))%nat; [|unfold enoughFuel; lia].
      apply length_concat_nonempty. intros p [j Hj]%list_elem_of_lookup.
      by destruct (Hpages j p Hj). }
    pose proof (paginate_collects w datasetId enoughFuel 0 (length pages) [] []
                  pages eq_refl Hpages Hempty Hcap Hfuel) as Hc.
    change (Z.of_nat 0 * limit)%Z with 0%Z in Hc.
    rewrite Hrun in Hc. by injection Hc as -> ->.
  - intros pageMax Hmax Hpage.
    assert (Hb : (Z.of_nat (length (accumulated exit)) <= safetyLimit + pageMax)%Z).
    { apply (paginate_bound w datasetId pageMax enoughFuel 0 [] [] requests exit);
        [done | done | unfold safetyLimit; simpl; lia | done]. }
    split; [done|]. intros n Hn.
    rewrite (fetchFromTaipei_finish _ _ _ _ Hrun) in Hn.
    apply finish_recordCount in Hn as ->; [done|].
    intros r ->. by apply paginate_return in Hrun.
Qed.

Lemma pagination_witness :
  exists requests exit,
    paginate twoPagesWorld "134972" enoughFuel 0 [] [] = Some (requests, exit) /\
    requests = pageOffsets 3 /\
    exit = Break (concat twoPages) /\
    (Z.of_nat (length (accumulated exit)) <= safetyLimit + 1000)%Z.
Proof.
  destruct (pagination_terminates_and_is_bounded twoPagesWorld "134972")
    as (requests & exit & Hrun & _ & _ & _ & _ & Hpages & Hbound).
  exists requests, exit. split; [exact Hrun|].
  destruct (Hpages twoPages) as [Hreq Hexit].
  - intros [|[|j]] records; simpl; intros [= <-]; split; done.
  - reflexivity.
  - vm_compute. discriminate.
  - split; [exact Hreq|]. split; [exact Hexit|].
    destruct (Hbound 1000%Z) as [Hb _]; [lia | | exact Hb].
    intros o records. cbn [twoPagesWorld withTaipei taipeiPage].
    destruct (o =? 0)%Z; [intros [= <-]; simpl; lia|].
    destruct (o =? 1000)%Z; intros [= <-]; simpl; lia.
Defined.

Lemma paginate_full_pages m fuel offset allRecords requests :
  (Z.of_nat (length allRecords) + 1000 * Z.of_nat (S m) = 101000)%Z ->
  (m < fuel)%nat ->
  exists requests' all,
    paginate fullPagesWorld "134972" fuel offset allRecords requests
      = Some (requests', Break all) /\
    (Z.of_nat (length all) = 101000)%Z.
Proof.
  revert fuel offset allRecords requests.
  induction m as [|m IH]; intros fuel offset acc reqs Hlen Hfuel;
    (destruct fuel as [|fuel]; [lia|]); cbn [paginate fullPagesWorld withTaipei taipeiPage].
  - rewrite length_app, length_replicate. cbn [Nat.eqb].
    destruct (Z.gtb_spec (Z.of_nat (length acc + 1000)) safetyLimit) as [H|H];
      [|unfold safetyLimit in H; lia].
    eexists _, _. split; [reflexivity|]. rewrite length_app, length_replicate. lia.
  - rewrite length_app, length_replicate. cbn [Nat.eqb].
    destruct (Z.gtb_spec (Z.of_nat (length acc + 1000)) safetyLimit) as [H|H];
      [unfold safetyLimit in H; lia|].
    apply IH; [rewrite length_app, length_replicate|]; lia.
Qed.

(** C3, as stated, fails when the upstream answers every offset with a
    full page of 1000 rows: the loop stops after 101 pages with 101,000
    accumulated rows, which is more than the cap of 100,000. *)
Lemma pagination_cap_exceeded :
  exists n,
    recordCount (fetchFromTaipei fullPagesWorld "134972") = Some n /\
    (Z.of_nat n = 101000)%Z /\ (safetyLimit < Z.of_nat n)%Z.
Proof.
  destruct (paginate_full_pages 100 enoughFuel 0 [] []) as (reqs & all & Hrun & Hlen).
  { cbn [length]. lia. }
  { unfold enoughFuel, safetyLimit. lia. }
  exists (length all). rewrite (fetchFromTaipei_finish _ _ _ _ Hrun).
  cbn [finish]. destruct (Nat.eqb_spec (length all) 0) as [H0|_]; [lia|].
  cbn [recordCount]. unfold safetyLimit. repeat split; lia.
Qed.


Lemma enoughFuel_S : exists fuel, enoughFuel = S fuel.
Proof.
  exists (Z.to_nat safetyLimit). unfold enoughFuel, safetyLimit. lia.
Qed.

Lemma fetchFromTaipeiWith_total w datasetId :
  is_Some (fetchFromTaipeiWith w enoughFuel datasetId).
Proof.
  unfold fetchFromTaipeiWith.
  destruct (paginate_terminates w datasetId enoughFuel 0 [] []) as [[reqs exit] ->].
  - unfold enoughFuel, safetyLimit. lia.
  - unfold enoughFuel, safetyLimit. simpl length. lia.
  - by eexists.
Qed.

(** C9.  For every paginated fetch whose first page is already empty, the
    fetcher returns a failure with the error message 'No records found'. *)
Theorem empty_listing_fails w datasetId :
  taipeiPage w datasetId 0 = Ok [] ->
  fetchFromTaipei w datasetId = failure "No records found".
Proof.
  intros H. unfold fetchFromTaipei, fetchFromTaipeiWith.
  destruct enoughFuel_S as [fuel ->]. simpl. by rewrite H.
Qed.


Lemma empty_listing_fails_witness :
  fetchFromTaipei quietWorld "134972" =
    {| success := false; data := None; error := Some "No records found";
       recordCount := None |}.
Proof. apply (empty_listing_fails quietWorld "134972"). reflexivity. Defined.

(** ** Sync of one city *)

Section BatchLoop.
Variable w : World.
Variable city : string.
Variable nd : list NormalizedLand.t.

Lemma upsertLoop_spec fuel i st :
  (length nd - i < fuel)%nat ->
  exists st' new,
    upsertLoop w city nd fuel i st = Some st' /\
    calls st' = calls st ++ new /\
    lands st' = applyCalls new (lands st) /\
    totalRecords st' = (totalRecords st + rowsWritten new)%nat /\
    concat (map fst new) = map toDbRecord (drop i nd) /\
    length new = ((length nd - i + 99) / 100)%nat /\
    (forall k c, new !! k = Some c ->
       (i + 100 * k < length nd)%nat /\
       c = (map toDbRecord (slice (i + 100 * k) (i + 100 * k + 100) nd),
            negb (upsertError w city (i + 100 * k)))).
Proof.
  revert i st. induction fuel as [|fuel IH]; intros i st Hfuel; [lia|].
  cbn [upsertLoop]. destruct (Nat.ltb_spec i (length nd)) as [Hlt|Hge].
  - destruct (IH (i + batchSize)%nat (upsertBatch w city nd i st))
      as (st' & new & -> & Hcalls & Hlands & Htotal & Hcat & Hlen & Hk).
    { unfold batchSize. lia. }
    set (batch := map toDbRecord (slice i (i + batchSize) nd)).
    exists st', ((batch, negb (upsertError w city i)) :: new).
    split; [done|].
    unfold upsertBatch in Hcalls, Hlands, Htotal. fold batch in Hcalls, Hlands, Htotal.
    split; [|split; [|split; [|split; [|split]]]].
    + rewrite Hcalls. destruct (upsertError w city i); simpl; by rewrite <- app_assoc.
    + rewrite Hlands. by destruct (upsertError w city i).
    + rewrite Htotal. unfold rowsWritten. destruct (upsertError w city i); simpl; lia.
    + simpl. rewrite Hcat. unfold batch, slice, batchSize.
      replace (i + 100 - i)%nat with 100%nat by lia.
      rewrite <- map_app. f_equal.
      rewrite <- (take_drop 100 (drop i nd)) at 2. by rewrite drop_drop.
    + rewrite length_cons, Hlen. unfold batchSize.
      destruct (Nat.le_gt_cases 100 (length nd - i)) as [Hbig|Hsmall].
      * replace (length nd - i + 99)%nat
          with ((length nd - (i + 100) + 99) + 1 * 100)%nat by lia.
        rewrite Nat.div_add by lia. lia.
      * replace (length nd - (i + 100))%nat with 0%nat by lia.
        rewrite (Nat.div_small (0 + 99) 100) by lia.
        apply (Nat.div_unique _ _ _ (length nd - i - 1)); lia.
    + intros [|k] c Hc; simpl in Hc.
      * injection Hc as <-. rewrite Nat.mul_0_r, !Nat.add_0_r. done.
      * apply Hk in Hc as [Hc1 Hc2]. unfold batchSize in *.
        replace (i + 100 * S k)%nat with (i + 100 + 100 * k)%nat by lia. done.
  - exists st, []. rewrite app_nil_r. unfold rowsWritten. simpl.
    rewrite drop_ge by lia. rewrite Nat.add_0_r.
    repeat split; try done.
    replace (length nd - i + 99)%nat with 99%nat by lia. done. 
Qed.

End BatchLoop.

Lemma syncCityData_fetched w city db nd :
  cityRecords w city = inr nd ->
  serverConfigured w (Some city) = true ->
  exists st new,
    upsertLoop w city nd (S (length nd)) 0
      {| lands := unclaimed_lands db; calls := upsert_calls db; totalRecords := 0 |}
      = Some st /\
    syncCityData w city db =
      ({| unclaimed_lands := lands st; sync_logs := sync_logs db;
          data_sources := data_sources db; upsert_calls := calls st |},
       Returned {| SyncResult.city := city; SyncResult.success := true;
                   SyncResult.recordCount := totalRecords st;
                   SyncResult.error := None |}) /\
    calls st = upsert_calls db ++ new /\
    lands st = applyCalls new (unclaimed_lands db) /\
    totalRecords st = rowsWritten new /\
    concat (map fst new) = map toDbRecord nd /\
    length new = ((length nd + 99) / 100)%nat /\
    (forall k c, new !! k = Some c ->
       (100 * k < length nd)%nat /\
       c = (map toDbRecord (slice (100 * k) (100 * k + 100) nd),
            negb (upsertError w city (100 * k)))).
Proof.
  intros Hrec Hconf.
  destruct (upsertLoop_spec w city nd (S (length nd)) 0
              {| lands := unclaimed_lands db; calls := upsert_calls db;
                 totalRecords := 0 |})
    as (st & new & Hloop & Hcalls & Hlands & Htotal & Hcat & Hlen & Hk); [lia|].
  exists st, new. split; [done|].
  split.
  { unfold syncCityData, syncCityDataWith. by rewrite Hrec, Hconf, Hloop. }
  rewrite drop_0, Nat.sub_0_r in *. done.
Qed.

(** The fuel [syncCityData] gives to the batch loop is never used up. *)
Lemma syncCityData_enough_fuel w city db :
  exists fuel, syncCityDataWith w fuel city db = Some (syncCityData w city db).
Proof.
  destruct (cityRecords w city) as [r|nd] eqn:Hrec.
  { exists 0%nat. unfold syncCityData, syncCityDataWith. by rewrite Hrec. }
  exists (S (length nd)).
  destruct (serverConfigured w (Some city)) eqn:Hconf.
  - destruct (syncCityData_fetched w city db nd Hrec Hconf)
      as (st & new & Hloop & -> & _).
    unfold syncCityDataWith. by rewrite Hrec, Hconf, Hloop.
  - unfold syncCityData, syncCityDataWith. by rewrite Hrec, Hconf.
Qed.

Lemma slice_length {A} (l : list A) i :
  length (slice i (i + 100) l) = Nat.min 100 (length l - i).
Proof.
  unfold slice. rewrite length_take, length_drop. f_equal. lia.
Qed.

(** The same run, evaluated: batches of 100, 100 and 50 rows, the second
    one refused, 150 rows counted and 150 rows stored. *)
Example batch_upsert_run :
  let '(db', outcome) := syncCityData flakyStoreWorld "彰化縣" emptyDb in
  map (fun c : list DbRecord * bool => (length c.1, c.2)) (upsert_calls db')
    = [ (100, true); (100, false); (50, true) ]%nat /\
  size (unclaimed_lands db') = 150%nat /\
  outcome = Returned {| SyncResult.city := "彰化縣"; SyncResult.success := true;
                        SyncResult.recordCount := 150; SyncResult.error := None |}.
Proof. vm_compute. repeat split; reflexivity. Qed.

(** ** Idempotence *)

Lemma dom_upsertRows (rs : list DbRecord) (m : gmap LandKey DbRecord) :
  dom (upsertRows rs m) = dom m ∪ list_to_set (conflictKey <$> rs).
Proof.
  unfold upsertRows. revert m.
  induction rs as [|r rs IH]; intros m; simpl.
  - by rewrite (right_id_L ∅ (∪)).
  - rewrite IH, dom_insert_L. clear. set_solver.
Qed.

Lemma upsertBatch_dom w city nd i st :
  dom (lands st) ⊆ dom (lands (upsertBatch w city nd i st)).
Proof.
  unfold upsertBatch. destruct (upsertError w city i); simpl; [done|].
  rewrite dom_upsertRows. apply union_subseteq_l.
Qed.

Lemma upsertLoop_dom_mono w city nd fuel i st st' :
  upsertLoop w city nd fuel i st = Some st' ->
  dom (lands st) ⊆ dom (lands st').
Proof.
  revert i st. induction fuel as [|fuel IH]; intros i st H; [done|].
  cbn [upsertLoop] in H. destruct (i <? length nd)%nat.
  - apply IH in H. etrans; [apply (upsertBatch_dom w city nd i st) | exact H].
  - by injection H as ->.
Qed.

Lemma upsertLoop_rerun w1 w2 city nd fuel i st1 st2 st1' st2' :
  (forall j, upsertError w1 city j = true -> upsertError w2 city j = true) ->
  upsertLoop w1 city nd fuel i st1 = Some st1' ->
  upsertLoop w2 city nd fuel i st2 = Some st2' ->
  dom (lands st2') ⊆ dom (lands st2) ∪ dom (lands st1').
Proof.
  intros Herr. revert i st1 st2.
  induction fuel as [|fuel IH]; intros i st1 st2 H1 H2; [done|].
  cbn [upsertLoop] in H1, H2. destruct (i <? length nd)%nat.
  - pose proof (upsertLoop_dom_mono _ _ _ _ _ _ _ H1) as Hmono.
    specialize (IH _ _ _ H1 H2).
    assert (dom (lands (upsertBatch w2 city nd i st2)) ⊆
            dom (lands st2) ∪ dom (lands (upsertBatch w1 city nd i st1))) as Hstep.
    { unfold upsertBatch.
      destruct (upsertError w2 city i) eqn:E2; simpl; [apply union_subseteq_l|].
      destruct (upsertError w1 city i) eqn:E1; [apply Herr in E1; congruence|].
      simpl. rewrite !dom_upsertRows. clear. set_solver. }
    etrans; [exact IH|]. apply union_least; [|apply union_subseteq_r].
    etrans; [exact Hstep|]. apply union_least; [apply union_subseteq_l|].
    etrans; [exact Hmono | apply union_subseteq_r].
  - injection H2 as ->. apply union_subseteq_l.
Qed.

Lemma syncCityData_lands_dom w city db :
  dom (unclaimed_lands db) ⊆ dom (unclaimed_lands (syncCityData w city db).1).
Proof.
  unfold syncCityData, syncCityDataWith.
  destruct (cityRecords w city) as [r|nd]; [done|].
  destruct (serverConfigured w (Some city)); [|done].
  destruct (upsertLoop _ _ _ _ _ _) as [st|] eqn:E; [|done].
  by apply upsertLoop_dom_mono in E.
Qed.

Lemma syncCityData_lands_cases w city db :
  ((exists r, cityRecords w city = inl r) \/ serverConfigured w (Some city) = false) /\
    unclaimed_lands (syncCityData w city db).1 = unclaimed_lands db \/
  exists nd st,
    cityRecords w city = inr nd /\
    serverConfigured w (Some city) = true /\
    upsertLoop w city nd (S (length nd)) 0
      {| lands := unclaimed_lands db; calls := upsert_calls db; totalRecords := 0 |}
      = Some st /\
    unclaimed_lands (syncCityData w city db).1 = lands st.
Proof.
  destruct (cityRecords w city) as [r|nd] eqn:Hrec.
  { left. unfold syncCityData, syncCityDataWith. rewrite Hrec. eauto. }
  destruct (serverConfigured w (Some city)) eqn:Hconf.
  - right. destruct (syncCityData_fetched w city db nd Hrec Hconf)
      as (st & new & Hloop & -> & _).
    by exists nd, st.
  - left. unfold syncCityData, syncCityDataWith. rewrite Hrec, Hconf. eauto.
Qed.

Lemma syncCityData_rerun w1 w2 city db :
  cityRecords w2 city = cityRecords w1 city ->
  (serverConfigured w2 (Some city) = true -> serverConfigured w1 (Some city) = true) ->
  (forall i, upsertError w1 city i = true -> upsertError w2 city i = true) ->
  dom (unclaimed_lands (syncCityData w2 city (syncCityData w1 city db).1).1) =
  dom (unclaimed_lands (syncCityData w1 city db).1).
Proof.
  intros Hrec Hconf Herr.
  apply (anti_symm (⊆)); [|apply syncCityData_lands_dom].
  set (db1 := (syncCityData w1 city db).1).
  destruct (syncCityData_lands_cases w2 city db1)
    as [[_ ->] | (nd & st2 & Hrec2 & Hconf2 & Hloop2 & ->)]; [done|].
  destruct (syncCityData_lands_cases w1 city db)
    as [[[[r Hinl] | Hoff] _] | (nd' & st1 & Hrec1 & _ & Hloop1 & Hlands1)].
  - congruence.
  - rewrite (Hconf Hconf2) in Hoff. discriminate.
  - assert (nd' = nd) as -> by congruence.
    pose proof (upsertLoop_rerun _ _ _ _ _ _ _ _ _ _ Herr Hloop1 Hloop2) as H.
    cbn [lands] in H. fold db1 in Hlands1. rewrite Hlands1 in H |- *.
    etrans; [exact H|]. by apply union_least.
Qed.

(** ** The run over all cities *)

Lemma upsertLoop_count_indep w city nd fuel i st1 st2 :
  totalRecords st1 = totalRecords st2 ->
  match upsertLoop w city nd fuel i st1, upsertLoop w city nd fuel i st2 with
  | Some a, Some b => totalRecords a = totalRecords b
  | None, None => True
  | _, _ => False
  end.
Proof.
  revert i st1 st2. induction fuel as [|fuel IH]; intros i st1 st2 H; [done|].
  cbn [upsertLoop]. destruct (i <? length nd)%nat; [|done].
  apply IH. unfold upsertBatch. destruct (upsertError w city i); simpl; congruence.
Qed.

Lemma syncCityData_outcome_indep w city db db' :
  (syncCityData w city db).2 = (syncCityData w city db').2.
Proof.
  unfold syncCityData, syncCityDataWith.
  destruct (cityRecords w city) as [r|nd]; [done|].
  destruct (serverConfigured w (Some city)); [|done].
  pose proof (upsertLoop_count_indep w city nd (S (length nd)) 0
    {| lands := unclaimed_lands db; calls := upsert_calls db; totalRecords := 0 |}
    {| lands := unclaimed_lands db'; calls := upsert_calls db'; totalRecords := 0 |}
    eq_refl) as H.
  destruct (upsertLoop _ _ _ _ _ _) as [a|];
    destruct (upsertLoop _ _ _ _ _ _) as [b|]; try done.
  simpl. by rewrite H.
Qed.

Lemma syncRound_results w round city db results :
  (syncRound w round city (db, results)).2 = results ++ [cityResult w city].
Proof.
  unfold syncRound, cityResult.
  rewrite (syncCityData_outcome_indep w city emptyDb
             (insertLog (randomUUID w round) city db)).
  destruct (syncCityData w city _) as [db2 [result|msg]]; reflexivity.
Qed.

Lemma syncCities_results w cities round db results :
  (syncCities w round cities (db, results)).2 = results ++ map (cityResult w) cities.
Proof.
  revert round db results.
  induction cities as [|city cities IH]; intros round db results; cbn [syncCities map].
  - by rewrite app_nil_r.
  - destruct (syncRound w round city (db, results)) as [db' results'] eqn:E.
    rewrite IH. pose proof (syncRound_results w round city db results) as H.
    rewrite E in H. simpl in H. rewrite H. by rewrite <- app_assoc.
Qed.

Lemma cityResult_city w city : SyncResult.city (cityResult w city) = city.
Proof.
  unfold cityResult, syncCityData, syncCityDataWith, cityRecords.
  destruct (dispatch city) as [[f p]|]; [|done].
  destruct (negb _ || negb _); [done|].
  destruct (serverConfigured w (Some city)); [|done].
  by destruct (upsertLoop _ _ _ _ _ _).
Qed.

Lemma cityResult_fetch_failed w city f p :
  dispatch city = Some (f, p) ->
  success (runFetch w f) = false \/ truthyS (data (runFetch w f)) = false ->
  cityResult w city =
    {| SyncResult.city := city; SyncResult.success := false;
       SyncResult.recordCount := 0;
       SyncResult.error :=
         Some (orDefault (error (runFetch w f)) "Failed to fetch data") |}.
Proof.
  intros Hd Hfail.
  unfold cityResult, syncCityData, syncCityDataWith, cityRecords. rewrite Hd.
  assert (negb (success (runFetch w f)) || negb (truthyS (data (runFetch w f))) = true)
    as ->; [|done].
  destruct Hfail as [-> | ->]; [done | by rewrite orb_true_r].
Qed.

Lemma cityResult_synced w city f p :
  dispatch city = Some (f, p) ->
  success (runFetch w f) = true ->
  truthyS (data (runFetch w f)) = true ->
  serverConfigured w (Some city) = true ->
  SyncResult.success (cityResult w city) = true.
Proof.
  intros Hd Hs Ht Hc.
  destruct (cityRecords w city) as [r|nd] eqn:Hrec.
  { unfold cityRecords in Hrec. rewrite Hd, Hs, Ht in Hrec. done. }
  destruct (syncCityData_fetched w city emptyDb nd Hrec Hc)
    as (st & new & _ & Hsync & _).
  unfold cityResult. by rewrite Hsync.
Qed.

(** C1.  For every run over a list of cities, the response carries one
    result per city, in order, each being what the sync of that city yields
    on its own, whatever happened to the cities before it; the run-level
    flag is true exactly when every city succeeded; a city whose fetch fails
    is reported as failed with no records; and a city whose fetch succeeds
    is reported as successful. *)
Theorem partial_failure_isolation w cities db :
  let results := map (cityResult w) cities in
  (exists db' syncedAt,
     syncAll w cities db =
       (db', {| status := 200;
                body := SyncBody (forallb SyncResult.success results) syncedAt results |})) /\
  map SyncResult.city results = cities /\
  (forallb SyncResult.success results = true <->
     forall city, city ∈ cities -> SyncResult.success (cityResult w city) = true) /\
  (forall city f p,
     dispatch city = Some (f, p) ->
     success (runFetch w f) = false \/ truthyS (data (runFetch w f)) = false ->
     cityResult w city =
       {| SyncResult.city := city; SyncResult.success := false;
          SyncResult.recordCount := 0;
          SyncResult.error :=
            Some (orDefault (error (runFetch w f)) "Failed to fetch data") |}) /\
  (forall city f p,
     dispatch city = Some (f, p) ->
     success (runFetch w f) = true ->
     truthyS (data (runFetch w f)) = true ->
     serverConfigured w (Some city) = true ->
     SyncResult.success (cityResult w city) = true).
Proof.
  intros results. split; [|split; [|split; [|split]]].
  - unfold syncAll.
    pose proof (syncCities_results w cities 0 db []) as H.
    destruct (syncCities w 0 cities (db, [])) as [db' rs]. simpl in H. subst rs.
    by eexists _, _.
  - unfold results. rewrite <- list_fmap_compose.
    rewrite <- (list_fmap_id cities) at 2. apply list_fmap_ext.
    intros _ city _. apply cityResult_city.
  - unfold results. rewrite forallb_forall. split.
    + intros H city Hin. apply H, list_elem_of_In. by apply list_elem_of_fmap_2.
    + intros H r Hr. apply list_elem_of_In, list_elem_of_fmap in Hr as (city & -> & Hin).
      by apply H.
  - apply cityResult_fetch_failed.
  - apply cityResult_synced.
Qed.

Lemma partial_failure_isolation_witness :
  cityResult taipeiDownWorld "台北市" =
    {| SyncResult.city := "台北市"; SyncResult.success := false;
       SyncResult.recordCount := 0;
       SyncResult.error := Some "Failed to fetch: 503" |} /\
  SyncResult.success (cityResult taipeiDownWorld "嘉義市") = true /\
  SyncResult.success (cityResult taipeiDownWorld "彰化縣") = true /\
  exists db' syncedAt,
    syncAll taipeiDownWorld threeCities emptyDb =
      (db', {| status := 200;
               body := SyncBody false syncedAt
                         (map (cityResult taipeiDownWorld) threeCities) |}).
Proof.
  pose proof (partial_failure_isolation taipeiDownWorld threeCities emptyDb) as H.
  cbv zeta in H. destruct H as (Hrun & _ & _ & Hfail & Hok).
  split; [|split; [|split]].
  - rewrite (Hfail "台北市" (FromTaipei "134972") Taipei).
    + vm_compute. reflexivity.
    + reflexivity.
    + left. vm_compute. reflexivity.
  - apply (Hok "嘉義市" (FromDataGov "52344") (Chiayi false)).
    + reflexivity.
    + vm_compute. reflexivity.
    + vm_compute. reflexivity.
    + reflexivity.
  - apply (Hok "彰化縣" (FromDataGov "28529") Changhua).
    + reflexivity.
    + vm_compute. reflexivity.
    + vm_compute. reflexivity.
    + reflexivity.
  - destruct Hrun as (db' & syncedAt & Hrun). exists db', syncedAt.
    assert (Hflag : forallb SyncResult.success
                      (map (cityResult taipeiDownWorld) threeCities) = false)
      by (vm_compute; reflexivity).
    rewrite Hflag in Hrun. exact Hrun.
Defined.

(** The scenario of the specification, evaluated: three cities, the fetch
    of the second one fails. *)
Example three_city_run :
  (syncAll taipeiDownWorld threeCities emptyDb).2 =
    {| status := 200;
       body :=
         SyncBody false "2026-01-01T03:00:00.000Z"
           [ {| SyncResult.city := "嘉義市"; SyncResult.success := true;
                SyncResult.recordCount := 2; SyncResult.error := None |};
             {| SyncResult.city := "台北市"; SyncResult.success := false;
                SyncResult.recordCount := 0;
                SyncResult.error := Some "Failed to fetch: 503" |};
             {| SyncResult.city := "彰化縣"; SyncResult.success := true;
                SyncResult.recordCount := 1; SyncResult.error := None |} ] |}.
Proof. vm_compute. reflexivity. Qed.

(** Two runs of the same city: 150 rows after the first, 150 after the
    second. *)
Example sync_twice_run :
  let db1 := (syncCityData flakyStoreWorld "彰化縣" emptyDb).1 in
  let db2 := (syncCityData flakyStoreWorld "彰化縣" db1).1 in
  size (unclaimed_lands db1) = 150%nat /\ size (unclaimed_lands db2) = 150%nat.
Proof. vm_compute. split; reflexivity. Qed.

(** [GET] runs the sync over the four cities once the request has passed
    the check of the cron secret and the client could be created. *)
Lemma GET_runs_sync w request db secret :
  (CRON_SECRET request = Some secret /\ secret <> "" /\
   authorization request = Some ("Bearer " +:+ secret)) \/
  (truthyS (CRON_SECRET request) = false /\ NODE_ENV request <> Some "production") ->
  serverConfigured w None = true ->
  GET w request db = syncAll w CITIES db.
Proof.
  intros Hauth Hconf. unfold GET. rewrite Hconf.
  destruct Hauth as [(Hs & Hne & Ha) | (Hs & Hp)].
  - rewrite Hs, Ha. simpl.
    destruct (String.eqb secret "") eqn:E;
      [by apply String.eqb_eq in E|].
    simpl. by rewrite String.eqb_refl.
  - rewrite Hs. by destruct (decide (NODE_ENV request = Some "production")).
Qed.

(** * Further properties of the pipeline *)

(** ** Parsers *)

Lemma imap_fmap_const {A B C} (f : nat -> A -> B) (g : B -> C) (h : A -> C) (l : list A) :
  (forall i a, g (f i a) = h a) -> map g (imap f l) = map h l.
Proof.
  intros H. revert f H. induction l as [|a l IH]; intros f H; simpl; [done|].
  rewrite H. f_equal. apply IH. intros i b. apply H.
Qed.

Lemma filter_length_le {A} (f : A -> bool) (l : list A) :
  (length (List.filter f l) <= length l)%nat.
Proof. induction l as [|a l IH]; simpl; [lia|]. destruct (f a); simpl; lia. Qed.

(** X1.  Every parser emits exactly one record per row that has an owner
    name or a land number, in the order of the input, each carrying its row
    as [rawData] and the parser's city as [sourceCity]; so it never emits
    more records than there are rows. *)
Theorem parser_output_rows pf p rows :
  map RawLandData.rawData (parseRows pf p rows) =
    map Some (List.filter (fun row => hasOwnerName p row || hasLandNumber row) rows) /\
  map RawLandData.sourceCity (parseRows pf p rows) =
    map (fun _ => parserCityName p)
      (List.filter (fun row => hasOwnerName p row || hasLandNumber row) rows) /\
  (length (parseRows pf p rows) <= length rows)%nat.
Proof.
  assert (Hf : List.filter (parserKeep p) rows =
               List.filter (fun row => hasOwnerName p row || hasLandNumber row) rows).
  { apply filter_ext. intros row. apply parserKeep_spec. }
  rewrite parseRows_unfold, Hf. split; [|split].
  - apply imap_fmap_const. intros i row. apply parserRecord_rawData.
  - apply imap_fmap_const. intros i row. by destruct p.
  - rewrite length_imap. apply filter_length_le.
Qed.

Lemma orDefault_nonempty a d : d <> "" -> orDefault a d <> "".
Proof.
  intros Hd. destruct a as [s|]; simpl; [|done].
  destruct (String.eqb s "") eqn:E; [done|]. by apply String.eqb_neq in E.
Qed.

Lemma placeholder_nonempty i : placeholder i <> "".
Proof. unfold placeholder. simpl. discriminate. Qed.

(** X2.  No record a parser emits has an empty district, an empty land
    number or an empty status.  The record at position [i] of the output
    whose row has no district is in [未知區], whose row has no status is
    [列管中], and whose row has no land number (and, for Chiayi, no
    sub-section) has the land number [unknown-i]. *)
Theorem parser_record_texts_nonempty pf p rows i x :
  parseRows pf p rows !! i = Some x ->
  RawLandData.district x <> "" /\
  RawLandData.landNumber x <> "" /\
  (exists s, RawLandData.status x = Some s /\ s <> "") /\
  exists row,
    RawLandData.rawData x = Some row /\
    (truthyS (districtCell p row) = false -> RawLandData.district x = "未知區") /\
    (truthyS (statusCell p row) = false -> RawLandData.status x = Some "列管中") /\
    (getsPlaceholder p row = true ->
       RawLandData.landNumber x = "unknown-" +:+ pretty i).
Proof.
  intros Hx. apply parseRows_lookup in Hx as (row & _ & ->).
  split; [|split; [|split]].
  - destruct p; simpl; by apply orDefault_nonempty.
  - destruct p; simpl; repeat apply orDefault_nonempty;
      apply (placeholder_nonempty i).
  - destruct p; simpl; eexists; (split; [reflexivity|]);
      by apply orDefault_nonempty.
  - exists row. split; [apply parserRecord_rawData|]. split; [|split].
    + intros H. destruct p; simpl in *; by rewrite (orDefault_falsy _ _ H).
    + intros H. destruct p; simpl in *; by rewrite (orDefault_falsy _ _ H).
    + apply parserRecord_placeholder.
Qed.

Lemma parser_record_texts_nonempty_witness :
  RawLandData.district (TaipeiParser.toRecord noFloat 0 (owner "甲")) = "未知區" /\
  RawLandData.landNumber (TaipeiParser.toRecord noFloat 0 (owner "甲")) = "unknown-0" /\
  RawLandData.status (TaipeiParser.toRecord noFloat 0 (owner "甲")) = Some "列管中".
Proof.
  destruct (parser_record_texts_nonempty noFloat Taipei [owner "甲"] 0
              (TaipeiParser.toRecord noFloat 0 (owner "甲")) eq_refl)
    as (_ & _ & _ & row & Hrow & Hd & Hs & Hl).
  injection Hrow as <-.
  split; [apply Hd; reflexivity|]. split; [apply Hl; reflexivity|].
  apply Hs. reflexivity.
Defined.

Lemma parseArea_not_NaN pf a : AbstractParser.parseArea pf a <> Some NaN.
Proof.
  unfold AbstractParser.parseArea. destruct a as [s|]; [|done].
  destruct (String.eqb s ""); [done|].
  destruct (pf (AbstractParser.removeCommas s)); simpl; done.
Qed.

Lemma parserRecord_areaM2 pf p i row :
  exists a, RawLandData.areaM2 (parserRecord pf p i row) = AbstractParser.parseArea pf a.
Proof. destruct p; eexists; reflexivity. Qed.

(** X3.  For every record a parser emits: [areaM2] is never NaN; an
    [areaPing] is there exactly when [areaM2] is there and is not zero, and
    it is then the ping value of that area, [Number((areaM2 / 3.30579).toFixed(2))];
    for a finite area of size at most 10^12 it is finite and lies within
    0.00507 of [areaM2 / 3.30579]. *)
Theorem parser_area_fields pf p rows x :
  x ∈ parseRows pf p rows ->
  RawLandData.areaM2 x <> Some NaN /\
  (is_Some (RawLandData.areaPing x) <-> truthyN (RawLandData.areaM2 x) = true) /\
  (forall a, RawLandData.areaM2 x = Some a -> truthyN (Some a) = true ->
     RawLandData.areaPing x = Some (AbstractParser.m2ToPing a)) /\
  (forall q, RawLandData.areaM2 x = Some (Finite q) -> ~ (q == 0)%Q ->
     (Qabs q <= 1000000000000)%Q ->
     exists ping, RawLandData.areaPing x = Some (Finite ping) /\
                  (Qabs (ping - q / PING) <= 507 # 100000)%Q).
Proof.
  intros Hx. apply parseRows_elem in Hx as (i & row & _ & ->).
  pose proof (parserRecord_area pf p i row) as Hping.
  destruct (parserRecord_areaM2 pf p i row) as [src Hm2].
  split; [rewrite Hm2; apply parseArea_not_NaN|].
  destruct (RawLandData.areaM2 (parserRecord pf p i row)) as [a|] eqn:Ha.
  - split; [|split].
    + rewrite Hping. destruct (truthyN (Some a)) eqn:Ht.
      * split; [done | by eexists].
      * split; [by intros [? ?] | done].
    + intros a' [= <-] Ht. by rewrite Hping, Ht.
    + intros q [= ->] Hq Hsize.
      destruct (m2ToPing_close q Hsize) as (ping & Hp & Hclose).
      exists ping. split; [|exact Hclose].
      rewrite Hping, <- Hp. cbn [truthyN].
      destruct (Qeq_bool q 0) eqn:E; [by apply Qeq_bool_iff in E|done].
  - rewrite Hping. split; [split; [by intros [? ?] | done] | split; done].
Qed.

Lemma parser_area_fields_witness :
  RawLandData.areaM2 (ChanghuaParser.toRecord sampleFloat 0 wangRow) <> Some NaN /\
  RawLandData.areaPing (ChanghuaParser.toRecord sampleFloat 0 wangRow)
    = Some (AbstractParser.m2ToPing (Finite (1505 # 10))) /\
  exists ping,
    RawLandData.areaPing (ChanghuaParser.toRecord sampleFloat 0 wangRow)
      = Some (Finite ping) /\
    (Qabs (ping - (1505 # 10) / PING) <= 507 # 100000)%Q.
Proof.
  destruct (parser_area_fields sampleFloat Changhua [wangRow]
              (ChanghuaParser.toRecord sampleFloat 0 wangRow))
    as (Hnan & _ & Hping & Hclose).
  - apply list_elem_of_lookup. exists 0%nat. reflexivity.
  - split; [exact Hnan|]. split; [apply Hping; vm_compute; reflexivity|].
    apply Hclose; [vm_compute; reflexivity | | vm_compute; discriminate].
    intros H. vm_compute in H. discriminate H.
Defined.

(** ** Owner names *)

Lemma stripPrefix_single c s :
  stripPrefix (String c EmptyString) s =
  match s with
  | String b rest => if Ascii.eqb c b then Some rest else None
  | EmptyString => None
  end.
Proof. by destruct s. Qed.

Lemma firstStrip_none_asciiSpace c rest :
  firstStrip AbstractParser.whitespace (String c rest) = None -> asciiSpace c = false.
Proof.
  intros H. destruct (asciiSpace c) eqn:Hc; [|done]. exfalso.
  assert (Hcases : c = ascii_of_nat 9 \/ c = ascii_of_nat 10 \/ c = ascii_of_nat 11 \/
                   c = ascii_of_nat 12 \/ c = ascii_of_nat 13 \/ c = ascii_of_nat 32).
  { unfold asciiSpace in Hc. rewrite <- (ascii_nat_embedding c).
    pose proof (nat_ascii_bounded c) as Hb.
    destruct (nat_of_ascii c) as [|n]; [done|].
    do 32 (destruct n as [|n]; [simpl in Hc; try done; auto 10|]).
    exfalso. simpl in Hc. done. }
  destruct Hcases as [-> | [-> | [-> | [-> | [-> | ->]]]]]; simpl in H; discriminate.
Qed.

Lemma string_length_app s1 s2 :
  String.length (s1 +:+ s2) = (String.length s1 + String.length s2)%nat.
Proof. induction s1 as [|c s1 IH]; simpl; [done | by rewrite IH]. Qed.

Lemma whitespace_nonempty p :
  p ∈ AbstractParser.whitespace -> (1 <= String.length p)%nat.
Proof.
  intros Hp.
  assert (H : forallb (fun q => (1 <=? String.length q)%nat) AbstractParser.whitespace = true)
    by reflexivity.
  rewrite forallb_forall in H. apply Nat.leb_le, H. by apply list_elem_of_In.
Qed.

Lemma removeWhitespace_chars fuel s c :
  (String.length s <= fuel)%nat ->
  c ∈ chars (AbstractParser.removeWhitespace fuel s) -> asciiSpace c = false.
Proof.
  revert s. induction fuel as [|fuel IH]; intros s Hlen.
  - destruct s; [|simpl in Hlen; lia]. simpl. by intros ?%elem_of_nil.
  - destruct s as [|b rest]; [simpl; by intros ?%elem_of_nil|].
    cbn [AbstractParser.removeWhitespace].
    destruct (firstStrip AbstractParser.whitespace (String b rest)) as [s'|] eqn:E.
    + apply IH. apply firstStrip_Some in E as (p & Hp & Heq).
      apply (f_equal String.length) in Heq. rewrite string_length_app in Heq.
      apply whitespace_nonempty in Hp. simpl in Hlen, Heq. lia.
    + simpl. intros [-> | Hin]%elem_of_cons.
      * by apply (firstStrip_none_asciiSpace _ rest).
      * revert Hin. apply IH. simpl in Hlen. lia.
Qed.

Lemma removeWhitespace_spaceFree fuel s :
  spaceFree s = true -> AbstractParser.removeWhitespace fuel s = s.
Proof.
  revert s. induction fuel as [|fuel IH]; intros s H; [done|].
  destruct s as [|c rest]; [done|].
  cbn [AbstractParser.removeWhitespace]. cbn [spaceFree] in H.
  destruct (firstStrip AbstractParser.whitespace (String c rest)); [done|].
  by rewrite IH.
Qed.

(** X4.  [cleanOwnerName] gives [undefined] for a missing or empty name;
    otherwise the cleaned name holds no tab, line break or space, and a name
    in which no whitespace character occurs comes back unchanged. *)
Theorem cleanOwnerName_clean (name : option string) :
  (truthyS name = false -> AbstractParser.cleanOwnerName name = None) /\
  (forall s, name = Some s -> s <> "" ->
     exists cleaned,
       AbstractParser.cleanOwnerName name = Some cleaned /\
       (forall c, c ∈ chars cleaned -> asciiSpace c = false) /\
       (spaceFree s = true -> cleaned = s)).
Proof.
  split; [apply cleanOwnerName_falsy|].
  intros s -> Hs. unfold AbstractParser.cleanOwnerName.
  destruct (String.eqb s "") eqn:E; [by apply String.eqb_eq in E|].
  eexists. split; [reflexivity|]. split.
  - intros c. by apply removeWhitespace_chars.
  - apply removeWhitespace_spaceFree.
Qed.

Lemma cleanOwnerName_clean_witness :
  exists cleaned,
    AbstractParser.cleanOwnerName (Some " 王 O ") = Some cleaned /\
    (forall c, c ∈ chars cleaned -> asciiSpace c = false) /\
    (spaceFree " 王 O " = true -> cleaned = " 王 O ").
Proof.
  apply (proj2 (cleanOwnerName_clean (Some " 王 O ")) " 王 O "); [reflexivity | discriminate].
Defined.

Example cleanOwnerName_run :
  AbstractParser.cleanOwnerName (Some " 王 O　x ") = Some "王Ox" /\
  AbstractParser.cleanOwnerName (Some "   ") = Some "" /\
  AbstractParser.cleanOwnerName (Some "") = None.
Proof. repeat split; vm_compute; reflexivity. Qed.

(** ** Normalizer *)

Lemma normalizeRecord_city sourceUrl data :
  NormalizedLand.sourceCity (normalizeRecord sourceUrl data)
    = normalizeCity (RawLandData.sourceCity data).
Proof. reflexivity. Qed.

Lemma CITY_NAME_MAP_values city canonical :
  CITY_NAME_MAP !! city = Some canonical ->
  canonical ∈ [ "台北市"; "新北市"; "嘉義市"; "嘉義縣"; "彰化縣" ].
Proof.
  intros H. apply elem_of_list_to_map_2 in H.
  repeat (apply elem_of_cons in H as [[= _ <-] | H];
          [repeat ((by left) || right)|]).
  by apply elem_of_nil in H.
Qed.

(** X5.  City names are normalized once and for all: a name that is
    neither a key of [CITY_NAME_MAP] nor inherited from [Object.prototype]
    passes through unchanged, a key is replaced by one of the five canonical
    names, and normalizing a name that came out again changes nothing.  An
    inherited name is replaced by the member it names, which is no text. *)
Theorem normalizeCity_canonical (city : string) :
  (CITY_NAME_MAP !! city = None -> city ∉ objectPrototype ->
     normalizeCity city = Plain city) /\
  (is_Some (CITY_NAME_MAP !! city) ->
     exists c, normalizeCity city = Plain c /\
               c ∈ [ "台北市"; "新北市"; "嘉義市"; "嘉義縣"; "彰化縣" ]) /\
  (city ∈ objectPrototype -> normalizeCity city = Inherited city) /\
  (forall c, normalizeCity city = Plain c -> normalizeCity c = Plain c).
Proof.
  assert (Hfix : forall c : string,
            c ∈ [ "台北市"; "新北市"; "嘉義市"; "嘉義縣"; "彰化縣" ] ->
            c <> "" /\ normalizeCity c = Plain c).
  { intros c Hc.
    repeat (apply elem_of_cons in Hc as [-> | Hc]; [split; [discriminate | reflexivity]|]).
    by apply elem_of_nil in Hc. }
  destruct (CITY_NAME_MAP !! city) as [canonical|] eqn:E.
  - pose proof (CITY_NAME_MAP_values _ _ E) as Hc.
    destruct (Hfix _ Hc) as [Hne Hsame].
    assert (Hn : normalizeCity city = Plain canonical).
    { unfold normalizeCity. rewrite (get_own _ _ _ E).
      destruct (String.eqb canonical "") eqn:E0; [by apply String.eqb_eq in E0|done]. }
    rewrite Hn. split; [done|]. split; [by eexists|]. split.
    + intros Hin. destruct (tables_own_no_inherited city Hin) as (_ & _ & H).
      congruence.
    + by intros c [= <-].
  - destruct (decide (city ∈ objectPrototype)) as [Hin|Hnot].
    + assert (Hn : normalizeCity city = Inherited city).
      { unfold normalizeCity. by rewrite (get_inherited _ _ E Hin). }
      rewrite Hn. split; [done|]. split; [by intros [? ?]|]. split; done.
    + assert (Hn : normalizeCity city = Plain city).
      { unfold normalizeCity. by rewrite (get_absent _ _ E Hnot). }
      rewrite Hn. split; [done|]. split; [by intros [? ?]|]. split; [done|].
      by intros c [= <-].
Qed.

Lemma normalizeCity_canonical_witness :
  normalizeCity "臺北市" = Plain "台北市" /\
  (exists c, normalizeCity "NewTaipei" = Plain c /\
             c ∈ [ "台北市"; "新北市"; "嘉義市"; "嘉義縣"; "彰化縣" ]) /\
  normalizeCity "高雄市" = Plain "高雄市" /\
  normalizeCity "constructor" = Inherited "constructor".
Proof.
  split; [reflexivity|]. split; [|split].
  - apply (proj1 (proj2 (normalizeCity_canonical "NewTaipei"))). by eexists.
  - apply (proj1 (normalizeCity_canonical "高雄市")); [reflexivity|].
    apply (bool_decide_unpack _). vm_compute. reflexivity.
  - apply (proj1 (proj2 (proj2 (normalizeCity_canonical "constructor")))).
    apply (bool_decide_unpack _). vm_compute. reflexivity.
Defined.

(** X6.  Area fields of the normalizer: a raw [areaPing] that is there and
    not zero is passed through; without it, a finite non-zero [areaM2] [a]
    is kept and [areaPing] is derived from it, and for [a] of size at most
    10^12 the derived value is finite and within 0.00507 of [a / 3.30579];
    a normalized [areaM2] is never 0 and never NaN. *)
Theorem normalizeRecord_area sourceUrl data :
  (truthyN (RawLandData.areaPing data) = true ->
     NormalizedLand.areaPing (normalizeRecord sourceUrl data) = RawLandData.areaPing data) /\
  (forall a, truthyN (RawLandData.areaPing data) = false ->
     RawLandData.areaM2 data = Some (Finite a) -> ~ (a == 0)%Q ->
     NormalizedLand.areaM2 (normalizeRecord sourceUrl data) = Some (Finite a) /\
     NormalizedLand.areaPing (normalizeRecord sourceUrl data)
       = Some (AbstractParser.m2ToPing (Finite a)) /\
     ((Qabs a <= 1000000000000)%Q ->
      exists ping,
        NormalizedLand.areaPing (normalizeRecord sourceUrl data) = Some (Finite ping) /\
        (Qabs (ping - a / PING) <= 507 # 100000)%Q)) /\
  (forall q, NormalizedLand.areaM2 (normalizeRecord sourceUrl data) = Some (Finite q) ->
     ~ (q == 0)%Q) /\
  NormalizedLand.areaM2 (normalizeRecord sourceUrl data) <> Some NaN.
Proof.
  unfold normalizeRecord, orNullN.
  cbn [NormalizedLand.areaM2 NormalizedLand.areaPing].
  split; [by intros ->|]. split; [|split].
  - intros a -> -> Ha.
    assert (Ht : truthyN (Some (Finite a)) = true).
    { simpl. destruct (Qeq_bool a 0) eqn:E; [by apply Qeq_bool_iff in E|done]. }
    rewrite Ht. split; [done|]. split; [reflexivity|].
    intros Hsize. destruct (m2ToPing_close a Hsize) as (ping & Hp & Hclose).
    exists ping. split; [|exact Hclose]. by rewrite <- Hp.
  - intros q. destruct (truthyN (RawLandData.areaM2 data)) eqn:Ht; [|done].
    intros Hq Hz. rewrite Hq in Ht. by rewrite (truthyN_zero q Hz) in Ht.
  - destruct (truthyN (RawLandData.areaM2 data)) eqn:Ht; [|done].
    intros Hq. by rewrite Hq in Ht.
Qed.

Lemma normalizeRecord_area_witness :
  NormalizedLand.areaM2
    (normalizeRecord None (ChanghuaParser.toRecord noFloat 0 landOnly)) <> Some NaN /\
  NormalizedLand.areaPing (normalizeRecord None (zeroArea (Some (Finite 5))))
    = Some (Finite 5) /\
  exists ping,
    NormalizedLand.areaPing (normalizeRecord None (bareArea (1505 # 10)))
      = Some (Finite ping) /\
    (Qabs (ping - (1505 # 10) / PING) <= 507 # 100000)%Q.
Proof.
  split; [|split].
  - apply (proj2 (proj2 (proj2 (normalizeRecord_area None
             (ChanghuaParser.toRecord noFloat 0 landOnly))))).
  - apply (proj1 (normalizeRecord_area None (zeroArea (Some (Finite 5))))). reflexivity.
  - apply (proj1 (proj2 (normalizeRecord_area None (bareArea (1505 # 10))))
             (1505 # 10)).
    + reflexivity.
    + reflexivity.
    + intros H. vm_compute in H. discriminate H.
    + vm_compute. discriminate.
Defined.

(** Every district of a city that has a centre gets something for
    coordinates, and a pair unless the district, as it is or without a
    leading city name, is a name inherited from [Object.prototype]. *)
Lemma getCoordinates_with_centre city district :
  is_Some (cityCenters !! city) ->
  is_Some (getCoordinatesForDistrict (Plain city) district) /\
  (district ∉ objectPrototype -> removeCityPrefix district ∉ objectPrototype ->
   exists c, getCoordinatesForDistrict (Plain city) district = Some (Plain c)).
Proof.
  intros [c Hc]. unfold getCoordinatesForDistrict, cityCenter.
  rewrite (get_own _ _ _ Hc). split.
  - destruct (get DISTRICT_COORDS district); [by eexists|].
    destruct (get DISTRICT_COORDS (removeCityPrefix district)); by eexists.
  - intros H1 H2. unfold get.
    rewrite (bool_decide_eq_false_2 _ H1), (bool_decide_eq_false_2 _ H2).
    destruct (DISTRICT_COORDS !! district); [by eexists|].
    destruct (DISTRICT_COORDS !! removeCityPrefix district); by eexists.
Qed.

Lemma getCoordinates_inherited city district :
  district ∈ objectPrototype ->
  getCoordinatesForDistrict city district = Some (Inherited district).
Proof.
  intros Hin. unfold getCoordinatesForDistrict.
  destruct (tables_own_no_inherited district Hin) as (Hd & _).
  by rewrite (get_inherited _ _ Hd Hin).
Qed.

(** ** Fetcher *)

Lemma paginate_return_failure w datasetId fuel offset allRecords requests requests' result :
  paginate w datasetId fuel offset allRecords requests = Some (requests', Return result) ->
  exists msg, result = failure msg.
Proof.
  revert offset allRecords requests.
  induction fuel as [|fuel IH]; intros offset acc reqs H; [done|].
  simpl in H. destruct (taipeiPage w datasetId offset) as [e|st|records]; [done| |].
  - injection H as _ <-. by eexists.
  - destruct (length records =? 0)%nat; [done|].
    destruct (Z.of_nat (length (acc ++ records)) >? safetyLimit)%Z; [done|].
    by apply IH in H.
Qed.

Lemma failure_wellFormed msg : wellFormed (failure msg).
Proof. unfold wellFormed. simpl. split; [done|]. split; [by eexists | done]. Qed.

(** X7.  Both fetchers return a well-formed result whatever the portals
    do: a success carries data, a record count and no error; a failure
    carries an error message, no data and no count.  A success of the
    paginated fetch never carries zero records. *)
Theorem fetch_results_wellFormed w datasetId :
  wellFormed (fetchFromDataGov w datasetId) /\
  wellFormed (fetchFromTaipei w datasetId) /\
  (success (fetchFromTaipei w datasetId) = true ->
     exists n, recordCount (fetchFromTaipei w datasetId) = Some (S n)).
Proof.
  split; [|].
  - unfold fetchFromDataGov.
    destruct (dataGovMeta w datasetId) as [e|st|resources];
      [apply failure_wellFormed..|].
    destruct (match resources with Some rs => _ | None => None end) as [r|];
      [|apply failure_wellFormed].
    destruct (truthyS (resourceDownloadUrl r)); [|apply failure_wellFormed].
    destruct (dataGovCsv w _) as [e|st|csvData]; [apply failure_wellFormed..|].
    unfold wellFormed. simpl. split; [by eexists|]. split; [done | by eexists].
  - destruct (paginate_terminates w datasetId enoughFuel 0 [] []) as [[requests exit] Hrun].
    { unfold enoughFuel, safetyLimit. lia. }
    { unfold enoughFuel, safetyLimit. cbn [length]. lia. }
    rewrite (fetchFromTaipei_finish _ _ _ _ Hrun).
    destruct exit as [all|result|e]; cbn [finish].
    + destruct (Nat.eqb_spec (length all) 0) as [H0|H0].
      * split; [apply failure_wellFormed | done].
      * split.
        -- unfold wellFormed. simpl. split; [by eexists|]. split; [done | by eexists].
        -- intros _. simpl. destruct (length all) as [|n]; [done | by eexists].
    + apply paginate_return_failure in Hrun as [msg ->].
      split; [apply failure_wellFormed | done].
    + split; [apply failure_wellFormed | done].
Qed.

Lemma fetch_results_wellFormed_witness :
  wellFormed (fetchFromTaipei twoPagesWorld "134972") /\
  exists n, recordCount (fetchFromTaipei twoPagesWorld "134972") = Some (S n).
Proof.
  destruct (fetch_results_wellFormed twoPagesWorld "134972") as (_ & Hwf & Hcount).
  split; [exact Hwf|]. apply Hcount. vm_compute. reflexivity.
Defined.

(** X8.  [fetchFromDataGov] succeeds exactly when the metadata request is
    answered, the first resource tagged CSV (in either format field, in any
    letter case) has a download URL and that URL delivers its text; the
    data is then this text, unchanged. *)
Theorem fetchFromDataGov_success w datasetId text :
  (success (fetchFromDataGov w datasetId) = true /\
   data (fetchFromDataGov w datasetId) = Some text) <->
  exists resources r url,
    dataGovMeta w datasetId = Ok resources /\
    csvResource resources = Some r /\
    resourceDownloadUrl r = Some url /\ url <> "" /\
    dataGovCsv w url = Ok text.
Proof.
  unfold fetchFromDataGov, csvResource. split.
  - destruct (dataGovMeta w datasetId) as [e|st|resources]; [by intros [? _]..|].
    destruct (match resources with Some rs => _ | None => None end) as [r|] eqn:Hr;
      [|by intros [? _]].
    destruct (resourceDownloadUrl r) as [url|] eqn:Hu; [|by intros [? _]].
    simpl. destruct (String.eqb url "") eqn:E; [by intros [? _]|].
    simpl. destruct (dataGovCsv w url) as [e|st|csvData] eqn:Hc; [by intros [? _]..|].
    simpl. intros [_ [= <-]]. exists resources, r, url.
    repeat split; try done. by apply String.eqb_neq.
  - intros (resources & r & url & -> & Hr & Hu & Hne & Hc).
    rewrite Hr, Hu. simpl. apply String.eqb_neq in Hne. rewrite Hne. simpl.
    by rewrite Hc.
Qed.

Lemma fetchFromDataGov_success_witness :
  success (fetchFromDataGov taipeiDownWorld "28529") = true /\
  data (fetchFromDataGov taipeiDownWorld "28529") = Some "28529".
Proof.
  apply (proj2 (fetchFromDataGov_success taipeiDownWorld "28529" "28529")).
  eexists _, _, "28529". repeat split; try reflexivity. discriminate.
Defined.

(** An upstream that breaks after its first page. *)
Lemma paginate_fails_at fuel w datasetId k m allRecords requests (pages : list (list Row))
    (last : Response (list Row)) :
  length pages = m ->
  (forall j records, pages !! j = Some records ->
     taipeiPage w datasetId (Z.of_nat (k + j) * limit) = Ok records /\ records <> []) ->
  taipeiPage w datasetId (Z.of_nat (k + m) * limit) = last ->
  (forall records, last <> Ok records) ->
  (Z.of_nat (length (allRecords ++ concat pages)) <= safetyLimit)%Z ->
  (m < fuel)%nat ->
  exists requests' exit,
    paginate w datasetId fuel (Z.of_nat k * limit) allRecords requests
      = Some (requests', exit) /\
    length requests' = (length requests + S m)%nat /\
    match last with
    | Threw e => exit = Raise e
    | NotOk st => exit = Return (failure ("Failed to fetch: " +:+ pretty st))
    | Ok _ => False
    end.
Proof.
  revert k m fuel allRecords requests.
  induction pages as [|page pages IH]; intros k m fuel acc reqs <- Hpages Hlast Hbad Hcap Hfuel.
  - destruct fuel as [|fuel]; [lia|]. simpl in *.
    rewrite Nat.add_0_r in Hlast. rewrite Hlast.
    destruct last as [e|st|records]; [| |by destruct (Hbad records)];
      eexists _, _; (split; [reflexivity|]); rewrite length_app; simpl; split; (lia || done).
  - destruct fuel as [|fuel]; [simpl in Hfuel; lia|].
    destruct (Hpages 0%nat page eq_refl) as [Hp Hne].
    rewrite Nat.add_0_r in Hp. simpl. rewrite Hp.
    destruct (length page =? 0)%nat eqn:Hlen.
    { apply Nat.eqb_eq in Hlen. by destruct page. }
    simpl in Hcap. rewrite app_assoc in Hcap.
    destruct (Z.gtb_spec (Z.of_nat (length (acc ++ page))) safetyLimit) as [Hc|Hc].
    { rewrite length_app in Hcap. lia. }
    replace (Z.of_nat k * limit + limit)%Z with (Z.of_nat (S k) * limit)%Z by lia.
    destruct (IH (S k) (length pages) fuel (acc ++ page) (reqs ++ [(Z.of_nat k * limit)%Z]))
      as (requests' & exit & Hrun & Hreq & Hexit); try done.
    + intros j records Hj. replace (S k + j)%nat with (k + S j)%nat by lia.
      by apply (Hpages (S j)).
    + by replace (S k + length pages)%nat with (k + S (length pages))%nat by (simpl; lia).
    + simpl in Hfuel. lia.
    + exists requests', exit. split; [done|]. split; [|done].
      rewrite Hreq, length_app. simpl. lia.
Qed.

(** X9.  The paginated fetch is all or nothing: when a page answers with
    an HTTP error status after any number of good pages, the fetch fails
    with ["Failed to fetch: <status>"] and the rows of the good pages are
    dropped. *)
Theorem fetchFromTaipei_http_error w datasetId (pages : list (list Row)) status :
  (forall j records, pages !! j = Some records ->
     taipeiPage w datasetId (Z.of_nat j * limit) = Ok records /\ records <> []) ->
  taipeiPage w datasetId (Z.of_nat (length pages) * limit) = NotOk status ->
  (Z.of_nat (length (concat pages)) <= safetyLimit)%Z ->
  fetchFromTaipei w datasetId = failure ("Failed to fetch: " +:+ pretty status) /\
  data (fetchFromTaipei w datasetId) = None.
Proof.
  intros Hpages Hlast Hcap.
  assert (Hfuel : (length pages < enoughFuel)%nat).
  { assert (length pages <= length (concat pages))%nat; [|unfold enoughFuel; lia].
    apply length_concat_nonempty. intros p [j Hj]%list_elem_of_lookup.
    by destruct (Hpages j p Hj). }
  destruct (paginate_fails_at enoughFuel w datasetId 0 (length pages) [] [] pages
              (NotOk status) eq_refl Hpages Hlast) as (requests & exit & Hrun & _ & ->);
    [done | done | done |].
  change (Z.of_nat 0 * limit)%Z with 0%Z in Hrun.
  by rewrite (fetchFromTaipei_finish _ _ _ _ Hrun).
Qed.

Lemma fetchFromTaipei_http_error_witness :
  fetchFromTaipei
    (withTaipei (fun offset => if (offset =? 0)%Z then Ok [owner "甲"] else NotOk 502)
       quietWorld) "134972"
    = failure "Failed to fetch: 502".
Proof.
  apply (fetchFromTaipei_http_error
           (withTaipei (fun offset => if (offset =? 0)%Z then Ok [owner "甲"] else NotOk 502)
              quietWorld) "134972" [[owner "甲"]] 502).
  - intros [|j] records; simpl; [|done]. intros [= <-]. split; done.
  - reflexivity.
  - vm_compute. discriminate.
Defined.

Lemma paginate_request_count w datasetId fuel offset allRecords requests requests' exit :
  paginate w datasetId fuel offset allRecords requests = Some (requests', exit) ->
  (length requests' <= length requests + fuel)%nat.
Proof.
  revert offset allRecords requests.
  induction fuel as [|fuel IH]; intros offset acc reqs H; [done|].
  simpl in H.
  destruct (taipeiPage w datasetId offset) as [e|st|records];
    [injection H as <- _; rewrite length_app; simpl; lia..|].
  destruct (length records =? 0)%nat;
    [injection H as <- _; rewrite length_app; simpl; lia|].
  destruct (Z.of_nat (length (acc ++ records)) >? safetyLimit)%Z;
    [injection H as <- _; rewrite length_app; simpl; lia|].
  apply IH in H. rewrite length_app in H. simpl in H. lia.
Qed.

(** X10.  One paginated fetch sends at most 100,001 page requests, each
    for 1000 rows, whatever the upstream answers. *)
Theorem fetchFromTaipei_request_bound w datasetId :
  exists requests result,
    fetchFromTaipeiWith w enoughFuel datasetId = Some (requests, result) /\
    fetchFromTaipei w datasetId = result /\
    (Z.of_nat (length requests) <= safetyLimit + 1)%Z.
Proof.
  destruct (paginate_terminates w datasetId enoughFuel 0 [] []) as [[requests exit] Hrun].
  { unfold enoughFuel, safetyLimit. lia. }
  { unfold enoughFuel, safetyLimit. cbn [length]. lia. }
  exists requests, (finish w exit).
  split; [unfold fetchFromTaipeiWith; by rewrite Hrun|].
  split; [by apply (fetchFromTaipei_finish _ _ requests)|].
  apply paginate_request_count in Hrun. cbn [length] in Hrun.
  unfold enoughFuel in Hrun. unfold safetyLimit in *. lia.
Qed.

(** ** Sync of one city: the store *)

Lemma dispatch_None city : dispatch city = None <-> city ∉ CITIES.
Proof.
  unfold dispatch, CITIES. split.
  - intros H Hin.
    repeat (apply elem_of_cons in Hin as [-> | Hin]; [simpl in H; discriminate H|]).
    by apply elem_of_nil in Hin.
  - intros Hnot.
    destruct (String.eqb_spec city "台北市") as [-> | _];
      [exfalso; apply Hnot; repeat ((by left) || right)|].
    destruct (String.eqb_spec city "嘉義市") as [-> | _];
      [exfalso; apply Hnot; repeat ((by left) || right)|].
    destruct (String.eqb_spec city "嘉義縣") as [-> | _];
      [exfalso; apply Hnot; repeat ((by left) || right)|].
    destruct (String.eqb_spec city "彰化縣") as [-> | _];
      [exfalso; apply Hnot; repeat ((by left) || right)|].
    reflexivity.
Qed.

(** X11.  A city that is not one of the four known ones fails at once with
    ["Unknown city: <city>"], whatever the world is: nothing is fetched and
    the store is left as it is. *)
Theorem unknown_city_fails w city db :
  city ∉ CITIES ->
  syncCityData w city db =
    (db, Returned {| SyncResult.city := city; SyncResult.success := false;
                     SyncResult.recordCount := 0;
                     SyncResult.error := Some ("Unknown city: " +:+ city) |}).
Proof.
  intros H. apply dispatch_None in H.
  unfold syncCityData, syncCityDataWith, cityRecords. by rewrite H.
Qed.

Lemma unknown_city_fails_witness :
  syncCityData fullPagesWorld "高雄市" emptyDb =
    (emptyDb, Returned {| SyncResult.city := "高雄市"; SyncResult.success := false;
                          SyncResult.recordCount := 0;
                          SyncResult.error := Some "Unknown city: 高雄市" |}).
Proof.
  apply (unknown_city_fails fullPagesWorld "高雄市" emptyDb).
  unfold CITIES. intros H.
  repeat (apply elem_of_cons in H as [H | H]; [discriminate H|]).
  by apply elem_of_nil in H.
Defined.

(** X12.  A sync that does not report success has written nothing: the
    store comes back exactly as it was. *)
Theorem failed_sync_writes_nothing w city db :
  SyncResult.success (resultOf city (syncCityData w city db).2) = false ->
  (syncCityData w city db).1 = db.
Proof.
  destruct (cityRecords w city) as [r|nd] eqn:Hrec.
  { intros _. unfold syncCityData, syncCityDataWith. by rewrite Hrec. }
  destruct (serverConfigured w (Some city)) eqn:Hconf.
  - destruct (syncCityData_fetched w city db nd Hrec Hconf) as (st & new & _ & -> & _).
    simpl. discriminate.
  - intros _. unfold syncCityData, syncCityDataWith. by rewrite Hrec, Hconf.
Qed.

Lemma failed_sync_writes_nothing_witness :
  (syncCityData taipeiDownWorld "台北市" emptyDb).1 = emptyDb.
Proof.
  apply (failed_sync_writes_nothing taipeiDownWorld "台北市" emptyDb).
  vm_compute. reflexivity.
Defined.

Lemma upsertRows_app (a b : list DbRecord) (m : gmap LandKey DbRecord) :
  upsertRows (a ++ b) m = upsertRows b (upsertRows a m).
Proof. unfold upsertRows. apply foldl_app. Qed.

Lemma upsertRows_lookup_other (rs : list DbRecord) (m : gmap LandKey DbRecord) k :
  k ∉ map conflictKey rs -> upsertRows rs m !! k = m !! k.
Proof.
  unfold upsertRows. revert m. induction rs as [|r rs IH]; intros m Hk; simpl; [done|].
  rewrite IH.
  - apply lookup_insert_ne. intros Heq. apply Hk. simpl. rewrite Heq. left.
  - intros Hin. apply Hk. simpl. by right.
Qed.

Lemma keyed_upsertRows (rs : list DbRecord) (m : gmap LandKey DbRecord) :
  keyed m -> keyed (upsertRows rs m).
Proof.
  unfold upsertRows. revert m. induction rs as [|r rs IH]; intros m Hm; simpl; [done|].
  apply IH. intros k r' Hk. destruct (decide (conflictKey r = k)) as [<- | Hne].
  - rewrite lookup_insert_eq in Hk. by injection Hk as <-.
  - rewrite lookup_insert_ne in Hk by done. by apply Hm.
Qed.

Lemma size_upsertRows (rs : list DbRecord) (m : gmap LandKey DbRecord) :
  (size (upsertRows rs m) <= size m + length rs)%nat.
Proof.
  unfold upsertRows. revert m. induction rs as [|r rs IH]; intros m; simpl; [lia|].
  etrans; [apply IH|].
  destruct (m !! conflictKey r) eqn:E.
  - rewrite map_size_insert_Some by eauto. lia.
  - rewrite map_size_insert_None by done. lia.
Qed.

Lemma applyCalls_cons (c : list DbRecord * bool) (new : list (list DbRecord * bool)) (m : gmap LandKey DbRecord) :
  applyCalls (c :: new) m = applyCalls new (if c.2 then upsertRows c.1 m else m).
Proof. reflexivity. Qed.

Lemma applyCalls_lookup_other (new : list (list DbRecord * bool)) (m : gmap LandKey DbRecord) k :
  k ∉ map conflictKey (concat (map fst new)) -> applyCalls new m !! k = m !! k.
Proof.
  revert m. induction new as [|[rs ok] new IH]; intros m Hk; [done|].
  rewrite applyCalls_cons. cbn [fst snd map concat] in *.
  rewrite map_app in Hk. apply not_elem_of_app in Hk as [Hk1 Hk2].
  rewrite IH by done. destruct ok; [by apply upsertRows_lookup_other | done].
Qed.

Lemma keyed_applyCalls (new : list (list DbRecord * bool)) (m : gmap LandKey DbRecord) :
  keyed m -> keyed (applyCalls new m).
Proof.
  revert m. induction new as [|[rs ok] new IH]; intros m Hm; [done|].
  rewrite applyCalls_cons. apply IH. destruct ok; [by apply keyed_upsertRows | done].
Qed.

Lemma rowsWritten_cons (c : list DbRecord * bool) (new : list (list DbRecord * bool)) :
  rowsWritten (c :: new) = ((if c.2 then length c.1 else 0) + rowsWritten new)%nat.
Proof. reflexivity. Qed.

Lemma size_applyCalls (new : list (list DbRecord * bool)) (m : gmap LandKey DbRecord) :
  (size (applyCalls new m) <= size m + rowsWritten new)%nat.
Proof.
  revert m. induction new as [|[rs ok] new IH]; intros m; [unfold rowsWritten; simpl; lia|].
  rewrite applyCalls_cons, rowsWritten_cons. etrans; [apply IH|]. cbn [fst snd].
  destruct ok; [pose proof (size_upsertRows rs m)|]; lia.
Qed.

Lemma rowsWritten_le (new : list (list DbRecord * bool)) :
  (rowsWritten new <= length (concat (map fst new)))%nat.
Proof.
  induction new as [|[rs ok] new IH]; [unfold rowsWritten; simpl; lia|].
  rewrite rowsWritten_cons. cbn [map concat fst snd]. rewrite length_app.
  destruct ok; lia.
Qed.

Lemma syncCityData_tables w city db :
  sync_logs (syncCityData w city db).1 = sync_logs db /\
  data_sources (syncCityData w city db).1 = data_sources db.
Proof.
  destruct (cityRecords w city) as [r|nd] eqn:Hrec.
  { unfold syncCityData, syncCityDataWith. by rewrite Hrec. }
  destruct (serverConfigured w (Some city)) eqn:Hconf.
  - by destruct (syncCityData_fetched w city db nd Hrec Hconf) as (st & new & _ & -> & _).
  - unfold syncCityData, syncCityDataWith. by rewrite Hrec, Hconf.
Qed.

(** What a sync does to the table, in one place. *)
Lemma syncCityData_lands w city db :
  unclaimed_lands (syncCityData w city db).1 = unclaimed_lands db \/
  exists nd new,
    cityRecords w city = inr nd /\
    concat (map fst new) = map toDbRecord nd /\
    unclaimed_lands (syncCityData w city db).1 = applyCalls new (unclaimed_lands db) /\
    (syncCityData w city db).2 =
      Returned {| SyncResult.city := city; SyncResult.success := true;
                  SyncResult.recordCount := rowsWritten new;
                  SyncResult.error := None |} /\
    (forall k c, new !! k = Some c -> c.2 = negb (upsertError w city (100 * k))).
Proof.
  destruct (cityRecords w city) as [r|nd] eqn:Hrec.
  { left. unfold syncCityData, syncCityDataWith. by rewrite Hrec. }
  destruct (serverConfigured w (Some city)) eqn:Hconf.
  - right.
    destruct (syncCityData_fetched w city db nd Hrec Hconf)
      as (st & new & _ & -> & _ & Hlands & Htotal & Hcat & _ & Hk).
    exists nd, new. rewrite Htotal. repeat split; try done.
    intros k c Hc. by destruct (Hk k c Hc) as [_ ->].
  - left. unfold syncCityData, syncCityDataWith. by rewrite Hrec, Hconf.
Qed.

Lemma sync_touches_only_own_keys_aux w city db :
  (forall k,
     (forall nd, cityRecords w city = inr nd -> k ∉ recordKeys nd) ->
     unclaimed_lands (syncCityData w city db).1 !! k = unclaimed_lands db !! k) /\
  dom (unclaimed_lands db) ⊆ dom (unclaimed_lands (syncCityData w city db).1) /\
  (keyed (unclaimed_lands db) -> keyed (unclaimed_lands (syncCityData w city db).1)).
Proof.
  split; [|split; [apply syncCityData_lands_dom|]].
  - intros k Hk.
    destruct (syncCityData_lands w city db) as [-> | (nd & new & Hrec & Hcat & -> & _)];
      [done|].
    apply applyCalls_lookup_other. rewrite Hcat.
    unfold recordKeys in Hk. rewrite <- list_fmap_compose. by apply Hk.
  - intros Hkeyed.
    destruct (syncCityData_lands w city db) as [-> | (nd & new & _ & _ & -> & _)];
      [done | by apply keyed_applyCalls].
Qed.

(** X13.  The sync of a city touches only the rows whose conflict key is
    the key of one of the records it fetched: every other row stays as it is,
    no row is ever removed, the other two tables are not written, and a table
    in which every row sits under its own key stays so. *)
Theorem sync_touches_only_own_keys w city db :
  let db' := (syncCityData w city db).1 in
  (forall k,
     (forall nd, cityRecords w city = inr nd -> k ∉ recordKeys nd) ->
     unclaimed_lands db' !! k = unclaimed_lands db !! k) /\
  dom (unclaimed_lands db) ⊆ dom (unclaimed_lands db') /\
  (keyed (unclaimed_lands db) -> keyed (unclaimed_lands db')) /\
  sync_logs db' = sync_logs db /\
  data_sources db' = data_sources db.
Proof.
  intros db'. subst db'.
  destruct (sync_touches_only_own_keys_aux w city db) as (Hframe & Hdom & Hkeyed).
  split; [done|]. split; [done|]. split; [done|]. apply syncCityData_tables.
Qed.

Lemma sync_touches_only_own_keys_witness :
  unclaimed_lands (syncCityData taipeiDownWorld "彰化縣" emptyDb).1
    !! (Plain "彰化縣", "未知區", "999") = None /\
  keyed (unclaimed_lands (syncCityData taipeiDownWorld "彰化縣" emptyDb).1).
Proof.
  pose proof (sync_touches_only_own_keys taipeiDownWorld "彰化縣" emptyDb) as H.
  cbv zeta in H. destruct H as (Hframe & _ & Hkeyed & _).
  split.
  - rewrite Hframe; [reflexivity|].
    intros nd Hnd. vm_compute in Hnd. injection Hnd as <-.
    unfold recordKeys. cbn [map]. intros Hin%list_elem_of_singleton.
    vm_compute in Hin. discriminate Hin.
  - apply Hkeyed. intros k r Hk. cbn [emptyDb unclaimed_lands] in Hk.
    by rewrite lookup_empty in Hk.
Defined.

(** X14.  The record count a sync reports bounds what it did: it is at
    most the number of normalized records, and the table grows by at most
    that count. *)
Theorem sync_count_bounds w city db result :
  (syncCityData w city db).2 = Returned result ->
  (size (unclaimed_lands (syncCityData w city db).1)
     <= size (unclaimed_lands db) + SyncResult.recordCount result)%nat /\
  (forall nd, cityRecords w city = inr nd ->
     (SyncResult.recordCount result <= length nd)%nat).
Proof.
  intros Hres.
  destruct (syncCityData_lands w city db)
    as [Hsame | (nd & new & Hrec & Hcat & Hlands & Hout & _)].
  - rewrite Hsame. split; [lia|].
    intros nd Hrec.
    destruct (serverConfigured w (Some city)) eqn:Hconf.
    + destruct (syncCityData_fetched w city db nd Hrec Hconf)
        as (st & new & _ & Hsync & _ & _ & Htotal & Hcat & _).
      rewrite Hsync in Hres. injection Hres as <-. simpl. rewrite Htotal.
      etrans; [apply rowsWritten_le|]. by rewrite Hcat, length_map.
    + revert Hres. unfold syncCityData, syncCityDataWith. by rewrite Hrec, Hconf.
  - rewrite Hout in Hres. injection Hres as <-. rewrite Hlands. simpl.
    split; [apply size_applyCalls|].
    intros nd' Hrec'. assert (nd' = nd) as -> by congruence.
    etrans; [apply rowsWritten_le|]. by rewrite Hcat, length_map.
Qed.

Lemma sync_count_bounds_witness :
  (size (unclaimed_lands (syncCityData taipeiDownWorld "彰化縣" emptyDb).1)
     <= size (unclaimed_lands emptyDb) + 1)%nat.
Proof.
  apply (proj1 (sync_count_bounds taipeiDownWorld "彰化縣" emptyDb
           {| SyncResult.city := "彰化縣"; SyncResult.success := true;
              SyncResult.recordCount := 1; SyncResult.error := None |} eq_refl)).
Defined.

Lemma applyCalls_all_written (new : list (list DbRecord * bool))
    (m : gmap LandKey DbRecord) :
  (forall k c, new !! k = Some c -> c.2 = true) ->
  applyCalls new m = upsertRows (concat (map fst new)) m /\
  rowsWritten new = length (concat (map fst new)).
Proof.
  revert m. induction new as [|[rs ok] new IH]; intros m Hall; [done|].
  assert (ok = true) as -> by apply (Hall 0%nat (rs, ok) eq_refl).
  destruct (IH (upsertRows rs m)) as [Happly Hcount].
  { intros k c Hc. by apply (Hall (S k)). }
  rewrite applyCalls_cons, rowsWritten_cons. cbn [map concat fst snd].
  by rewrite upsertRows_app, length_app, Happly, Hcount.
Qed.

Lemma upsertRows_lookup_NoDup (rs : list DbRecord) (m : gmap LandKey DbRecord) r :
  NoDup (map conflictKey rs) -> r ∈ rs ->
  upsertRows rs m !! conflictKey r = Some r.
Proof.
  revert m. induction rs as [|r0 rs IH]; intros m Hnd Hin; [by apply elem_of_nil in Hin|].
  cbn [map] in Hnd. apply NoDup_cons in Hnd as [Hfresh Hnd].
  change (upsertRows (r0 :: rs) m) with (upsertRows rs (<[conflictKey r0 := r0]> m)).
  apply elem_of_cons in Hin as [-> | Hin].
  - rewrite upsertRows_lookup_other by done. apply lookup_insert_eq.
  - by apply IH.
Qed.

(** X15.  When the store refuses no batch, the sync counts every
    normalized record, the keys of the table are the old keys and the keys
    of the records, and, the keys of the records being pairwise different,
    each record can be read back under its key exactly as it was written. *)
Theorem sync_without_errors w city db nd :
  cityRecords w city = inr nd ->
  serverConfigured w (Some city) = true ->
  (forall i, upsertError w city i = false) ->
  let db' := (syncCityData w city db).1 in
  (syncCityData w city db).2 =
    Returned {| SyncResult.city := city; SyncResult.success := true;
                SyncResult.recordCount := length nd; SyncResult.error := None |} /\
  dom (unclaimed_lands db') = dom (unclaimed_lands db) ∪ list_to_set (recordKeys nd) /\
  (NoDup (recordKeys nd) ->
     forall land, land ∈ nd ->
       unclaimed_lands db' !! conflictKey (toDbRecord land) = Some (toDbRecord land)).
Proof.
  intros Hrec Hconf Hok db'. subst db'.
  destruct (syncCityData_fetched w city db nd Hrec Hconf)
    as (st & new & _ & -> & _ & Hlands & Htotal & Hcat & _ & Hk).
  destruct (applyCalls_all_written new (unclaimed_lands db)) as [Happly Hcount].
  { intros k c Hc. destruct (Hk k c Hc) as [_ ->]. cbn [snd]. by rewrite Hok. }
  cbn [fst snd unclaimed_lands]. rewrite Hlands, Happly, Htotal, Hcount, Hcat.
  assert (Hkeys : map conflictKey (map toDbRecord nd) = recordKeys nd).
  { unfold recordKeys. by rewrite <- list_fmap_compose. }
  split; [by rewrite length_map|]. split.
  - rewrite dom_upsertRows. by rewrite <- Hkeys.
  - intros Hnd land Hin. apply upsertRows_lookup_NoDup.
    + by rewrite Hkeys.
    + by apply list_elem_of_fmap_2.
Qed.

Lemma sync_without_errors_witness :
  (syncCityData taipeiDownWorld "彰化縣" emptyDb).2 =
    Returned {| SyncResult.city := "彰化縣"; SyncResult.success := true;
                SyncResult.recordCount := 1; SyncResult.error := None |} /\
  unclaimed_lands (syncCityData taipeiDownWorld "彰化縣" emptyDb).1
    !! (Plain "彰化縣", "未知區", "123-4")
    = Some (toDbRecord (normalizeRecord (Some "彰化縣")
                          (ChanghuaParser.toRecord sampleFloat 0 wangRow))).
Proof.
  pose proof (sync_without_errors taipeiDownWorld "彰化縣" emptyDb
    [normalizeRecord (Some "彰化縣") (ChanghuaParser.toRecord sampleFloat 0 wangRow)])
    as H.
  cbv zeta in H. destruct H as (Hout & _ & Hread).
  - vm_compute. reflexivity.
  - reflexivity.
  - reflexivity.
  - split; [exact Hout|].
    exact (Hread (NoDup_singleton _) _ (list_elem_of_here _ _)).
Defined.

(** ** Sync of one city: the records *)

Lemma cityRecords_inr w city nd :
  cityRecords w city = inr nd ->
  exists f p,
    dispatch city = Some (f, p) /\
    nd = normalizeData
           (parseRows (parseFloat w) p
              (papaParse w true (default "" (data (runFetch w f))))) (Some city).
Proof.
  unfold cityRecords. destruct (dispatch city) as [[f p]|] eqn:Hd; [|done].
  destruct (negb _ || negb _); [done|].
  intros [= <-]. by exists f, p.
Qed.

Lemma dispatch_Some city f p :
  dispatch city = Some (f, p) ->
  city <> "" /\
  normalizeCity (parserCityName p) = Plain (storedCity city) /\
  is_Some (cityCenters !! storedCity city).
Proof.
  unfold dispatch.
  destruct (String.eqb_spec city "台北市") as [-> | _];
    [intros [= <- <-]; split; [done|]; split; [reflexivity | by eexists]|].
  destruct (String.eqb_spec city "嘉義市") as [-> | _];
    [intros [= <- <-]; split; [done|]; split; [reflexivity | by eexists]|].
  destruct (String.eqb_spec city "嘉義縣") as [-> | _];
    [intros [= <- <-]; split; [done|]; split; [reflexivity | by eexists]|].
  destruct (String.eqb_spec city "彰化縣") as [-> | _];
    [intros [= <- <-]; split; [done|]; split; [reflexivity | by eexists]|].
  done.
Qed.

(** X16.  Every record the cron sync of a city hands to the store carries
    the city as [sourceUrl], has a non-empty district, land number and
    status, and carries the city as [sourceCity], except that the records
    of [嘉義縣] are labelled [嘉義市]: its parser is created without the
    county flag.  Its [coordinates] are never null; they are a pair of
    coordinates unless the district, as it is or without a leading city
    name, is a name inherited from [Object.prototype], and for a district
    that is such a name they are the inherited member. *)
Theorem synced_records_shape w city nd land :
  cityRecords w city = inr nd ->
  land ∈ nd ->
  NormalizedLand.sourceCity land = Plain (storedCity city) /\
  NormalizedLand.sourceUrl land = Some city /\
  is_Some (NormalizedLand.coordinates land) /\
  (NormalizedLand.district land ∉ objectPrototype ->
   removeCityPrefix (NormalizedLand.district land) ∉ objectPrototype ->
   exists c, NormalizedLand.coordinates land = Some (Plain c)) /\
  (NormalizedLand.district land ∈ objectPrototype ->
   NormalizedLand.coordinates land = Some (Inherited (NormalizedLand.district land))) /\
  NormalizedLand.district land <> "" /\
  NormalizedLand.landNumber land <> "" /\
  NormalizedLand.status land <> "".
Proof.
  intros Hrec Hin.
  apply cityRecords_inr in Hrec as (f & p & Hd & ->).
  apply dispatch_Some in Hd as (Hne & Hcity & Hcentre).
  apply list_elem_of_fmap in Hin as (x & -> & Hx).
  assert (Hsrc : RawLandData.sourceCity x = parserCityName p).
  { apply parseRows_elem in Hx as (i & row & _ & ->). by destruct p. }
  assert (Htexts : RawLandData.district x <> "" /\ RawLandData.landNumber x <> "" /\
                   exists s, RawLandData.status x = Some s /\ s <> "").
  { apply parseRows_elem in Hx as (i & row & _ & ->).
    destruct p; simpl; (split; [|split; [|eexists; split; [reflexivity|]]]);
      repeat apply orDefault_nonempty; try discriminate;
      apply (placeholder_nonempty i). }
  destruct Htexts as (Hdist & Hland & s & Hs & Hsne).
  unfold normalizeRecord.
  cbn [NormalizedLand.sourceCity NormalizedLand.sourceUrl NormalizedLand.coordinates
       NormalizedLand.district NormalizedLand.landNumber NormalizedLand.status].
  rewrite Hsrc, Hcity.
  destruct (getCoordinates_with_centre (storedCity city) (RawLandData.district x) Hcentre)
    as [Hsome Hplain].
  split; [done|]. split.
  { unfold orNullS. simpl. apply String.eqb_neq in Hne. by rewrite Hne. }
  split; [done|]. split; [done|].
  split; [apply getCoordinates_inherited|].
  split; [done|]. split; [done|].
  rewrite Hs. by apply orDefault_nonempty.
Qed.

Lemma synced_records_shape_witness :
  let land := normalizeRecord (Some "嘉義縣")
                (ChiayiParser.toRecord sampleFloat false 0 landOnly) in
  NormalizedLand.sourceCity land = Plain "嘉義市" /\
  NormalizedLand.sourceUrl land = Some "嘉義縣" /\
  exists c, NormalizedLand.coordinates land = Some (Plain c).
Proof.
  intros land.
  destruct (synced_records_shape (withDataGov "133739" [landOnly] quietWorld)
              "嘉義縣" [land] land) as (H1 & H2 & _ & H3 & _).
  - vm_compute. reflexivity.
  - left.
  - split; [exact H1|]. split; [exact H2|].
    apply H3; apply (bool_decide_unpack _); vm_compute; reflexivity.
Defined.

(** A district cell that reads [constructor] reaches the store as a record
    whose coordinates are the constructor of objects. *)
Example inherited_district_run :
  let row : Row := <["行政區" := "x"]> (<["鄉鎮市區" := "constructor"]> (owner "甲")) in
  let land := normalizeRecord (Some "彰化縣") (ChanghuaParser.toRecord noFloat 0 row) in
  NormalizedLand.district land = "constructor" /\
  NormalizedLand.coordinates land = Some (Inherited "constructor").
Proof. split; vm_compute; reflexivity. Qed.

(** ** The run over all cities: the three tables *)




Lemma syncRound_lands w round city db results :
  unclaimed_lands (syncRound w round city (db, results)).1
    = unclaimed_lands (syncCityData w city (insertLog (randomUUID w round) city db)).1.
Proof.
  unfold syncRound.
  destruct (syncCityData w city _) as [db2 [result|msg]]; cbn [fst]; [|done].
  by destruct (SyncResult.success result).
Qed.

Lemma insertLog_lands id city db : unclaimed_lands (insertLog id city db) = unclaimed_lands db.
Proof. unfold insertLog. by destruct (sync_logs db !! id). Qed.


(** X18.  A whole run never removes a land row, keeps every row under its
    own conflict key, and stores new keys only for records that the sync of
    one of its cities fetched. *)
Theorem run_lands w cities db :
  let db' := (syncAll w cities db).1 in
  dom (unclaimed_lands db) ⊆ dom (unclaimed_lands db') /\
  (keyed (unclaimed_lands db) -> keyed (unclaimed_lands db')) /\
  (forall k, k ∈ dom (unclaimed_lands db') ->
     k ∈ dom (unclaimed_lands db) \/
     exists city nd, city ∈ cities /\ cityRecords w city = inr nd /\ k ∈ recordKeys nd).
Proof.
  intros db'. subst db'. unfold syncAll.
  assert (H : forall round results,
    let db' := (syncCities w round cities (db, results)).1 in
    dom (unclaimed_lands db) ⊆ dom (unclaimed_lands db') /\
    (keyed (unclaimed_lands db) -> keyed (unclaimed_lands db')) /\
    (forall k, k ∈ dom (unclaimed_lands db') ->
       k ∈ dom (unclaimed_lands db) \/
       exists city nd, city ∈ cities /\ cityRecords w city = inr nd /\ k ∈ recordKeys nd)).
  { revert db. induction cities as [|city cities IH]; intros db round results.
    - simpl. split; [done|]. split; [done|]. intros k Hk. by left.
    - cbn [syncCities].
      destruct (syncRound w round city (db, results)) as [db1 results1] eqn:E.
      pose proof (syncRound_lands w round city db results) as Hl.
      rewrite E in Hl. cbn [fst] in Hl.
      pose proof (sync_touches_only_own_keys_aux w city
                    (insertLog (randomUUID w round) city db)) as (Hframe & Hdom & Hkeyed).
      rewrite insertLog_lands in Hframe, Hdom, Hkeyed. rewrite <- Hl in Hframe, Hdom, Hkeyed.
      destruct (IH db1 (S round) results1) as (IHdom & IHkeyed & IHnew).
      split; [by etrans|]. split; [by intros ?; apply IHkeyed, Hkeyed|].
      intros k Hk. destruct (IHnew k Hk) as [Hk1 | (c & nd & Hc & Hrec & Hin)].
      + destruct (decide (k ∈ dom (unclaimed_lands db))) as [?|Hnot]; [by left|].
        right. destruct (cityRecords w city) as [r|nd] eqn:Hrec.
        * exfalso. apply Hnot. apply elem_of_dom. rewrite <- Hframe by done.
          by apply elem_of_dom.
        * destruct (decide (k ∈ recordKeys nd)) as [Hin|Hout].
          -- exists city, nd. split; [left|done].
          -- exfalso. apply Hnot. apply elem_of_dom. rewrite <- Hframe.
             ++ by apply elem_of_dom.
             ++ intros nd' [= <-]. done.
      + right. exists c, nd. split; [by right|done]. }
  specialize (H 0%nat []). by destruct (syncCities w 0 cities (db, [])).
Qed.

Lemma run_lands_witness :
  keyed (unclaimed_lands (syncAll taipeiDownWorld threeCities emptyDb).1).
Proof.
  pose proof (run_lands taipeiDownWorld threeCities emptyDb) as H.
  cbv zeta in H. destruct H as (_ & Hkeyed & _).
  apply Hkeyed. intros k r Hk. cbn [emptyDb unclaimed_lands] in Hk.
  by rewrite lookup_empty in Hk.
Defined.










(** ** The admin route *)

Lemma stripPrefix_app p rest : stripPrefix p (p +:+ rest) = Some rest.
Proof. induction p as [|a p IH]; simpl; [done|]. by rewrite Ascii.eqb_refl. Qed.

Lemma removeFirst_prefix pattern rest :
  AdminSync.removeFirst pattern (pattern +:+ rest) = rest.
Proof.
  destruct (pattern +:+ rest) eqn:E; simpl;
    rewrite <- E, stripPrefix_app; reflexivity.
Qed.

(** X21.  The admin route lets a request in exactly when its
    [authorization] header, with the first ["Bearer "] in it removed, is the
    admin key.  So ["Bearer <key>"] is let in; without the environment
    variable [ADMIN_API_KEY] the key is the built-in [dev-key-change-me], and
    the bare key without ["Bearer "] is let in as well; a request without the
    header, or with another key, is answered 401 with the store untouched. *)
Theorem admin_gate w request db :
  (AdminSync.authorization request
     = Some ("Bearer " +:+ AdminSync.ADMIN_API_KEY (AdminSync.adminKey request)) ->
   AdminSync.authorized request = true) /\
  (truthyS (AdminSync.adminKey request) = false ->
   AdminSync.authorization request = Some "Bearer dev-key-change-me" \/
   AdminSync.authorization request = Some "dev-key-change-me" ->
   AdminSync.authorized request = true) /\
  (AdminSync.authorization request = None -> AdminSync.authorized request = false) /\
  (AdminSync.authorized request = false ->
   AdminSync.POST w request db =
     (db, {| AdminSync.status := 401; AdminSync.body := AdminSync.ErrorBody "Unauthorized" |})).
Proof.
  unfold AdminSync.authorized. split; [|split; [|split]].
  - intros ->. rewrite removeFirst_prefix. apply String.eqb_refl.
  - intros Hkey Hauth.
    assert (AdminSync.ADMIN_API_KEY (AdminSync.adminKey request) = "dev-key-change-me")
      as -> by (unfold AdminSync.ADMIN_API_KEY; by apply orDefault_falsy).
    by destruct Hauth as [-> | ->].
  - by intros ->.
  - intros H. unfold AdminSync.POST, AdminSync.authorized. by rewrite H.
Qed.

Lemma admin_gate_witness :
  AdminSync.authorized
    {| AdminSync.authorization := Some "dev-key-change-me";
       AdminSync.adminKey := None; AdminSync.cities := None |} = true /\
  AdminSync.POST quietWorld
    {| AdminSync.authorization := Some "Bearer guess";
       AdminSync.adminKey := Some "s3cret"; AdminSync.cities := None |} emptyDb
    = (emptyDb, {| AdminSync.status := 401;
                   AdminSync.body := AdminSync.ErrorBody "Unauthorized" |}).
Proof.
  split.
  - apply (proj1 (proj2 (admin_gate quietWorld
             {| AdminSync.authorization := Some "dev-key-change-me";
                AdminSync.adminKey := None; AdminSync.cities := None |} emptyDb)));
      [reflexivity | by right].
  - apply (proj2 (proj2 (proj2 (admin_gate quietWorld
             {| AdminSync.authorization := Some "Bearer guess";
                AdminSync.adminKey := Some "s3cret"; AdminSync.cities := None |} emptyDb)))).
    reflexivity.
Defined.

Lemma syncCity_loop w city db nd :
  cityRecords w city = inr nd ->
  exists st,
    upsertLoop w city nd (S (length nd)) 0
      {| lands := unclaimed_lands db; calls := upsert_calls db; totalRecords := 0 |}
      = Some st /\
    AdminSync.syncCity w city db =
      ({| unclaimed_lands := lands st; sync_logs := sync_logs db;
          data_sources := data_sources db; upsert_calls := calls st |},
       {| AdminSync.city := city; AdminSync.success := true;
          AdminSync.recordsAdded := totalRecords st;
          AdminSync.recordsUpdated := 0; AdminSync.error := None |}).
Proof.
  intros Hrec.
  destruct (upsertLoop_spec w city nd (S (length nd)) 0
              {| lands := unclaimed_lands db; calls := upsert_calls db;
                 totalRecords := 0 |}) as (st & new & Hloop & _); [lia|].
  exists st. split; [done|]. unfold AdminSync.syncCity. by rewrite Hrec, Hloop.
Qed.


(** X22.  The admin sync and the cron sync of a city are the same sync:
    with the store client available they leave the same store and report
    the same success, count and error; the admin sync counts every written
    row as added and none as updated. *)
Theorem admin_sync_is_cron_sync w city db :
  AdminSync.recordsUpdated (AdminSync.syncCity w city db).2 = 0%nat /\
  AdminSync.city (AdminSync.syncCity w city db).2 = city /\
  (serverConfigured w (Some city) = true ->
   syncCityData w city db =
     ((AdminSync.syncCity w city db).1,
      Returned (asCronResult (AdminSync.syncCity w city db).2))).
Proof.
  destruct (cityRecords w city) as [r|nd] eqn:Hrec.
  - unfold AdminSync.syncCity, syncCityData, syncCityDataWith. rewrite Hrec.
    cbn [fst snd]. split; [done|]. split; [done|]. intros _.
    unfold asCronResult. cbn. f_equal. f_equal.
    revert Hrec. unfold cityRecords.
    destruct (dispatch city) as [[f p]|]; [|by intros [= <-]].
    destruct (negb _ || negb _); [by intros [= <-] | done].
  - destruct (syncCity_loop w city db nd Hrec) as (st & Hloop & ->).
    cbn [fst snd]. split; [done|]. split; [done|]. intros Hconf.
    unfold syncCityData, syncCityDataWith. by rewrite Hrec, Hconf, Hloop.
Qed.

Lemma admin_sync_is_cron_sync_witness :
  syncCityData taipeiDownWorld "彰化縣" emptyDb =
    ((AdminSync.syncCity taipeiDownWorld "彰化縣" emptyDb).1,
     Returned (asCronResult (AdminSync.syncCity taipeiDownWorld "彰化縣" emptyDb).2)).
Proof.
  apply (proj2 (proj2 (admin_sync_is_cron_sync taipeiDownWorld "彰化縣" emptyDb))).
  reflexivity.
Defined.






(** ** Geocoder *)

Section BatchGeocode.
Variable pf : string -> number.
Variable nominatim : nat -> string -> Response (list Geocoder.Hit).
Variable onProgress : bool.
Variable total : nat.

Lemma requestsWithSleeps_cons text rest :
  requestsWithSleeps (text :: rest) =
    Geocoder.Request text ::
      (if (0 <? length rest)%nat then [Geocoder.Sleep 1000] else [])
      ++ requestsWithSleeps rest.
Proof. by destruct rest. Qed.

Lemma sleepTotal_app (xs ys : list Geocoder.Event) :
  sleepTotal (xs ++ ys) = (sleepTotal xs + sleepTotal ys)%nat.
Proof.
  unfold sleepTotal. induction xs as [|x xs IH]; [done|].
  cbn [app map]. change (sum_list (?a :: ?l)) with (a + sum_list l)%nat. rewrite IH. lia.
Qed.

Lemma batchLoop_trace rest i st :
  (i + length rest = total)%nat ->
  let st' := Geocoder.batchLoop pf nominatim onProgress total rest i st in
  List.filter (fun e => negb (isProgress e)) (Geocoder.trace st') =
    List.filter (fun e => negb (isProgress e)) (Geocoder.trace st)
    ++ requestsWithSleeps (map addressQuery rest) /\
  List.filter isProgress (Geocoder.trace st') =
    List.filter isProgress (Geocoder.trace st)
    ++ (if onProgress
        then map (fun k => Geocoder.Progress (k + 1) total) (seq i (length rest))
        else []) /\
  sleepTotal (Geocoder.trace st') =
    (sleepTotal (Geocoder.trace st) + 1000 * (length rest - 1))%nat.
Proof.
  revert i st. induction rest as [|a rest IH]; intros i st Hlen st'; subst st'.
  - simpl. rewrite !app_nil_r. split; [done|]. split; [|lia].
    destruct onProgress; by rewrite ?app_nil_r.
  - assert (Hlast : (i <? total - 1)%nat = (0 <? length rest)%nat).
    { simpl in Hlen. destruct (Nat.ltb_spec i (total - 1)), (Nat.ltb_spec 0 (length rest));
        (done || lia). }
    cbn [Geocoder.batchLoop]. rewrite Hlast.
    destruct (IH (S i) {| Geocoder.results :=
                            <[Geocoder.fullAddress (Geocoder.address a) (Geocoder.city a) :=
                                Geocoder.geocodeAddress pf (nominatim i)
                                  (Geocoder.address a) (Geocoder.city a)]>
                              (Geocoder.results st);
                          Geocoder.trace :=
                            Geocoder.trace st ++
                            [Geocoder.Request
                               (Geocoder.query (Geocoder.address a) (Geocoder.city a))] ++
                            (if onProgress then [Geocoder.Progress (i + 1) total] else []) ++
                            (if (0 <? length rest)%nat then [Geocoder.Sleep 1000] else []) |})
      as (Hreq & Hprog & Hsleep).
    { simpl in Hlen. lia. }
    cbn [Geocoder.trace] in Hreq, Hprog, Hsleep.
    split; [|split].
    + rewrite Hreq. cbn [map]. rewrite requestsWithSleeps_cons, length_map.
      rewrite !List.filter_app. simpl. rewrite <- !app_assoc. f_equal.
      destruct onProgress, (0 <? length rest)%nat; reflexivity.
    + rewrite Hprog. rewrite !List.filter_app. cbn [length seq map].
      rewrite <- !app_assoc. f_equal.
      destruct onProgress, (0 <? length rest)%nat; reflexivity.
    + rewrite Hsleep. rewrite !sleepTotal_app.
      cbn [length]. destruct onProgress, (Nat.ltb_spec 0 (length rest));
        unfold sleepTotal; cbn [map sum_list sum_list_with app]; unfold id; lia.
Qed.

Lemma batchLoop_results rest i st :
  let st' := Geocoder.batchLoop pf nominatim onProgress total rest i st in
  dom (Geocoder.results st') =
    dom (Geocoder.results st) ∪ list_to_set (map addressKey rest) /\
  (forall key, key ∉ map addressKey rest ->
     Geocoder.results st' !! key = Geocoder.results st !! key) /\
  (forall k a, rest !! k = Some a ->
     (forall j b, (k < j)%nat -> rest !! j = Some b -> addressKey b <> addressKey a) ->
     Geocoder.results st' !! addressKey a = Some (geocodeOf pf nominatim (i + k) a)).
Proof.
  revert i st. induction rest as [|a rest IH]; intros i st st'; subst st'.
  - simpl. split; [by rewrite (right_id_L ∅ (∪))|]. split; [done|].
    intros k b Hk. by rewrite lookup_nil in Hk.
  - cbn [Geocoder.batchLoop].
    edestruct (IH (S i)) as (Hdom & Hother & Hthis).
    split; [|split].
    + rewrite Hdom. cbn [Geocoder.results map list_to_set]. rewrite dom_insert_L.
      fold (addressKey a). clear. set_solver.
    + intros key Hkey. cbn [map] in Hkey.
      apply not_elem_of_cons in Hkey as [Hne Hkey].
      rewrite Hother by done. cbn [Geocoder.results]. by apply lookup_insert_ne.
    + intros [|k] b Hk Hlater.
      * injection Hk as <-. rewrite Hother.
        -- cbn [Geocoder.results]. rewrite Nat.add_0_r. apply lookup_insert_eq.
        -- intros [j Hj]%list_elem_of_lookup. rewrite list_lookup_fmap in Hj.
           destruct (rest !! j) as [b|] eqn:Hb; [|done]. injection Hj as Hj.
           apply (Hlater (S j) b); [lia | done | done].
      * replace (i + S k)%nat with (S i + k)%nat by lia.
        apply Hthis; [done|]. intros j c Hj Hc.
        apply (Hlater (S j) c); [lia | done].
Qed.

End BatchGeocode.

(** X24.  [batchGeocode] sends one request per address, in the order of
    the input, waits 1000 ms between two consecutive requests and never
    after the last one, so it waits 1000 * (n - 1) ms for n addresses; and it
    reports progress, if asked to, as (1, n), (2, n), ..., (n, n). *)
Theorem batchGeocode_rate_limit pf nominatim onProgress addresses :
  let st := Geocoder.batchGeocode pf nominatim onProgress addresses in
  List.filter (fun e => negb (isProgress e)) (Geocoder.trace st)
    = requestsWithSleeps (map addressQuery addresses) /\
  List.filter isProgress (Geocoder.trace st)
    = (if onProgress
       then map (fun k => Geocoder.Progress (k + 1) (length addresses))
              (seq 0 (length addresses))
       else []) /\
  sleepTotal (Geocoder.trace st) = (1000 * (length addresses - 1))%nat.
Proof.
  intros st. subst st. unfold Geocoder.batchGeocode.
  destruct (batchLoop_trace pf nominatim onProgress (length addresses) addresses 0
              {| Geocoder.results := ∅; Geocoder.trace := [] |} eq_refl)
    as (Hreq & Hprog & Hsleep).
  rewrite Hreq, Hprog, Hsleep. cbn [Geocoder.trace List.filter app].
  done.
Qed.

(** X25.  The map [batchGeocode] returns has an entry for exactly the
    addresses asked for, keyed by city and address joined; a failed lookup
    is kept as a null entry; when an address is asked for more than once,
    the entry is the answer to the last request for it. *)
Theorem batchGeocode_results pf nominatim onProgress addresses :
  let st := Geocoder.batchGeocode pf nominatim onProgress addresses in
  dom (Geocoder.results st) = list_to_set (map addressKey addresses) /\
  (forall k a, addresses !! k = Some a ->
     (forall j b, (k < j)%nat -> addresses !! j = Some b -> addressKey b <> addressKey a) ->
     Geocoder.results st !! addressKey a = Some (geocodeOf pf nominatim k a)).
Proof.
  intros st. subst st. unfold Geocoder.batchGeocode.
  destruct (batchLoop_results pf nominatim onProgress (length addresses) addresses 0
              {| Geocoder.results := ∅; Geocoder.trace := [] |})
    as (Hdom & _ & Hthis).
  split.
  - rewrite Hdom. cbn [Geocoder.results]. rewrite dom_empty_L. by rewrite (left_id_L ∅ (∪)).
  - intros k a Hk Hlater. by apply Hthis.
Qed.

Lemma batchGeocode_results_witness :
  Geocoder.results
    (Geocoder.batchGeocode noFloat (fun _ _ => NotOk 429) false
       [ {| Geocoder.address := "中正區"; Geocoder.city := Some "台北市" |} ])
    !! "台北市中正區" = Some None.
Proof.
  pose proof (batchGeocode_results noFloat (fun _ _ => NotOk 429) false
    [ {| Geocoder.address := "中正區"; Geocoder.city := Some "台北市" |} ]) as H.
  cbv zeta in H. destruct H as [_ H].
  apply (H 0%nat {| Geocoder.address := "中正區"; Geocoder.city := Some "台北市" |});
    [reflexivity|].
  intros [|j] b Hj Hb; [lia | done].
Defined.

(** ** Case conversion *)

Ltac each_ascii c :=
  destruct c as [[] [] [] [] [] [] [] []]; vm_compute; try reflexivity; try discriminate.

Lemma upper_lower_upper c :
  CaseConversion.isUpper c = true ->
  CaseConversion.isLower (CaseConversion.toLowerCase c) = true /\
  CaseConversion.toUpperCase (CaseConversion.toLowerCase c) = c.
Proof. each_ascii c; intros _; split; reflexivity. Qed.

Lemma lower_upper_lower c :
  CaseConversion.isLower c = true ->
  CaseConversion.isUpper (CaseConversion.toUpperCase c) = true /\
  CaseConversion.toLowerCase (CaseConversion.toUpperCase c) = c.
Proof. each_ascii c; intros _; split; reflexivity. Qed.

Lemma toLowerCase_not_upper c :
  CaseConversion.isUpper (CaseConversion.toLowerCase c) = false.
Proof. each_ascii c. Qed.

Lemma underscore_no_letter c :
  Ascii.eqb c "_" = true ->
  CaseConversion.isUpper c = false /\ CaseConversion.isLower c = false.
Proof. intros ->%Ascii.eqb_eq. split; reflexivity. Qed.

Lemma upper_not_lower c :
  CaseConversion.isUpper c = true ->
  CaseConversion.isLower c = false /\ Ascii.eqb c "_" = false.
Proof. each_ascii c; intros _; split; reflexivity. Qed.

Lemma noSnakePair_tail c rest : noSnakePair (String c rest) = true -> noSnakePair rest = true.
Proof.
  destruct rest as [|d rest]; [reflexivity|].
  cbn [noSnakePair]. intros H%andb_true_iff. exact (proj2 H).
Qed.

Lemma camelToSnake_head d rest :
  exists d' rest',
    CaseConversion.camelToSnake (String d rest) = String d' rest' /\
    (if CaseConversion.isUpper d then d' = "_"%char else d' = d).
Proof.
  cbn [CaseConversion.camelToSnake]. destruct (CaseConversion.isUpper d); eauto.
Qed.

Lemma snakeToCamel_skip c d rest :
  Ascii.eqb c "_" && CaseConversion.isLower d = false ->
  CaseConversion.snakeToCamel (String c (String d rest)) =
    String c (CaseConversion.snakeToCamel (String d rest)).
Proof. intros H. cbn [CaseConversion.snakeToCamel]. by rewrite H. Qed.

Lemma snakeToCamel_pair d rest :
  CaseConversion.isLower d = true ->
  CaseConversion.snakeToCamel (String "_" (String d rest)) =
    String (CaseConversion.toUpperCase d) (CaseConversion.snakeToCamel rest).
Proof. intros H. cbn [CaseConversion.snakeToCamel]. by rewrite H. Qed.

Lemma snake_round_trip_bounded n s :
  (String.length s <= n)%nat -> noUpper s = true ->
  CaseConversion.camelToSnake (CaseConversion.snakeToCamel s) = s.
Proof.
  revert s. induction n as [|n IH]; intros s Hlen Hs.
  - destruct s; [reflexivity | simpl in Hlen; lia].
  - destruct s as [|c [|d rest]]; [reflexivity| |].
    + cbn [noUpper] in Hs. apply andb_true_iff in Hs as [Hc%negb_true_iff _].
      cbn [CaseConversion.snakeToCamel CaseConversion.camelToSnake]. by rewrite Hc.
    + cbn [noUpper] in Hs.
      apply andb_true_iff in Hs as [Hc%negb_true_iff Hs].
      pose proof Hs as Hs'. cbn [noUpper] in Hs'.
      apply andb_true_iff in Hs' as [Hd%negb_true_iff Hrest].
      cbn [String.length] in Hlen.
      destruct (Ascii.eqb c "_" && CaseConversion.isLower d) eqn:Hpair.
      * apply andb_true_iff in Hpair as [->%Ascii.eqb_eq Hlow].
        rewrite snakeToCamel_pair by done.
        destruct (lower_upper_lower d Hlow) as [Hup Hback].
        cbn [CaseConversion.camelToSnake]. rewrite Hup, Hback.
        rewrite IH; [reflexivity | lia | done].
      * rewrite snakeToCamel_skip by done.
        cbn [CaseConversion.camelToSnake]. rewrite Hc.
        rewrite IH; [reflexivity | cbn [String.length]; lia | done].
Qed.

(** X26.  A text in which no underscore is followed by a lower-case letter
    comes back unchanged from [camelToSnake] followed by [snakeToCamel]: on
    such names the conversion to snake_case loses nothing, so two of them
    never get the same snake_case name. *)
Theorem camel_round_trip s :
  noSnakePair s = true ->
  CaseConversion.snakeToCamel (CaseConversion.camelToSnake s) = s.
Proof.
  induction s as [|c rest IH]; intros Hs; [reflexivity|].
  pose proof (noSnakePair_tail _ _ Hs) as Hrest. specialize (IH Hrest).
  cbn [CaseConversion.camelToSnake]. destruct (CaseConversion.isUpper c) eqn:Hc.
  - destruct (upper_lower_upper c Hc) as [Hlow Hback].
    rewrite snakeToCamel_pair by done. by rewrite Hback, IH.
  - destruct rest as [|d rest]; [reflexivity|].
    destruct (camelToSnake_head d rest) as (d' & rest' & Heq & Hd').
    rewrite Heq in IH |- *.
    rewrite snakeToCamel_skip; [by rewrite IH|].
    cbn [noSnakePair] in Hs. apply andb_true_iff in Hs as [Hpair%negb_true_iff _].
    destruct (CaseConversion.isUpper d) eqn:Hd; subst d'.
    + apply andb_false_iff. right. reflexivity.
    + exact Hpair.
Qed.

Lemma camel_round_trip_witness :
  noSnakePair "recordsAdded" = true /\
  CaseConversion.camelToSnake "recordsAdded" = "records_added" /\
  CaseConversion.snakeToCamel (CaseConversion.camelToSnake "recordsAdded") = "recordsAdded".
Proof.
  split; [reflexivity|]. split; [reflexivity|].
  apply (camel_round_trip "recordsAdded"). reflexivity.
Defined.

(** X27.  [camelToSnake] leaves no upper-case letter in its result, and a
    text without upper-case letters comes back unchanged from
    [snakeToCamel] followed by [camelToSnake]. *)
Theorem snake_round_trip s :
  noUpper (CaseConversion.camelToSnake s) = true /\
  (noUpper s = true ->
   CaseConversion.camelToSnake (CaseConversion.snakeToCamel s) = s).
Proof.
  split.
  - induction s as [|c rest IH]; [reflexivity|].
    cbn [CaseConversion.camelToSnake]. destruct (CaseConversion.isUpper c) eqn:Hc.
    + cbn [noUpper]. by rewrite toLowerCase_not_upper, IH.
    + cbn [noUpper]. by rewrite Hc, IH.
  - apply (snake_round_trip_bounded (String.length s)). lia.
Qed.

Lemma snake_round_trip_witness :
  noUpper "source_url" = true /\
  CaseConversion.snakeToCamel "source_url" = "sourceUrl" /\
  CaseConversion.camelToSnake (CaseConversion.snakeToCamel "source_url") = "source_url".
Proof.
  split; [reflexivity|]. split; [reflexivity|].
  apply (snake_round_trip "source_url"). reflexivity.
Defined.

(** ** The batch loop and the table *)

(** The table after an upsert, key by key: the last row of the batch that
    carries the key, or what was there. *)
Lemma upsertRows_lookup (rs : list DbRecord) (m : gmap LandKey DbRecord) key :
  upsertRows rs m !! key =
    match lastWrite key rs with
    | Some r => Some r
    | None => m !! key
    end.
Proof.
  unfold lastWrite. induction rs as [|r rs IH] using rev_ind; [done|].
  rewrite upsertRows_app. change (upsertRows [r] ?t) with (<[conflictKey r := r]> t).
  rewrite List.filter_app, last_app. cbn [List.filter].
  destruct (decide (conflictKey r = key)) as [Heq|Hne].
  - rewrite (bool_decide_eq_true_2 _ Heq). cbn [last]. rewrite <- Heq.
    apply lookup_insert_eq.
  - rewrite (bool_decide_eq_false_2 _ Hne). cbn [last].
    rewrite lookup_insert_ne by done. exact IH.
Qed.

Lemma lastWrite_Some key rs r :
  lastWrite key rs = Some r -> r ∈ rs /\ conflictKey r = key.
Proof.
  unfold lastWrite. intros H.
  assert (Hin : In r (List.filter (fun r => bool_decide (conflictKey r = key)) rs)).
  { apply last_Some in H as [l' ->]. apply in_or_app. right. by left. }
  apply filter_In in Hin as [Hin Hk]. split; [by apply list_elem_of_In|].
  by apply bool_decide_eq_true in Hk.
Qed.

Lemma lastWrite_None key rs :
  lastWrite key rs = None <-> key ∉ map conflictKey rs.
Proof.
  unfold lastWrite. induction rs as [|r rs IH]; [split; [by intros _ ?%elem_of_nil|done]|].
  cbn [List.filter map]. destruct (decide (conflictKey r = key)) as [Heq|Hne].
  - rewrite (bool_decide_eq_true_2 _ Heq). split.
    + intros H. apply last_None in H. discriminate H.
    + intros H. exfalso. apply H. rewrite Heq. left.
  - rewrite (bool_decide_eq_false_2 _ Hne), IH. split.
    + intros H [Hk | Hk]%elem_of_cons; [by apply Hne | by apply H].
    + intros H Hk. apply H. by right.
Qed.

Lemma concat_imap_const {A} (c : bool) (l : list A) :
  concat (imap (fun _ x => if c then [x] else []) l) = if c then l else [].
Proof.
  induction l as [|x l IH]; [by destruct c|].
  cbn [imap concat]. unfold compose. rewrite IH. by destruct c.
Qed.

Section BatchLoop.
Variable w : World.
Variable city : string.
Variable nd : list NormalizedLand.t.

Lemma writtenFrom_nil i : writtenFrom w city i [] = [].
Proof. reflexivity. Qed.

Lemma batchStart_in_batch k j :
  (j < batchSize)%nat -> batchStart (batchSize * k + j) = (batchSize * k)%nat.
Proof.
  unfold batchStart, batchSize. intros Hj. f_equal.
  rewrite Nat.mul_comm, Nat.div_add_l by lia. rewrite (Nat.div_small j) by lia. lia.
Qed.

(** The records of one batch are written together or not at all. *)
Lemma writtenFrom_batch k (a b : list NormalizedLand.t) :
  (length a <= batchSize)%nat ->
  (b <> [] -> length a = batchSize) ->
  writtenFrom w city (batchSize * k) (a ++ b) =
    (if upsertError w city (batchSize * k) then [] else a)
    ++ writtenFrom w city (batchSize * S k) b.
Proof.
  intros Hlen Hfull. unfold writtenFrom. rewrite imap_app, concat_app. f_equal.
  - rewrite (imap_ext _
      (fun _ land => if negb (upsertError w city (batchSize * k)) then [land] else [])).
    + rewrite concat_imap_const. by destruct (upsertError w city (batchSize * k)).
    + intros j land Hj. apply lookup_lt_Some in Hj.
      unfold accepted. rewrite batchStart_in_batch by lia. reflexivity.
  - destruct b as [|land b]; [reflexivity|].
    rewrite Hfull by done. f_equal. apply imap_ext. intros j x _.
    replace (batchSize * k + (batchSize + j))%nat with (batchSize * S k + j)%nat by lia.
    reflexivity.
Qed.

Lemma upsertLoop_written fuel k st st' :
  upsertLoop w city nd fuel (batchSize * k) st = Some st' ->
  lands st' =
    upsertRows (map toDbRecord (writtenFrom w city (batchSize * k) (drop (batchSize * k) nd)))
      (lands st) /\
  totalRecords st' =
    (totalRecords st + length (writtenFrom w city (batchSize * k) (drop (batchSize * k) nd)))%nat.
Proof.
  revert k st. induction fuel as [|fuel IH]; intros k st H; [done|].
  cbn [upsertLoop] in H.
  destruct (Nat.ltb_spec (batchSize * k) (length nd)) as [Hlt|Hge].
  - replace (batchSize * k + batchSize)%nat with (batchSize * S k)%nat in H by lia.
    apply IH in H as [Hlands Htotal].
    set (a := take batchSize (drop (batchSize * k) nd)).
    assert (Hbatch : slice (batchSize * k) (batchSize * k + batchSize) nd = a).
    { unfold slice, a. f_equal. lia. }
    assert (Hsplit : drop (batchSize * k) nd = a ++ drop (batchSize * S k) nd).
    { unfold a. rewrite <- (take_drop batchSize (drop (batchSize * k) nd)) at 1.
      f_equal. rewrite drop_drop. f_equal. lia. }
    assert (Hlen : (length a <= batchSize)%nat).
    { unfold a. rewrite length_take. lia. }
    assert (Hfull : drop (batchSize * S k) nd <> [] -> length a = batchSize).
    { intros Hne. unfold a. rewrite length_take, length_drop.
      assert (batchSize * S k < length nd)%nat; [|lia].
      destruct (Nat.lt_ge_cases (batchSize * S k) (length nd)) as [|Hge]; [done|].
      by rewrite drop_ge in Hne. }
    rewrite Hsplit, (writtenFrom_batch k a _ Hlen Hfull).
    rewrite map_app, upsertRows_app, length_app.
    unfold upsertBatch in Hlands, Htotal. rewrite Hbatch in Hlands, Htotal.
    destruct (upsertError w city (batchSize * k));
      cbn [lands totalRecords] in Hlands, Htotal.
    + split; [exact Hlands | cbn [length]; lia].
    + rewrite length_map in Htotal. split; [exact Hlands | lia].
  - injection H as <-. rewrite drop_ge by lia. by rewrite Nat.add_0_r.
Qed.

End BatchLoop.

(** What a sync that got as far as the store does to the table and
    reports: it writes the records of the accepted batches, in order, and
    counts them. *)
Lemma syncCityData_written w city db nd :
  cityRecords w city = inr nd ->
  serverConfigured w (Some city) = true ->
  unclaimed_lands (syncCityData w city db).1 =
    upsertRows (map toDbRecord (writtenRecords w city nd)) (unclaimed_lands db) /\
  (syncCityData w city db).2 =
    Returned {| SyncResult.city := city; SyncResult.success := true;
                SyncResult.recordCount := length (writtenRecords w city nd);
                SyncResult.error := None |}.
Proof.
  intros Hrec Hconf.
  destruct (syncCityData_fetched w city db nd Hrec Hconf) as (st & new & Hloop & -> & _).
  change 0%nat with (batchSize * 0)%nat in Hloop at 1.
  apply upsertLoop_written in Hloop as [Hlands Htotal].
  cbn [lands totalRecords] in Hlands, Htotal.
  rewrite Nat.mul_0_r in Hlands, Htotal. rewrite drop_0 in Hlands, Htotal.
  cbn [fst snd unclaimed_lands]. fold (writtenRecords w city nd) in Hlands, Htotal.
  by rewrite Hlands, Htotal.
Qed.

Lemma writtenRecords_all w city nd :
  (forall i, upsertError w city i = false) -> writtenRecords w city nd = nd.
Proof.
  intros Hall. unfold writtenRecords, writtenFrom.
  rewrite (imap_ext _ (fun _ land => if true then [land] else [])).
  - exact (concat_imap_const true nd).
  - intros j land _. unfold accepted. by rewrite Hall.
Qed.

Lemma writtenRecords_ext w1 w2 city nd :
  (forall i, upsertError w2 city i = upsertError w1 city i) ->
  writtenRecords w2 city nd = writtenRecords w1 city nd.
Proof.
  intros Hsame. unfold writtenRecords, writtenFrom. f_equal. apply imap_ext.
  intros j land _. unfold accepted. by rewrite Hsame.
Qed.

Lemma writtenRecords_elem w city nd land :
  land ∈ writtenRecords w city nd <->
  exists j, nd !! j = Some land /\ accepted w city j = true.
Proof.
  unfold writtenRecords, writtenFrom. rewrite list_elem_of_In, in_concat. split.
  - intros (l & Hl & Hin). apply list_elem_of_In, list_elem_of_lookup in Hl as [j Hj].
    rewrite list_lookup_imap in Hj.
    destruct (nd !! j) as [x|] eqn:Hx; [|done]. injection Hj as <-.
    exists j. cbn [Nat.add] in Hin. destruct (accepted w city j); [|done].
    destruct Hin as [-> | []]. done.
  - intros (j & Hj & Hacc). exists [land]. split; [|by left].
    apply list_elem_of_In, list_elem_of_lookup. exists j.
    rewrite list_lookup_imap, Hj. cbn. by rewrite Hacc.
Qed.

(** C8.  Within the sync of one city whose fetch delivered records, the
    records are handed to the store in consecutive batches of 100 (the last
    one may be shorter); every batch is attempted, whether or not an earlier
    one failed.  The table afterwards holds, under each key, the last record
    with that key among the records of the accepted batches, and what it
    held before under every other key: a refused batch writes nothing.  The
    reported record count is the number of records of the accepted batches;
    where their keys are pairwise different and new to the table, the table
    grows by exactly that count and each of them is read back as written.
    The sync is reported successful whatever was refused. *)
Theorem batch_upsert_partial_success w city db nd :
  cityRecords w city = inr nd ->
  serverConfigured w (Some city) = true ->
  exists db' result new,
    syncCityData w city db = (db', Returned result) /\
    upsert_calls db' = upsert_calls db ++ new /\
    length new = ((length nd + 99) / 100)%nat /\
    concat (map fst new) = map toDbRecord nd /\
    (forall k c, new !! k = Some c ->
       c.1 = map toDbRecord (slice (100 * k) (100 * k + 100) nd) /\
       length c.1 = Nat.min 100 (length nd - 100 * k) /\
       (0 < length c.1)%nat /\
       c.2 = negb (upsertError w city (100 * k))) /\
    (forall land, land ∈ writtenRecords w city nd <->
       exists j, nd !! j = Some land /\ upsertError w city (100 * (j / 100)) = false) /\
    (forall key,
       unclaimed_lands db' !! key =
         match lastWrite key (map toDbRecord (writtenRecords w city nd)) with
         | Some r => Some r
         | None => unclaimed_lands db !! key
         end) /\
    SyncResult.recordCount result = length (writtenRecords w city nd) /\
    (NoDup (recordKeys (writtenRecords w city nd)) ->
     (forall land, land ∈ writtenRecords w city nd ->
        unclaimed_lands db !! conflictKey (toDbRecord land) = None) ->
     size (unclaimed_lands db') =
       (size (unclaimed_lands db) + SyncResult.recordCount result)%nat /\
     forall land, land ∈ writtenRecords w city nd ->
       unclaimed_lands db' !! conflictKey (toDbRecord land) = Some (toDbRecord land)) /\
    SyncResult.success result = true /\
    SyncResult.error result = None.
Proof.
  intros Hrec Hconf.
  destruct (syncCityData_written w city db nd Hrec Hconf) as [Hlands Hout].
  destruct (syncCityData_fetched w city db nd Hrec Hconf)
    as (st & new & _ & Hsync & Hcalls & _ & _ & Hcat & Hlen & Hk).
  rewrite Hsync in Hlands, Hout. cbn [fst snd unclaimed_lands] in Hlands, Hout.
  injection Hout as Hcount.
  eexists _, _, new. split; [exact Hsync|].
  cbn [unclaimed_lands upsert_calls SyncResult.recordCount SyncResult.success
       SyncResult.error].
  split; [done|]. split; [done|]. split; [done|].
  split.
  { intros k c Hc. destruct (Hk k c Hc) as [Hlt ->]. cbn [fst snd].
    rewrite length_map, (slice_length nd (100 * k)).
    repeat split; lia. }
  split.
  { intros land. rewrite writtenRecords_elem. unfold accepted, batchStart, batchSize.
    split; intros (j & Hj & Hacc); exists j; (split; [done|]);
      by destruct (upsertError w city (100 * (j / 100))). }
  split.
  { intros key. rewrite Hlands. apply upsertRows_lookup. }
  split; [done|].
  split; [|done].
  intros Hnodup Hfresh.
  assert (Hkeys : map conflictKey (map toDbRecord (writtenRecords w city nd))
                  = recordKeys (writtenRecords w city nd)).
  { unfold recordKeys. by rewrite map_map. }
  split.
  - rewrite <- !size_dom, Hlands, dom_upsertRows.
    change (conflictKey <$> ?l) with (map conflictKey l). rewrite Hkeys, Hcount.
    rewrite size_union.
    + rewrite size_list_to_set by done. unfold recordKeys. by rewrite length_map.
    + intros key Hin1 Hin2. apply elem_of_dom in Hin1 as [r Hr].
      apply elem_of_list_to_set in Hin2. unfold recordKeys in Hin2.
      apply list_elem_of_fmap in Hin2 as (land & -> & Hland).
      rewrite (Hfresh land Hland) in Hr. discriminate Hr.
  - intros land Hland. rewrite Hlands. apply upsertRows_lookup_NoDup.
    + by rewrite Hkeys.
    + by apply list_elem_of_fmap_2.
Qed.

(** The records a sync goes on with, read off the world. *)
Lemma cityRecords_of_rows w city f p csv rows pf :
  dispatch city = Some (f, p) ->
  success (runFetch w f) = true ->
  data (runFetch w f) = Some csv -> csv <> "" ->
  papaParse w true csv = rows -> parseFloat w = pf ->
  cityRecords w city = inr (normalizeData (parseRows pf p rows) (Some city)).
Proof.
  intros Hd Hs Hdata Hne <- <-. unfold cityRecords. rewrite Hd, Hs, Hdata.
  apply String.eqb_neq in Hne. cbn [truthyS negb orb default]. by rewrite Hne.
Qed.

Lemma manyRecords_fetched :
  cityRecords flakyStoreWorld "彰化縣" = inr manyRecords /\
  cityRecords manyRowsWorld "彰化縣" = inr manyRecords /\
  length manyRecords = 250%nat.
Proof.
  split; [|split].
  - apply (cityRecords_of_rows flakyStoreWorld "彰化縣" (FromDataGov "28529")
             Changhua "28529");
      [reflexivity | vm_compute; reflexivity | vm_compute; reflexivity
      | discriminate | reflexivity | reflexivity].
  - apply (cityRecords_of_rows manyRowsWorld "彰化縣" (FromDataGov "28529")
             Changhua "28529");
      [reflexivity | vm_compute; reflexivity | vm_compute; reflexivity
      | discriminate | reflexivity | reflexivity].
  - vm_compute. reflexivity.
Qed.

Lemma batch_upsert_witness :
  exists db' result new,
    syncCityData flakyStoreWorld "彰化縣" emptyDb = (db', Returned result) /\
    upsert_calls db' = new /\
    map (fun c : list DbRecord * bool => (length c.1, c.2)) new
      = [ (100, true); (100, false); (50, true) ]%nat /\
    SyncResult.recordCount result = 150%nat /\
    size (unclaimed_lands db') = 150%nat /\
    SyncResult.success result = true.
Proof.
  destruct manyRecords_fetched as (Hrec & _ & Hn).
  destruct (batch_upsert_partial_success flakyStoreWorld "彰化縣" emptyDb manyRecords
              Hrec eq_refl)
    as (db' & result & new & Hsync & Hcalls & Hlen & _ & Hk & _ & _ & Hcount & Hsize
        & Hsucc & _).
  assert (Hwritten : length (writtenRecords flakyStoreWorld "彰化縣" manyRecords) = 150%nat)
    by (vm_compute; reflexivity).
  exists db', result, new. split; [exact Hsync|]. split; [exact Hcalls|].
  split; [|split; [|split]].
  - rewrite Hn in Hlen. change ((250 + 99) / 100)%nat with 3%nat in Hlen.
    destruct new as [|c0 [|c1 [|c2 [|c3 new]]]]; try discriminate Hlen.
    destruct (Hk 0%nat c0 eq_refl) as (_ & H0 & _ & F0).
    destruct (Hk 1%nat c1 eq_refl) as (_ & H1 & _ & F1).
    destruct (Hk 2%nat c2 eq_refl) as (_ & H2 & _ & F2).
    rewrite Hn in H0, H1, H2. cbn [map]. rewrite H0, H1, H2, F0, F1, F2.
    reflexivity.
  - by rewrite Hcount.
  - destruct Hsize as [Hsize _].
    + apply (bool_decide_unpack _). vm_compute. reflexivity.
    + intros land _. reflexivity.
    + rewrite Hsize, Hcount, Hwritten. reflexivity.
  - exact Hsucc.
Defined.

(** ** Idempotence *)

(** C2, as amended.  Two runs of the sync of a city on identical upstream
    data (both fetch and normalize the same records), where the store
    refuses in the second run every batch it refused in the first.  In the
    first run every record of an accepted batch is written under its key,
    the triple (sourceCity, district, landNumber).  The second run leaves
    the set of keys and the number of rows as they were after the first; it
    only rewrites rows that are there; and when it refuses exactly the
    batches of the first run, the table is the same after both. *)
Theorem sync_twice_same_count w1 w2 city db nd :
  cityRecords w1 city = inr nd ->
  cityRecords w2 city = inr nd ->
  serverConfigured w1 (Some city) = true ->
  (forall i, upsertError w1 city i = true -> upsertError w2 city i = true) ->
  let db1 := (syncCityData w1 city db).1 in
  let db2 := (syncCityData w2 city db1).1 in
  (forall j land, nd !! j = Some land ->
     conflictKey (toDbRecord land) =
       (NormalizedLand.sourceCity land, NormalizedLand.district land,
        NormalizedLand.landNumber land) /\
     (upsertError w1 city (100 * (j / 100)) = false ->
      exists r, unclaimed_lands db1 !! conflictKey (toDbRecord land) = Some r /\
                r ∈ map toDbRecord nd /\
                conflictKey r = conflictKey (toDbRecord land))) /\
  size (unclaimed_lands db2) = size (unclaimed_lands db1) /\
  dom (unclaimed_lands db2) = dom (unclaimed_lands db1) /\
  (forall key r, unclaimed_lands db2 !! key = Some r ->
     unclaimed_lands db1 !! key = Some r \/
     r ∈ map toDbRecord nd /\ conflictKey r = key) /\
  ((forall i, upsertError w2 city i = upsertError w1 city i) ->
   unclaimed_lands db2 = unclaimed_lands db1).
Proof.
  intros Hrec1 Hrec2 Hconf1 Herr db1 db2.
  destruct (syncCityData_written w1 city db nd Hrec1 Hconf1) as [Hlands1 _].
  fold db1 in Hlands1.
  assert (Hdom : dom (unclaimed_lands db2) = dom (unclaimed_lands db1)).
  { apply syncCityData_rerun; [congruence | done | done]. }
  assert (Hin : forall l land, land ∈ writtenRecords l city nd -> land ∈ nd).
  { intros l land (j & Hj & _)%writtenRecords_elem. by apply (list_elem_of_lookup_2 _ j). }
  assert (Hlands2 : serverConfigured w2 (Some city) = true ->
            unclaimed_lands db2 =
              upsertRows (map toDbRecord (writtenRecords w2 city nd)) (unclaimed_lands db1)).
  { intros Hconf2. by destruct (syncCityData_written w2 city db1 nd Hrec2 Hconf2). }
  assert (Hoff : serverConfigured w2 (Some city) = false ->
            unclaimed_lands db2 = unclaimed_lands db1).
  { intros Hconf2. subst db2. unfold syncCityData, syncCityDataWith.
    by rewrite Hrec2, Hconf2. }
  split; [|split; [|split; [|split]]].
  - intros j land Hj. split; [reflexivity|]. intros Hacc.
    assert (Hw : land ∈ writtenRecords w1 city nd).
    { apply writtenRecords_elem. exists j. split; [done|].
      unfold accepted, batchStart, batchSize. by rewrite Hacc. }
    rewrite Hlands1, upsertRows_lookup.
    destruct (lastWrite _ _) as [r|] eqn:Hlast.
    + apply lastWrite_Some in Hlast as [Hr Hkey]. exists r. split; [done|].
      split; [|done]. apply list_elem_of_fmap in Hr as (x & -> & Hx).
      apply list_elem_of_fmap_2. by apply (Hin w1).
    + exfalso. apply lastWrite_None in Hlast. apply Hlast.
      rewrite map_map. by apply (list_elem_of_fmap_2 (fun x => conflictKey (toDbRecord x))).
  - by rewrite <- !size_dom, Hdom.
  - exact Hdom.
  - intros key r Hr.
    destruct (serverConfigured w2 (Some city)) eqn:Hconf2;
      [|left; by rewrite <- (Hoff eq_refl)].
    rewrite (Hlands2 eq_refl), upsertRows_lookup in Hr.
    destruct (lastWrite _ _) as [r'|] eqn:Hlast; [|by left].
    injection Hr as ->. right.
    apply lastWrite_Some in Hlast as [Hr Hkey]. split; [|done].
    apply list_elem_of_fmap in Hr as (x & -> & Hx).
    apply list_elem_of_fmap_2. by apply (Hin w2).
  - intros Hsame.
    destruct (serverConfigured w2 (Some city)) eqn:Hconf2; [|by apply Hoff].
    rewrite (Hlands2 eq_refl), (writtenRecords_ext w1 w2 city nd Hsame).
    apply map_eq. intros key. rewrite upsertRows_lookup, Hlands1, upsertRows_lookup.
    by destruct (lastWrite _ _).
Qed.

Lemma sync_twice_same_count_witness :
  let db1 := (syncCityData manyRowsWorld "彰化縣" emptyDb).1 in
  let db2 := (syncCityData flakyStoreWorld "彰化縣" db1).1 in
  size (unclaimed_lands db1) = 250%nat /\
  size (unclaimed_lands db2) = size (unclaimed_lands db1) /\
  dom (unclaimed_lands db2) = dom (unclaimed_lands db1).
Proof.
  intros db1 db2.
  destruct manyRecords_fetched as (Hrec2 & Hrec1 & _).
  destruct (sync_twice_same_count manyRowsWorld flakyStoreWorld "彰化縣" emptyDb
              manyRecords Hrec1 Hrec2 eq_refl)
    as (_ & Hsize & Hdom & _).
  - intros i Hi. discriminate Hi.
  - split; [vm_compute; reflexivity|]. split; [exact Hsize | exact Hdom].
Defined.

(** C2, as stated, fails when the store refused a batch of the first run
    and accepts it in the second: on the same 250 upstream records the
    table holds 150 rows after the first run and 250 after the second. *)
Lemma sync_twice_count_grows :
  let db1 := (syncCityData flakyStoreWorld "彰化縣" emptyDb).1 in
  let db2 := (syncCityData manyRowsWorld "彰化縣" db1).1 in
  cityRecords flakyStoreWorld "彰化縣" = cityRecords manyRowsWorld "彰化縣" /\
  size (unclaimed_lands db1) = 150%nat /\
  size (unclaimed_lands db2) = 250%nat.
Proof.
  destruct manyRecords_fetched as (Hflaky & Hhealthy & _).
  intros db1 db2. split; [exact (eq_trans Hflaky (eq_sym Hhealthy))|].
  subst db1 db2. split; vm_compute; reflexivity.
Qed.

(** ** [round64] against the binary64 of the kernel *)

#[local] Set Warnings "-inexact-float".

(** Divisions: by 3.30579, ties, subnormal results, the largest value. *)
Example round64_division_agrees :
  forallb (fun '(x, y) => divisionAgrees x y)
    [ (1.20661335, 3.30579); (150.5, 3.30579); (1, 3); (2, 3); (1, 10);
      (9405439425771.896, 3.30579); (-954215616786974.8, 3.30579);
      (1e-310, 3); (5e-324, 2); (5e-324, 3); (1.5e-323, 2);
      (2.2250738585072014e-308, 1.0000000000000002);
      (1.7976931348623157e308, 0.5); (1.7976931348623157e308, 0.9999999999999999);
      (9007199254740993, 1); (-7, 1e300) ]%float = true.
Proof. vm_compute. reflexivity. Qed.

Example round64_literal_agrees :
  forallb (fun '(decimal, x) => literalAgrees decimal x)
    [ (330579 # 100000, 3.30579%float); (4553 # 100, 45.53%float);
      (36 # 100, 0.36%float); (1 # 10, 0.1%float);
      (120661335 # 100000000, 1.20661335%float);
      (123456789012345678 # 1, 123456789012345678%float);
      (- (5 # 1000), (-0.005)%float) ] = true.
Proof. vm_compute. reflexivity. Qed.
